(** * neupy: the training-loop controller of [neupy/network/base.py]

    A shallow embedding of [parse_show_epoch_property], [show_epoch_summary],
    [BaseNetwork._train], [clean_layers], [ConstructableNetwork] and
    [SimpleStepMinimization.init_train_updates], with the properties the
    specification states about them.

    Conventions.  Python integers are [Z]; Python floats (clock readings,
    error values, the learning step) are idealised as rationals [Q], except
    the quotient of two integers in [parse_show_epoch_property], which is
    rounded to binary64 as Python does; an exception is a value of [Exn]
    carried by [Res].  Where Python 2 and
    Python 3 differ ([round], [math.ceil], [/]) the Python 3 meaning is
    taken.  Everything written to the logger or the progress table, and
    every call of a method or callback of the object, is recorded as an
    event of a trace. *)

From Stdlib Require Import ZArith QArith Qround Qabs Qpower Bool List Lia Lqa.
From Stdlib Require Import Ascii String Decimal DecimalString DecimalPos DecimalZ.
Import ListNotations.

Set Implicit Arguments.

(** ** Exceptions and results *)

Inductive Exn : Type :=
| ValueError
| NameError              (* UnboundLocalError is a subclass of NameError *)
| ZeroDivisionError
| OverflowError
| AttributeError
| IndexError
| TypeError
| StopIteration
| NetworkConnectionError
| StopNetworkTraining (message : string)
| OtherError (tag : nat).

Inductive Res (A : Type) : Type :=
| Ok (a : A)
| Raise (e : Exn).

Arguments Ok {A} a.
Arguments Raise {A} e.

Definition bind {A B : Type} (r : Res A) (k : A -> Res B) : Res B :=
  match r with
  | Ok a => k a
  | Raise e => Raise e
  end.

Notation "x <- r ;; k" := (bind r (fun x => k))
  (at level 61, r at next level, right associativity).

(** ** Python string helpers used by [parse_show_epoch_property] *)

Open Scope string_scope.

(** [s.startswith(sub)] *)
Fixpoint starts_with (sub s : string) : bool :=
  match sub with
  | EmptyString => true
  | String a sub' =>
      match s with
      | String b s' => Ascii.eqb a b && starts_with sub' s'
      | EmptyString => false
      end
  end.

(** [value.index(sub)]: position of the first occurrence, [ValueError] when
    there is none. *)
Fixpoint str_index (sub s : string) : Res nat :=
  if starts_with sub s then Ok 0%nat
  else match s with
       | EmptyString => Raise ValueError
       | String _ s' => n <- str_index sub s' ;; Ok (S n)
       end.

(** [value[:n]] *)
Fixpoint str_take (n : nat) (s : string) : string :=
  match n, s with
  | S n', String c s' => String c (str_take n' s')
  | _, _ => EmptyString
  end.

Definition is_space (c : ascii) : bool :=
  match nat_of_ascii c with
  | 9%nat | 10%nat | 11%nat | 12%nat | 13%nat | 32%nat => true
  | _ => false
  end.

Fixpoint lstrip (s : string) : string :=
  match s with
  | String c s' => if is_space c then lstrip s' else s
  | EmptyString => EmptyString
  end.

Fixpoint rstrip (s : string) : string :=
  match s with
  | String c s' =>
      match rstrip s' with
      | EmptyString => if is_space c then EmptyString else String c EmptyString
      | r => String c r
      end
  | EmptyString => EmptyString
  end.

(** [s.strip()] *)
Definition strip (s : string) : string := rstrip (lstrip s).

(** [int(s)] on a stripped string: an optional sign and a non-empty run of
    decimal digits, [ValueError] otherwise ([validate] below lets only runs
    of digits reach it). *)
Definition py_int_unsigned (s : string) : Res Z :=
  match s with
  | EmptyString => Raise ValueError
  | _ => match NilEmpty.uint_of_string s with
         | Some d => Ok (Z.of_uint d)
         | None => Raise ValueError
         end
  end.

Definition py_int (s : string) : Res Z :=
  match s with
  | String "+" s' => py_int_unsigned s'
  | String "-" s' => n <- py_int_unsigned s' ;; Ok (- n)%Z
  | _ => py_int_unsigned s
  end.

Close Scope string_scope.

(** ** Numeric helpers *)

Open Scope Z_scope.

(** Python 3 [round(x)] with one argument: the nearest integer, a tie going
    to the even neighbour. *)
Definition py_round (x : Q) : Z :=
  let f := Qfloor x in
  match ((x - inject_Z f) ?= (1 # 2))%Q with
  | Lt => f
  | Gt => f + 1
  | Eq => if Z.even f then f else f + 1
  end.

(** The exponent of the leading bit of a positive rational [q]:
    [2^e <= q < 2^(e+1)]. *)
Definition leading_bit (q : Q) : Z :=
  let d := Z.log2 (Qnum q) - Z.log2 (Zpos (Qden q)) in
  if Qle_bool (2 ^ d) q then d else d - 1.

(** A positive rational rounded to 53 significant bits: the significand is
    the integer nearest to [q / 2^e], a tie going to the even one, which is
    the rounding [py_round] computes. *)
Definition round53 (q : Q) : Q :=
  let e := leading_bit q - 52 in
  (inject_Z (py_round (q * 2 ^ (- e))) * 2 ^ e)%Q.

(** The binary64 number nearest to [q], a tie going to the even significand.
    The exponent range is not modelled: a number of magnitude [2^1024] or
    more, or below [2^-1022], is rounded to 53 bits like any other. *)
Definition binary64 (q : Q) : Q :=
  match Qnum q with
  | 0 => 0%Q
  | Zpos _ => round53 q
  | Zneg _ => (- round53 (- q))%Q
  end.

(** True division of two Python integers ([from __future__ import division]):
    the float nearest to the exact quotient.  Where Python raises
    [OverflowError] (a quotient of [2^1024] or more) this returns the
    quotient rounded to 53 bits. *)
Definition true_div (a b : Z) : Res Q :=
  if b =? 0 then Raise ZeroDivisionError
  else Ok (binary64 (inject_Z a / inject_Z b)).

(** ** [show_epoch]: an integer or a string *)

Inductive ShowEpoch : Type :=
| SEInt (n : Z)
| SEStr (s : string).

(** [parse_show_epoch_property(value, n_epochs)], lines 149-161. *)
Definition parse_show_epoch_property (value : ShowEpoch) (n_epochs : Z) : Res Z :=
  match value with
  | SEInt n => Ok n
  | SEStr s =>
      number_end_position <- str_index "time" s ;;
      n_epochs_to_check <- py_int (strip (str_take number_end_position s)) ;;
      if n_epochs <=? n_epochs_to_check then Ok 1
      else q <- true_div n_epochs n_epochs_to_check ;; Ok (py_round q)
  end.


(** [s.endswith(suffix)] *)
Fixpoint ends_with (suffix s : string) : bool :=
  String.eqb s suffix ||
  match s with
  | String _ s' => ends_with suffix s'
  | EmptyString => false
  end.

Definition is_digit (c : ascii) : bool :=
  existsb (Ascii.eqb c) ["0"; "1"; "2"; "3"; "4"; "5"; "6"; "7"; "8"; "9"]%char.

Fixpoint all_digits (s : string) : bool :=
  match s with
  | EmptyString => true
  | String c s' => is_digit c && all_digits s'
  end.

(** [s.isdigit()] *)
Definition isdigit (s : string) : bool :=
  match s with
  | EmptyString => false
  | _ => all_digits s
  end.

(** [ShowEpochProperty.validate], lines 170-198. *)
Definition ShowEpochProperty_validate (value : ShowEpoch) : Res unit :=
  match value with
  | SEInt n => if n <? 1 then Raise ValueError else Ok tt
  | SEStr s =>
      match str_index "time" s with
      | Raise _ => Raise ValueError
      | Ok number_end_position =>
          let number_part := strip (str_take number_end_position s) in
          if negb (ends_with "times" s || ends_with "time" s)
             || negb (isdigit number_part)
          then Raise ValueError
          else n <- py_int number_part ;;
               if n <? 1 then Raise ValueError else Ok tt
      end
  end.

(** The string form ["N times"] of a count [N]. *)
Definition times_string (N : positive) : string :=
  (NilEmpty.string_of_uint (Pos.to_uint N) ++ " times")%string.

(** ** Floats, messages and the outside world *)

(** A float is a rational or one of the non-finite values ([inf], [nan]). *)
Inductive Num : Type :=
| Fin (q : Q)
| NonFinite.

(** Truth value of a float: [0.0] is false. *)
Definition truthy (x : Num) : bool :=
  match x with
  | Fin q => negb (Qeq_bool q 0)
  | NonFinite => true
  end.

Inductive Message : Type :=
| MsgTooManyOutputs                      (* "Too many outputs in a terminal." *)
| MsgSetUpLogging (show_epoch : Z)       (* "Set up logging after each {} epoch" *)
| WarnShowEpochConverging                (* "Can't use `show_epoch` value in converging mode. ..." *)
| HdrStartTrain                          (* header "Start train" *)
| MsgTrainDataSize (n : Z)
| MsgValidationDataSize (n : Z)
| MsgTotalEpochs (n : Z)
| MsgMaxEpochs (n : Z)
| MsgEpochStopped (epoch : Z) (reason : string)
| MsgEndTrain
| MsgEmpty.

(** [np.mean] of a non-empty sequence. *)
Definition mean (xs : list Q) : Q :=
  (fold_right Qplus 0 xs / inject_Z (Z.of_nat (List.length xs)))%Q.

(** [deque(maxlen=n).append(x)]: the oldest entry leaves a full deque. *)
Definition deque_append (maxlen : nat) (xs : list Q) (x : Q) : list Q :=
  if (maxlen <=? List.length xs)%nat then tl xs ++ [x] else xs ++ [x].

Definition delay_limit : Q := 1.
Definition delay_history_length : nat := 10.

(** The gaps the generator averages: its buffer, with the gap to the
    previous row appended when there is one (lines 50-52). *)
Definition pending_delays (time_now : Q) (prev : option Q) (delays : list Q)
  : list Q :=
  match prev with
  | Some p => deque_append delay_history_length delays (time_now - p)%Q
  | None => delays
  end.

Section Training.

(** Arrays of the numeric backend. *)
Variable Tensor : Type.
(** The part of the object a concrete network class owns (parameters,
    shared scalars, compiled functions). *)
Variable M : Type.

(** *** The attributes of [BaseNetwork] *)
Record Network : Type := mkNetwork {
  show_epoch : ShowEpoch;
  shuffle_data : bool;
  errors_in : list Num;
  errors_out : list Num;
  train_epoch_time : option Q;
  epoch : option Z;
  input_train : option Tensor;
  target_train : option Tensor;
  model : M
}.

Definition with_model (m : M) (n : Network) : Network :=
  mkNetwork (show_epoch n) (shuffle_data n) (errors_in n) (errors_out n)
            (train_epoch_time n) (epoch n) (input_train n) (target_train n) m.

Definition with_epoch (e : Z) (n : Network) : Network :=
  mkNetwork (show_epoch n) (shuffle_data n) (errors_in n) (errors_out n)
            (train_epoch_time n) (Some e) (input_train n) (target_train n)
            (model n).

Definition with_train_data (x y : option Tensor) (n : Network) : Network :=
  mkNetwork (show_epoch n) (shuffle_data n) (errors_in n) (errors_out n)
            (train_epoch_time n) (epoch n) x y (model n).

Definition append_error_in (e : Num) (n : Network) : Network :=
  mkNetwork (show_epoch n) (shuffle_data n) (errors_in n ++ [e]) (errors_out n)
            (train_epoch_time n) (epoch n) (input_train n) (target_train n)
            (model n).

Definition append_error_out (e : Num) (n : Network) : Network :=
  mkNetwork (show_epoch n) (shuffle_data n) (errors_in n) (errors_out n ++ [e])
            (train_epoch_time n) (epoch n) (input_train n) (target_train n)
            (model n).

Definition with_train_epoch_time (t : Q) (n : Network) : Network :=
  mkNetwork (show_epoch n) (shuffle_data n) (errors_in n) (errors_out n)
            (Some t) (epoch n) (input_train n) (target_train n) (model n).

(** *** What is observable outside the object *)
Inductive Event : Type :=
| TableStart
| TableRow (epoch : Z) (train_err valid_err : option Num) (time : option Q)
| TableLine
| TableMessage (m : Message)
| TableFinish
| Log (m : Message)
| CallTrainEpoch (self : Network)
| CallPredictionError (self : Network)
| CallEpochEndSignal (self : Network)
| CallTrainEndSignal (self : Network).

(** The clock has been read [ticks] times, the shuffling source drawn
    [rng] times, and [trace] lists the events so far, oldest first. *)
Record World : Type := mkWorld {
  ticks : nat;
  rng : nat;
  trace : list Event
}.

(** *** The generator [show_epoch_summary] *)
Inductive GenStatus : Type := NotStarted | Suspended | Finished.

Record Summary : Type := mkSummary {
  status : GenStatus;
  g_show_epoch : Z;
  prev_summary_time : option Q;
  terminal_output_delays : list Q
}.

(** *** The locals of [_train] and the whole state *)
Record Locals : Type := mkLocals {
  l_input_train : Tensor;
  l_target_train : option Tensor;
  l_show_epoch : Z;
  l_last_epoch_shown : Z;
  l_epoch : option Z;
  epoch_summary : Summary
}.

Record State : Type := mkState {
  self : Network;
  world : World;
  locals : Locals
}.

(** Methods a concrete class supplies, and the two signal properties.
    [BaseNetwork] itself defines neither [train_epoch] nor
    [prediction_error] (line 332: "Method is undefined"); the latter is
    optional here.  A method or callback reads the whole object and may
    raise; what it writes is the part of the object its class owns, so the
    bookkeeping attributes ([errors_in], [errors_out], [epoch], ...) are
    written by [_train] and [epoch_start_update] alone. *)
Record NetworkClass : Type := mkClass {
  is_feature1d : Network -> bool * bool;
  epoch_start_update : Z -> Network -> Network;
  train_epoch : Network -> Tensor -> option Tensor -> Res Num * M;
  prediction_error : option (Network -> Tensor -> Tensor -> Res Num * M);
  epoch_end_signal : option (Network -> Res unit * M);
  train_end_signal : option (Network -> Res unit * M)
}.

(** *** External collaborators *)
Record Env : Type := mkEnv {
  clock : nat -> Q;                       (* [time.time()], per reading *)
  format_data : Tensor -> bool -> Tensor;
  shuffle : nat -> Tensor -> Tensor;      (* the permutation of one draw *)
  shape0 : Tensor -> Z;                   (* [array.shape[0]] *)
  normalize_error : Num -> Num;
  (** Modelled from the spec: [iter_until_converge] (in
      [neupy/network/utils.py], not among the sources) yields 1, 2, ... and
      stops at the first epoch at which the improvement between the two most
      recent training errors is below [epsilon], or after [max_epochs]
      epochs; [converged] is that test. *)
  converged : Q -> Network -> bool
}.

Variable env : Env.

(** *** A state-and-exception monad for the body of [_train] *)
Definition Py (A : Type) : Type := State -> Res A * State.

Definition ret {A : Type} (a : A) : Py A := fun st => (Ok a, st).
Definition raise {A : Type} (e : Exn) : Py A := fun st => (Raise e, st).
Definition pbind {A B : Type} (p : Py A) (k : A -> Py B) : Py B :=
  fun st => match p st with
            | (Ok a, st') => k a st'
            | (Raise e, st') => (Raise e, st')
            end.

Notation "x <~ p ;; k" := (pbind p (fun x => k))
  (at level 61, p at next level, right associativity).
Notation "p ;;; k" := (pbind p (fun _ => k))
  (at level 61, right associativity).

Definition get_self : Py Network := fun st => (Ok (self st), st).
Definition get_locals : Py Locals := fun st => (Ok (locals st), st).
Definition modify_self (f : Network -> Network) : Py unit :=
  fun st => (Ok tt, mkState (f (self st)) (world st) (locals st)).
Definition modify_locals (f : Locals -> Locals) : Py unit :=
  fun st => (Ok tt, mkState (self st) (world st) (f (locals st))).
Definition emit (e : Event) : Py unit :=
  fun st => let w := world st in
            (Ok tt, mkState (self st)
                            (mkWorld (ticks w) (rng w) (trace w ++ [e]))
                            (locals st)).
Definition emit_all (es : list Event) : Py unit :=
  fun st => let w := world st in
            (Ok tt, mkState (self st)
                            (mkWorld (ticks w) (rng w) (trace w ++ es))
                            (locals st)).
(** [time.time()] *)
Definition now : Py Q :=
  fun st => let w := world st in
            (Ok (clock env (ticks w)),
             mkState (self st) (mkWorld (S (ticks w)) (rng w) (trace w))
                     (locals st)).
Definition draw : Py nat :=
  fun st => let w := world st in
            (Ok (rng w),
             mkState (self st) (mkWorld (ticks w) (S (rng w)) (trace w))
                     (locals st)).
(** A method or callback: it reads the object and writes the part its
    class owns. *)
Definition call {A : Type} (f : Network -> Res A * M) : Py A :=
  fun st => let (r, m) := f (self st) in
            (r, mkState (with_model m (self st)) (world st) (locals st)).

Definition set_summary (g : Summary) (l : Locals) : Locals :=
  mkLocals (l_input_train l) (l_target_train l) (l_show_epoch l)
           (l_last_epoch_shown l) (l_epoch l) g.
Definition set_l_epoch (e : Z) (l : Locals) : Locals :=
  mkLocals (l_input_train l) (l_target_train l) (l_show_epoch l)
           (l_last_epoch_shown l) (Some e) (epoch_summary l).
Definition set_l_train (x : Tensor) (y : option Tensor) (l : Locals) : Locals :=
  mkLocals x y (l_show_epoch l) (l_last_epoch_shown l) (l_epoch l)
           (epoch_summary l).
Definition set_shown (k e : Z) (l : Locals) : Locals :=
  mkLocals (l_input_train l) (l_target_train l) k e (l_epoch l)
           (epoch_summary l).

(** [last_error], [last_validation_error], lines 389-395. *)
Definition last_error (n : Network) : option Num :=
  match errors_in n with
  | [] => None
  | e :: es => Some (normalize_error env (last es e))
  end.

Definition last_validation_error (n : Network) : option Num :=
  match errors_out n with
  | [] => None
  | e :: es => Some (normalize_error env (last es e))
  end.

(** [x or '-']: the dash, [None] here, replaces a false value. *)
Definition or_dash (x : option Num) : option Num :=
  match x with
  | Some v => if truthy v then Some v else None
  | None => None
  end.

Definition set_status (s : GenStatus) (g : Summary) : Summary :=
  mkSummary s (g_show_epoch g) (prev_summary_time g) (terminal_output_delays g).

(** The [finally] clause of the generator, lines 77-79. *)
Definition summary_finally_events : list Event := [TableFinish; Log MsgEmpty].

Definition summary_finally : Py unit :=
  emit_all summary_finally_events ;;;
  modify_locals (fun l => set_summary (set_status Finished (epoch_summary l)) l).

(** The generator [show_epoch_summary], lines 31-79, run from where it is
    suspended (or from its start) to its next [yield]: what it writes, the
    value it yields or the exception that ends it, and the state it is
    left in.  [network] is the object and [time_now] the reading of
    [time.time()].  A division of [delay_limit] by a zero mean is [inf] in
    numpy and [math.ceil] raises [OverflowError] on it. *)
Definition show_epoch_summary_step (network : Network) (time_now : Q)
           (g : Summary) : list Event * Res Z * Summary :=
  let started :=
    match status g with NotStarted => [TableStart] | _ => [] end in
  let delays :=
    pending_delays time_now (prev_summary_time g) (terminal_output_delays g) in
  match epoch network with
  | None => (started ++ summary_finally_events, Raise AttributeError,
             set_status Finished g)
  | Some e =>
      let row := TableRow e (last_error network)
                          (or_dash (last_validation_error network))
                          (train_epoch_time network) in
      if (List.length delays =? delay_history_length)%nat then
        let average_delay := mean delays in
        if negb (Qle_bool delay_limit average_delay) then
          if Qeq_bool average_delay 0 then
            (started ++ row :: summary_finally_events, Raise OverflowError,
             set_status Finished g)
          else
            let k := g_show_epoch g * Qceiling (delay_limit / average_delay) in
            (started ++ [row; TableLine; TableMessage MsgTooManyOutputs;
                         TableMessage (MsgSetUpLogging k); TableLine],
             Ok k, mkSummary Suspended k None [])
        else
          (started ++ [row], Ok (g_show_epoch g),
           mkSummary Suspended (g_show_epoch g) None delays)
      else
        (started ++ [row], Ok (g_show_epoch g),
         mkSummary Suspended (g_show_epoch g) (Some time_now) delays)
  end.

(** [next(epoch_summary)] *)
Definition next_epoch_summary : Py Z :=
  l <~ get_locals ;;
  match status (epoch_summary l) with
  | Finished => raise StopIteration
  | _ =>
      time_now <~ now ;;
      network <~ get_self ;;
      let '(events, result, g) :=
        show_epoch_summary_step network time_now (epoch_summary l) in
      emit_all events ;;;
      modify_locals (set_summary g) ;;;
      match result with
      | Ok k => ret k
      | Raise exn => raise exn
      end
  end.

(** [epoch_summary.close()]: the [finally] clause runs when the generator is
    suspended at its [yield]; a generator that never started just ends. *)
Definition close_epoch_summary : Py unit :=
  l <~ get_locals ;;
  match status (epoch_summary l) with
  | Suspended => summary_finally
  | NotStarted =>
      modify_locals (fun l => set_summary (set_status Finished (epoch_summary l)) l)
  | Finished => ret tt
  end.

(** Modelled from the spec: [shuffle] (in [neupy/network/utils.py], not among
    the sources) applies one permutation to both arrays. *)
Definition shuffle_train_data (seed : nat) (input_train : Tensor)
           (target_train : option Tensor) : Tensor * option Tensor :=
  match target_train with
  | None => (shuffle env seed input_train, None)
  | Some t => (shuffle env seed input_train, Some (shuffle env seed t))
  end.

(** [BaseNetwork.epoch_start_update], lines 245-254. *)
Definition BaseNetwork_epoch_start_update (e : Z) (n : Network) : Network :=
  with_epoch e n.

Inductive Flow : Type := Next | Break.

(** Held-out data with the bound [prediction_error], when both test arrays
    are given. *)
Definition HeldOut : Type :=
  option ((Network -> Tensor -> Tensor -> Res Num * M) * Tensor * Tensor).

(** The [try] block of the loop body, lines 354-368. *)
Definition train_attempt (cls : NetworkClass) (held_out : HeldOut)
           (e : Z) (epoch_start_time : Q) : Py unit :=
  l <~ get_locals ;;
  n <~ get_self ;;
  emit (CallTrainEpoch n) ;;;
  error <~ call (fun n => train_epoch cls n (l_input_train l) (l_target_train l)) ;;
  match held_out with
  | Some (prediction_error, input_test, target_test) =>
      n <~ get_self ;;
      emit (CallPredictionError n) ;;;
      error_out <~ call (fun n => prediction_error n input_test target_test) ;;
      modify_self (append_error_out error_out)
  | None => ret tt
  end ;;;
  modify_self (append_error_in error) ;;;
  t <~ now ;;
  modify_self (with_train_epoch_time (t - epoch_start_time)%Q) ;;;
  l <~ get_locals ;;
  (if l_show_epoch l =? 0 then raise ZeroDivisionError
   else if (e mod l_show_epoch l =? 0) || (e =? 1) then
          k <~ next_epoch_summary ;;
          modify_locals (set_shown k e)
        else ret tt) ;;;
  match epoch_end_signal cls with
  | Some signal => n <~ get_self ;; emit (CallEpochEndSignal n) ;;; call signal
  | None => ret tt
  end.

(** [try: ... except StopNetworkTraining as err: log; break], lines 353-376. *)
Definition catch_stop (e : Z) (body : Py unit) : Py Flow :=
  fun st =>
    match body st with
    | (Ok _, st') => (Ok Next, st')
    | (Raise (StopNetworkTraining msg), st') =>
        (emit (Log (MsgEpochStopped e msg)) ;;; ret Break) st'
    | (Raise exn, st') => (Raise exn, st')
    end.

(** The body of [for epoch in iterepochs], lines 344-376. *)
Definition epoch_body (cls : NetworkClass) (shuffle_flag : bool)
           (held_out : HeldOut) (e : Z) : Py Flow :=
  modify_locals (set_l_epoch e) ;;;
  epoch_start_time <~ now ;;
  modify_self (epoch_start_update cls e) ;;;
  (if shuffle_flag then
     seed <~ draw ;;
     l <~ get_locals ;;
     let (x, y) := shuffle_train_data seed (l_input_train l) (l_target_train l) in
     modify_locals (set_l_train x y) ;;;
     modify_self (with_train_data (Some x) y)
   else ret tt) ;;;
  catch_stop e (train_attempt cls held_out e epoch_start_time).

(** The two sources of epoch numbers: [range(1, epochs + 1)] and
    [iter_until_converge(self, epsilon, max_epochs=epochs)]. *)
Inductive EpochIter : Type :=
| RangeIter
| ConvergeIter (epsilon : Q).

Definition iter_yields (it : EpochIter) (n : Network) : bool :=
  match it with
  | RangeIter => true
  | ConvergeIter epsilon => negb (converged env epsilon n)
  end.

(** [for epoch in iterepochs: body], with [n] epochs left in the source and
    [e] the next epoch number. *)
Fixpoint for_epochs (n : nat) (e : Z) (it : EpochIter) (body : Z -> Py Flow)
  : Py unit :=
  match n with
  | O => ret tt
  | S n' =>
      fun st =>
        if iter_yields it (self st) then
          match body e st with
          | (Ok Next, st') => for_epochs n' (e + 1) it body st'
          | (Ok Break, st') => (Ok tt, st')
          | (Raise exn, st') => (Raise exn, st')
          end
        else (Ok tt, st)
  end.

(** What follows the loop, lines 378-385; the loop variable is unbound
    when the loop has not run. *)
Definition after_loop (cls : NetworkClass) : Py unit :=
  l <~ get_locals ;;
  match l_epoch l with
  | None => raise NameError
  | Some e =>
      (if negb (e =? l_last_epoch_shown l)
       then next_epoch_summary ;;; ret tt
       else ret tt) ;;;
      match train_end_signal cls with
      | Some signal => n <~ get_self ;; emit (CallTrainEndSignal n) ;;; call signal
      | None => ret tt
      end ;;;
      close_epoch_summary ;;;
      emit (Log MsgEndTrain)
  end.

(** Lines 312-385 of [_train]: logging, the loop and what follows it. *)
Definition train_run (cls : NetworkClass) (input_test target_test : option Tensor)
           (epochs : Z) (epsilon : option Q) (warn : bool) : Py unit :=
  (if warn then emit (Log WarnShowEpochConverging) else ret tt) ;;;
  l <~ get_locals ;;
  emit (Log HdrStartTrain) ;;;
  emit (Log (MsgTrainDataSize (shape0 env (l_input_train l)))) ;;;
  match input_test with
  | Some x => emit (Log (MsgValidationDataSize (shape0 env x)))
  | None => ret tt
  end ;;;
  emit (Log (match epsilon with
             | None => MsgTotalEpochs epochs
             | Some _ => MsgMaxEpochs epochs
             end)) ;;;
  emit (Log MsgEmpty) ;;;
  n <~ get_self ;;
  let shuffle_flag := shuffle_data n in
  held_out <~ match input_test, target_test with
              | Some x, Some y =>
                  match prediction_error cls with
                  | Some f => ret (Some (f, x, y))
                  | None => raise AttributeError
                  end
              | _, _ => ret None
              end ;;
  modify_self (with_train_data (Some (l_input_train l)) (l_target_train l)) ;;;
  for_epochs (Z.to_nat epochs) 1
             (match epsilon with
              | None => RangeIter
              | Some eps => ConvergeIter eps
              end)
             (epoch_body cls shuffle_flag held_out) ;;;
  after_loop cls.

(** The cadence the loop starts with and whether the warning is logged,
    lines 295-306. *)
Definition reporting_cadence (show_epoch : ShowEpoch) (epochs : Z)
           (epsilon : option Q) : Res (Z * bool) :=
  match epsilon with
  | Some _ =>
      match show_epoch with
      | SEStr _ => Ok (100, true)
      | SEInt k => Ok (k, false)
      end
  | None =>
      k <- parse_show_epoch_property show_epoch epochs ;; Ok (k, false)
  end.

(** [BaseNetwork._train], lines 256-385. *)
Definition _train (cls : NetworkClass) (input_train : Tensor)
           (target_train input_test target_test : option Tensor)
           (epochs : Z) (epsilon : option Q) (net : Network) (w : World)
  : Res unit * Network * World :=
  let (is_input_feature1d, is_target_feature1d) := is_feature1d cls net in
  let input_train := format_data env input_train is_input_feature1d in
  let target_train :=
    option_map (fun t => format_data env t is_target_feature1d) target_train in
  let input_test :=
    option_map (fun t => format_data env t is_input_feature1d) input_test in
  let target_test :=
    option_map (fun t => format_data env t is_target_feature1d) target_test in
  if match epsilon with Some _ => epochs <=? 2 | None => false end
  then (Raise ValueError, net, w)
  else
    match reporting_cadence (show_epoch net) epochs epsilon with
    | Raise exn => (Raise exn, net, w)
    | Ok (k, warn) =>
        let st0 :=
          mkState net w
                  (mkLocals input_train target_train k 0 None
                            (mkSummary NotStarted k None [])) in
        let (r, st) := train_run cls input_test target_test epochs epsilon warn st0 in
        (r, self st, world st)
    end.

(** *** Observations on traces *)

Definition is_train_epoch_call (e : Event) : bool :=
  match e with CallTrainEpoch _ => true | _ => false end.

Definition is_train_end_call (e : Event) : bool :=
  match e with CallTrainEndSignal _ => true | _ => false end.

Definition is_warning (e : Event) : bool :=
  match e with Log WarnShowEpochConverging => true | _ => false end.

Definition is_advisory (e : Event) : bool :=
  match e with TableMessage (MsgSetUpLogging _) => true | _ => false end.

(** What the progress table writes. *)
Definition is_table_event (e : Event) : bool :=
  match e with
  | TableStart | TableRow _ _ _ _ | TableLine | TableMessage _ | TableFinish
  | Log MsgEmpty => true
  | _ => false
  end.

(** What one pass of the loop body writes after the call of [train_epoch]. *)
Definition is_epoch_event (e : Event) : bool :=
  match e with
  | CallPredictionError _ | CallEpochEndSignal _ | Log (MsgEpochStopped _ _) => true
  | _ => is_table_event e
  end.

(** What a run writes besides the warning. *)
Definition is_run_event (e : Event) : bool :=
  match e with
  | Log WarnShowEpochConverging => false
  | _ => true
  end.

Definition count_events (f : Event -> bool) (t : list Event) : nat :=
  List.length (filter f t).

(** The snapshots of the object at the calls of [train_epoch]. *)
Definition train_calls (t : list Event) : list Network :=
  flat_map (fun e => match e with CallTrainEpoch n => [n] | _ => [] end) t.

(** A program only appends events, all of them in [f]. *)
Definition emits {A : Type} (f : Event -> bool) (p : Py A) : Prop :=
  forall st, exists evs,
    trace (world (snd (p st))) = trace (world st) ++ evs /\ forallb f evs = true.

(** The epoch numbers [e], [e + 1], ..., [k] of them. *)
Fixpoint epochs_from (e : Z) (k : nat) : list Z :=
  match k with
  | O => []
  | S k' => e :: epochs_from (e + 1) k'
  end.

(** What a run writes apart from the calls of [train_epoch]. *)
Definition is_quiet_event (e : Event) : bool := negb (is_train_epoch_call e).

(** A program calls [train_epoch] for the epochs [e], [e + 1], ... in this
    order, each time on an object whose epoch and class-owned part satisfy
    [Qobs] for that epoch. *)
Definition numbers_calls (Qobs : Z -> option Z -> M -> Prop) (e : Z)
           {A : Type} (p : Py A) : Prop :=
  forall st, exists evs k,
    trace (world (snd (p st))) = trace (world st) ++ evs /\
    Forall2 (fun ep snap => Qobs ep (epoch snap) (model snap))
            (epochs_from e k) (train_calls evs).

End Training.

Arguments is_train_epoch_call {Tensor M} e.
Arguments is_train_end_call {Tensor M} e.
Arguments is_warning {Tensor M} e.
Arguments is_advisory {Tensor M} e.
Arguments is_table_event {Tensor M} e.
Arguments is_epoch_event {Tensor M} e.
Arguments is_run_event {Tensor M} e.
Arguments is_quiet_event {Tensor M} e.
Arguments count_events {Tensor M} f t.
Arguments train_calls {Tensor M} t.
Arguments TableStart {Tensor M}.
Arguments TableRow {Tensor M} epoch train_err valid_err time.
Arguments TableLine {Tensor M}.
Arguments TableMessage {Tensor M} m.
Arguments TableFinish {Tensor M}.
Arguments Log {Tensor M} m.

(** ** Layers and connections *)

(** Shared variables of the graph: the step, the epoch counter and the
    parameters of the layers. *)
Inductive SharedVar : Type :=
| VarStep
| VarEpoch
| VarParam (layer index : nat).

Definition SharedVar_eqb (a b : SharedVar) : bool :=
  match a, b with
  | VarStep, VarStep => true
  | VarEpoch, VarEpoch => true
  | VarParam l i, VarParam l' i' => (l =? l')%nat && (i =? i')%nat
  | _, _ => false
  end.

(** A layer: its size, whether its class derives from [Output], and the
    shared variables it owns. *)
Record Layer : Type := mkLayer {
  layer_id : nat;
  size : Z;
  is_Output : bool;
  parameters : list SharedVar
}.

(** Modelled from the spec: [LayerConnection] (in [neupy/network/connections.py],
    not among the sources) is an ordered, non-empty sequence of layers whose
    last element is its output layer; [LayerConnection(left, right)] chains
    [left] before [right]. *)
Record LayerConnection : Type := mkConnection {
  conn_layers : list Layer
}.

(** The values [clean_layers] may receive as [connection]. *)
#[local] Unset Elimination Schemes.
Inductive PyValue : Type :=
| PyInt (n : Z)
| PyLayer (l : Layer)
| PyConnection (c : LayerConnection)
| PyList (xs : list PyValue)
| PyTuple (xs : list PyValue)
| PyOther.
#[local] Set Elimination Schemes.

Definition is_int (v : PyValue) : bool :=
  match v with PyInt _ => true | _ => false end.

Definition int_value (v : PyValue) : Z :=
  match v with PyInt n => n | _ => 0 end.

(** Modelled from the spec: [is_list_of_integers] (in [neupy/utils.py], not
    among the sources) holds of a sequence whose elements are all integers. *)
Definition is_list_of_integers (connection : PyValue) : Res bool :=
  match connection with
  | PyList xs | PyTuple xs => Ok (forallb is_int xs)
  | PyConnection _ => Ok false
  | _ => Raise TypeError
  end.

(** Modelled from the spec: [generate_layers] (in [neupy/layers/utils.py], not
    among the sources) turns a list of at least two positive integers into a
    chain of default-activation layers, one layer per integer, the last one an
    output layer; any other list is an invalid connection. *)
Definition generate_layers (sizes : list Z) : Res LayerConnection :=
  if (2 <=? List.length sizes)%nat && forallb (fun n => 0 <? n) sizes then
    Ok (mkConnection
          (map (fun p => mkLayer (fst p) (snd p) false
                                 [VarParam (fst p) 0; VarParam (fst p) 1])
               (combine (seq 0 (List.length sizes - 1)) (removelast sizes))
           ++ [mkLayer (List.length sizes - 1) (last sizes 0) true []]))
  else Raise NetworkConnectionError.

(** Modelled from the spec: the constructor [LayerConnection(left, right)],
    each side a layer or a connection. *)
Definition chain_layers (v : PyValue) : Res (list Layer) :=
  match v with
  | PyLayer l => Ok [l]
  | PyConnection c => Ok (conn_layers c)
  | _ => Raise TypeError
  end.

Definition new_LayerConnection (left right : PyValue) : Res PyValue :=
  ls <- chain_layers left ;;
  rs <- chain_layers right ;;
  Ok (PyConnection (mkConnection (ls ++ rs))).

(** [connection.output_layer]; modelled from the spec as the last layer of a
    connection, and as an attribute other values do not have. *)
Definition output_layer (connection : PyValue) : Res Layer :=
  match connection with
  | PyConnection c =>
      match conn_layers c with
      | [] => Raise AttributeError
      | l :: ls => Ok (last ls l)
      end
  | _ => Raise AttributeError
  end.

(** [for layer in reversed(connection): chain = LayerConnection(layer, chain)],
    lines 470-471, over the list already reversed. *)
Fixpoint chain_reversed (reversed_connection : list PyValue)
         (chain_connection : PyValue) : Res PyValue :=
  match reversed_connection with
  | [] => Ok chain_connection
  | layer :: rest =>
      c <- new_LayerConnection layer chain_connection ;;
      chain_reversed rest c
  end.

(** [clean_layers(connection)], lines 445-481. *)
Definition clean_layers (connection : PyValue) : Res PyValue :=
  ints <- is_list_of_integers connection ;;
  connection <- (if ints then
                   match connection with
                   | PyList xs | PyTuple xs =>
                       c <- generate_layers (map int_value xs) ;;
                       Ok (PyConnection c)
                   | other => Ok other
                   end
                 else Ok connection) ;;
  let connection :=
    match connection with PyTuple xs => PyList xs | other => other end in
  connection <- match connection with
                | PyList items =>
                    match items with
                    | [] => Raise IndexError
                    | PyLayer _ :: _ =>
                        chain_reversed (List.rev (removelast items)) (last items PyOther)
                    | _ => Ok connection
                    end
                | other => Ok other
                end ;;
  out <- output_layer connection ;;
  if is_Output out then Ok connection else Raise NetworkConnectionError.

(** ** The computation graph of [ConstructableNetwork] *)

Section Constructable.

Variable Tensor : Type.

(** What a shared variable holds. *)
Inductive Value : Type :=
| VNum (x : Num)
| VTensor (t : Tensor).

Definition Store : Type := SharedVar -> Value.

Definition set_value (s : Store) (v : SharedVar) (x : Value) : Store :=
  fun v' => if SharedVar_eqb v v' then x else s v'.

(** Symbolic expressions: constants, shared variables, the two arithmetic
    nodes the step rules use, and any other node of the graph, given by its
    value on the two inputs and the shared variables. *)
Inductive Expr : Type :=
| EConst (c : Q)
| EShared (v : SharedVar)
| EAdd (a b : Expr)
| EDiv (a b : Expr)
| EGraph (f : Tensor -> option Tensor -> Store -> Value).

Definition num_add (x y : Num) : Num :=
  match x, y with
  | Fin a, Fin b => Fin (a + b)
  | _, _ => NonFinite
  end.

Definition num_div (x y : Num) : Num :=
  match x, y with
  | Fin a, Fin b => if Qeq_bool b 0 then NonFinite else Fin (a / b)
  | _, _ => NonFinite
  end.

(** External: arithmetic with an array operand, the forward transform of
    a layer, the error metric, the shape policy of the endpoint layers and
    [format_data]; and the update rule of the training algorithm for one
    parameter of one layer ([ConstructableNetwork] itself contributes
    none). *)
Record GraphBackend : Type := mkGraphBackend {
  tensor_add : Value -> Value -> Value;
  tensor_div : Value -> Value -> Value;
  layer_output : Layer -> Store -> Tensor -> Tensor;
  error : option Tensor -> Tensor -> Num;
  is_layer_accept_1d_feature : Layer -> bool;
  graph_format_data : Tensor -> bool -> Tensor
}.

Variable backend : GraphBackend.

Definition value_add (x y : Value) : Value :=
  match x, y with
  | VNum a, VNum b => VNum (num_add a b)
  | _, _ => tensor_add backend x y
  end.

Definition value_div (x y : Value) : Value :=
  match x, y with
  | VNum a, VNum b => VNum (num_div a b)
  | _, _ => tensor_div backend x y
  end.

Fixpoint eval (e : Expr) (x : Tensor) (y : option Tensor) (s : Store) : Value :=
  match e with
  | EConst c => VNum (Fin c)
  | EShared v => s v
  | EAdd a b => value_add (eval a x y s) (eval b x y s)
  | EDiv a b => value_div (eval a x y s) (eval b x y s)
  | EGraph f => f x y s
  end.

Definition Updates : Type := list (SharedVar * Expr).

(** A compiled function: [theano.function(inputs, outputs, updates)]. *)
Record Function : Type := mkFunction {
  fn_outputs : Expr;
  fn_updates : Updates
}.

Fixpoint distinct (vs : list SharedVar) : bool :=
  match vs with
  | [] => true
  | v :: vs' => negb (existsb (SharedVar_eqb v) vs') && distinct vs'
  end.

(** Modelled from the spec: [theano.function] belongs to the Theano
    library, not to the sources.  Compilation keeps the output and the
    updates it is given and refuses two updates of one shared variable. *)
Definition theano_function (outputs : Expr) (updates : Updates) : Res Function :=
  if distinct (map fst updates) then Ok (mkFunction outputs updates)
  else Raise ValueError.

(** Modelled from the spec: a call of a compiled function evaluates the
    output and every update expression on the values the shared variables
    have at the call, then assigns them all. *)
Definition assign_all (news : list (SharedVar * Value)) (s : Store) : Store :=
  fold_left (fun s' p => set_value s' (fst p) (snd p)) news s.

Definition call_function (f : Function) (x : Tensor) (y : option Tensor)
           (s : Store) : Value * Store :=
  (eval (fn_outputs f) x y s,
   assign_all (map (fun p => (fst p, eval (snd p) x y s)) (fn_updates f)) s).

(** The graph-backed part of a [ConstructableNetwork] object. *)
Record Methods : Type := mkMethods {
  m_train_epoch : Function;
  m_prediction_error : Function;
  m_predict_raw : Function
}.

Record Graph : Type := mkGraph {
  connection : LayerConnection;
  layers : list Layer;
  train_layers : list Layer;
  step : Q;
  first_step : Q;
  epochs_step_minimizator : Z;
  shared : Store;
  error_func : Expr;
  prediction_func : Expr;
  methods : Methods
}.

Definition with_shared (s : Store) (g : Graph) : Graph :=
  mkGraph (connection g) (layers g) (train_layers g) (step g) (first_step g)
          (epochs_step_minimizator g) s (error_func g) (prediction_func g)
          (methods g).

(** [init_param_updates] as the training algorithm overrides it, with the
    two arguments [init_layer_updates] passes (the stub of line 618 takes
    the parameter only and returns no update). *)
Variable init_param_updates : Layer -> SharedVar -> Updates.

(** [init_layer_updates], lines 595-616. *)
Definition init_layer_updates (layer : Layer) : Updates :=
  flat_map (init_param_updates layer) (parameters layer).

(** [ConstructableNetwork.init_train_updates], lines 586-593. *)
Definition ConstructableNetwork_init_train_updates (train_layers : list Layer)
  : Updates :=
  flat_map init_layer_updates train_layers.

(** [SimpleStepMinimization.init_train_updates], lines 45-52 of
    [simple_step_minimization.py]; [/] is true division. *)
Definition new_step (first_step : Q) (epochs_step_minimizator : Z) : Expr :=
  EDiv (EConst first_step)
       (EAdd (EConst 1)
             (EDiv (EShared VarEpoch) (EConst (inject_Z epochs_step_minimizator)))).

Definition SimpleStepMinimization_init_train_updates
           (train_layers : list Layer) (first_step : Q)
           (epochs_step_minimizator : Z) : Updates :=
  let updates := ConstructableNetwork_init_train_updates train_layers in
  updates ++ [(VarStep, new_step first_step epochs_step_minimizator)].

(** The prediction expression of [init_variables], lines 543-546. *)
Definition prediction (train_layers : list Layer) (x : Tensor) (s : Store)
  : Tensor :=
  fold_left (fun layer_input layer => layer_output backend layer s layer_input)
            train_layers x.

(** [init_methods], lines 557-577, with the updates the class resolves. *)
Definition init_methods (error_func prediction_func : Expr) (updates : Updates)
  : Res Methods :=
  train <- theano_function error_func updates ;;
  prediction_error <- theano_function error_func [] ;;
  predict_raw <- theano_function prediction_func [] ;;
  Ok (mkMethods train prediction_error predict_raw).

(** The two classes of the sources that resolve [init_train_updates]. *)
Inductive Algorithm : Type :=
| PlainConstructable
| WithSimpleStepMinimization.

(** [ConstructableNetwork.__init__], lines 518-534, with [init_variables]
    inlined; [initial] holds the values [layer.initialize()] gives the
    parameters.  Modelled from the spec: [SingleStep] (not among the
    sources) keeps in [first_step] a copy of the [step] option taken at
    construction. *)
Definition ConstructableNetwork_init (algorithm : Algorithm)
           (connection : PyValue) (step : Q) (epochs_step_minimizator : Z)
           (initial : Store) : Res Graph :=
  cleaned <- clean_layers connection ;;
  match cleaned with
  | PyConnection c =>
      let layers := conn_layers c in
      let train_layers := removelast layers in
      let first_step := step in
      let s := set_value (set_value initial VarStep (VNum (Fin step)))
                         VarEpoch (VNum (Fin 1)) in
      let error_func :=
        EGraph (fun x y s => VNum (error backend y (prediction train_layers x s))) in
      let prediction_func :=
        EGraph (fun x y s => VTensor (prediction train_layers x s)) in
      let updates :=
        match algorithm with
        | PlainConstructable =>
            ConstructableNetwork_init_train_updates train_layers
        | WithSimpleStepMinimization =>
            SimpleStepMinimization_init_train_updates
              train_layers first_step epochs_step_minimizator
        end in
      m <- init_methods error_func prediction_func updates ;;
      Ok (mkGraph c layers train_layers step first_step
                  epochs_step_minimizator s error_func prediction_func m)
  | _ => Raise TypeError
  end.

(** *** The methods of [ConstructableNetwork] as a class of [_train] *)

Definition as_error (v : Value) : Res Num :=
  match v with
  | VNum x => Ok x
  | VTensor _ => Raise TypeError
  end.

(** [ConstructableNetwork.epoch_start_update], lines 641-651. *)
Definition ConstructableNetwork_epoch_start_update (e : Z)
           (n : Network Tensor Graph) : Network Tensor Graph :=
  let n' := BaseNetwork_epoch_start_update e n in
  with_model
    (with_shared (set_value (shared (model n')) VarEpoch (VNum (Fin (inject_Z e))))
                 (model n'))
    n'.

(** [ConstructableNetwork.train_epoch], lines 653-654. *)
Definition ConstructableNetwork_train_epoch (n : Network Tensor Graph)
           (input_train : Tensor) (target_train : option Tensor)
  : Res Num * Graph :=
  let g := model n in
  let (out, s) :=
    call_function (m_train_epoch (methods g)) input_train target_train (shared g) in
  (as_error out, with_shared s g).

(** [ConstructableNetwork.prediction_error], lines 621-625. *)
Definition ConstructableNetwork_prediction_error (n : Network Tensor Graph)
           (input_data target_data : Tensor) : Res Num * Graph :=
  let g := model n in
  let input_data := graph_format_data backend input_data true in
  let (out, s) :=
    call_function (m_prediction_error (methods g)) input_data
                  (Some target_data) (shared g) in
  (as_error out, with_shared s g).

(** [ConstructableNetwork.predict_raw], lines 627-631. *)
Definition ConstructableNetwork_predict_raw (g : Graph) (input_data : Tensor)
  : Value * Graph :=
  let input_data := graph_format_data backend input_data true in
  let (out, s) :=
    call_function (m_predict_raw (methods g)) input_data None (shared g) in
  (out, with_shared s g).

Definition ConstructableNetwork_class
           (epoch_end_signal train_end_signal :
              option (Network Tensor Graph -> Res unit * Graph))
  : NetworkClass Tensor Graph :=
  mkClass
    (fun n =>
       match layers (model n) with
       | [] => (true, true)
       | l :: ls => (is_layer_accept_1d_feature backend l,
                     is_layer_accept_1d_feature backend (last ls l))
       end)
    ConstructableNetwork_epoch_start_update
    ConstructableNetwork_train_epoch
    (Some ConstructableNetwork_prediction_error)
    epoch_end_signal train_end_signal.

End Constructable.

Arguments VNum {Tensor} x.
Arguments EConst {Tensor} c.
Arguments EShared {Tensor} v.
Arguments new_step {Tensor} first_step epochs_step_minimizator.

(** ** Small concrete instances *)

(** A clock that advances one second per reading. *)
Definition second_clock (i : nat) : Q := inject_Z (Z.of_nat i).

(** A clock that is set back between readings, a sixth of a second each
    time. *)
Definition backward_clock (i : nat) : Q := (100 - inject_Z (Z.of_nat i) / 6)%Q.

(** Collaborators over one-point arrays: no reshaping, no shuffling, never
    converged. *)
Definition unit_env (clock : nat -> Q) : Env unit unit :=
  mkEnv clock (fun t _ => t) (fun _ t => t) (fun _ => 4) (fun e => e)
        (fun _ _ => false).

(** A class whose [train_epoch] raises the stop signal at epoch [stop_at] and
    returns the error 1 otherwise, with a [train_end_signal] callback. *)
Definition stopping_class (stop_at : Z) : NetworkClass unit unit :=
  mkClass (fun _ => (true, true))
          (BaseNetwork_epoch_start_update (M:=unit))
          (fun n _ _ =>
             match epoch n with
             | Some e => if e =? stop_at
                         then (Raise (StopNetworkTraining "stop"), tt)
                         else (Ok (Fin 1), tt)
             | None => (Ok (Fin 1), tt)
             end)
          None None (Some (fun _ => (Ok tt, tt))).

Definition fresh_network (cadence : ShowEpoch) : Network unit unit :=
  mkNetwork cadence false [] [] None None None None tt.

Definition fresh_world : World unit unit := mkWorld 0 0 [].

(** The epochs of the rows of a trace. *)
Definition row_epochs {Tensor M : Type} (t : list (Event Tensor M)) : list Z :=
  flat_map (fun e => match e with TableRow k _ _ _ => [k] | _ => [] end) t.

(** The three forms of connection the builder accepts: a list or tuple of
    integers, a list or tuple of layers, a connection already chained. *)
Inductive ConnectionSpec : Type :=
| IntegerSpec (as_tuple : bool) (sizes : list Z)
| LayerSpec (as_tuple : bool) (layers : list Layer)
| ChainSpec (c : LayerConnection).

Definition as_sequence (as_tuple : bool) (xs : list PyValue) : PyValue :=
  if as_tuple then PyTuple xs else PyList xs.

Definition spec_value (sp : ConnectionSpec) : PyValue :=
  match sp with
  | IntegerSpec t sizes => as_sequence t (map PyInt sizes)
  | LayerSpec t layers => as_sequence t (map PyLayer layers)
  | ChainSpec c => PyConnection c
  end.

(** At least two positive integers, at least two layers, a non-empty chain. *)
Definition well_formed (sp : ConnectionSpec) : bool :=
  match sp with
  | IntegerSpec _ sizes =>
      (2 <=? List.length sizes)%nat && forallb (fun n => 0 <? n) sizes
  | LayerSpec _ layers => (2 <=? List.length layers)%nat
  | ChainSpec c => match conn_layers c with [] => false | _ => true end
  end.

(** A backend over one-point arrays and the update rule that leaves every
    parameter as it is. *)
Definition unit_backend : GraphBackend unit :=
  mkGraphBackend (fun v _ => v) (fun v _ => v) (fun _ _ t => t)
                 (fun _ _ => Fin 0) (fun _ => true) (fun t _ => t).

Definition keep_param_updates (l : Layer) (p : SharedVar) : Updates unit :=
  [(p, EShared p)].

Definition zero_store : Store unit := fun _ => VNum (Fin 0).

(** The intervals the advisory lines of a trace announce. *)
Definition advised_intervals {Tensor M : Type} (t : list (Event Tensor M)) : list Z :=
  flat_map (fun e => match e with
                     | TableMessage (MsgSetUpLogging k) => [k]
                     | _ => []
                     end) t.

(** A network at epoch 11 with the errors of its run, over one-point arrays. *)
Definition network_at (e : Z) : Network unit unit :=
  mkNetwork (SEInt 1) false [Fin 1] [] (Some 1%Q) (Some e) (Some tt) None tt.

(** ** Invariants of the generator used in the proofs *)

(** The generator has not ended and holds at most [b] gaps. *)
Definition short_buffer (b : nat) (g : Summary) : Prop :=
  status g <> Finished /\ (List.length (terminal_output_delays g) <= b)%nat.

(** The generator has not ended, its interval is positive, its gaps are
    positive, and the time of the previous row is a reading of the clock made
    before reading number [t]. *)
Definition sound_buffer (clock : nat -> Q) (t : nat) (g : Summary) : Prop :=
  status g <> Finished /\
  1 <= g_show_epoch g /\
  Forall (fun d => (0 < d)%Q) (terminal_output_delays g) /\
  forall p, prev_summary_time g = Some p -> exists i, (i < t)%nat /\ p = clock i.

(** The clock advances between any two readings. *)
Definition advancing (clock : nat -> Q) : Prop :=
  forall i, (clock i < clock (S i))%Q.

(** ** Invariants of the loop used in the proofs *)

(** Before the pass for epoch [e] of a run that started with [n0] training
    errors, the interval [K0] and the trace [t0]: one error was appended and
    one call of [train_epoch] made per earlier epoch, the interval is still
    [K0], the generator holds fewer gaps than epochs have passed, and the
    last row is of an earlier epoch. *)
Definition before_pass {Tensor M : Type} (n0 : nat) (K0 : Z)
           (t0 : list (Event Tensor M)) (e : Z) (st : State Tensor M) : Prop :=
  List.length (errors_in (self st)) = (n0 + Z.to_nat (e - 1))%nat /\
  l_show_epoch (locals st) = K0 /\
  g_show_epoch (epoch_summary (locals st)) = K0 /\
  short_buffer (Z.to_nat (e - 1)) (epoch_summary (locals st)) /\
  l_last_epoch_shown (locals st) < e /\
  exists evs,
    trace (world st) = t0 ++ evs /\
    count_events is_train_epoch_call evs = Z.to_nat (e - 1) /\
    count_events is_train_end_call evs = 0%nat.

(** Before the pass for epoch [e] of a run of a network with graph [g0],
    first step [fs] and period [p] that started with [n0] training errors:
    the graph is [g0] up to the values of its shared variables, the step is
    the one the rule gave it in the previous pass, the interval is positive
    and the generator sound. *)
Definition before_decay_pass {Tensor : Type} (clock : nat -> Q)
           (g0 : Graph Tensor) (fs : Q) (p : Z) (n0 : nat) (e : Z)
           (st : State Tensor (Graph Tensor)) : Prop :=
  (exists s, model (self st) = with_shared s g0 /\
             (1 < e -> s VarStep =
                       VNum (Fin (fs / (1 + inject_Z (e - 1) / inject_Z p))))) /\
  1 <= l_show_epoch (locals st) /\
  sound_buffer clock (ticks (world st)) (epoch_summary (locals st)) /\
  (1 < e -> l_epoch (locals st) = Some (e - 1) /\ epoch (self st) = Some (e - 1)) /\
  List.length (errors_in (self st)) = (n0 + Z.to_nat (e - 1))%nat.

(** Collaborators of a graph-backed network over one-point arrays. *)
Definition unit_graph_env (clock : nat -> Q) : Env unit (Graph unit) :=
  mkEnv clock (fun t _ => t) (fun _ t => t) (fun _ => 4) (fun e => e)
        (fun _ _ => false).

Definition graph_network (cadence : ShowEpoch) (g : Graph unit)
  : Network unit (Graph unit) :=
  mkNetwork cadence false [] [] None None None None g.

(** ** Further parts of the sources *)

(** The string form ["N time"] of a count [N], the spelling the comment of
    lines 154-155 of [parse_show_epoch_property] tolerates. *)
Definition time_string (N : positive) : string :=
  (NilEmpty.string_of_uint (Pos.to_uint N) ++ " time")%string.

Section Accessors.

Variables Tensor M : Type.
Variable env : Env Tensor M.

(** [previous_error], lines 397-400: [errors_in[-2]] when the list has more
    than two entries. *)
Definition previous_error (n : Network Tensor M) : option Num :=
  if (2 <? List.length (errors_in n))%nat
  then Some (normalize_error env
               (nth (List.length (errors_in n) - 2) (errors_in n) NonFinite))
  else None.

End Accessors.

(** The state the generator is in once it holds ten gaps whose mean is at
    least [delay_limit]: line 63 has dropped the time of the previous row. *)
Definition settled (g : Summary) : Prop :=
  status g = Suspended /\
  prev_summary_time g = None /\
  List.length (terminal_output_delays g) = delay_history_length /\
  Qle_bool delay_limit (mean (terminal_output_delays g)) = true.

(** ** Assertions on the states of [_train] *)

(** The protocol of the progress table ([table.TableDrawer]): it is started
    once, rows, lines and messages are written while it is open, and it is
    finished once. *)
Inductive TableState : Type := Idle | Open | Closed.

Section Assertions.

Variables Tensor M : Type.

(** A program started in a state of [P] ends in a state of [Q] when it
    returns and in a state of [E] when it raises. *)
Definition hoare {A : Type} (P : State Tensor M -> Prop) (p : Py Tensor M A)
           (Q : A -> State Tensor M -> Prop) (E : State Tensor M -> Prop)
  : Prop :=
  forall st, P st ->
             match p st with
             | (Ok a, st') => Q a st'
             | (Raise _, st') => E st'
             end.

(** [I] holds whenever the program ends, however it ends. *)
Definition keeps {A : Type} (I : State Tensor M -> Prop) (p : Py Tensor M A)
  : Prop :=
  hoare I p (fun _ => I) I.

Definition table_step (s : option TableState) (e : Event Tensor M)
  : option TableState :=
  match e with
  | TableStart =>
      match s with Some Idle => Some Open | _ => None end
  | TableRow _ _ _ _ | TableLine | TableMessage _ =>
      match s with Some Open => Some Open | _ => None end
  | TableFinish =>
      match s with Some Open => Some Closed | _ => None end
  | _ => s
  end.

(** Where the table is after the events [t], [None] when they break the
    protocol. *)
Definition table_state (t : list (Event Tensor M)) : option TableState :=
  fold_left table_step t (Some Idle).

(** The table is where the generator is: not started, open while the
    generator is suspended at its [yield], closed once it has ended; no row
    has been recorded as shown before the table is started, and the loop
    variable is at least 1. *)
Definition table_inv (t0 : list (Event Tensor M)) (st : State Tensor M) : Prop :=
  exists evs,
    trace (world st) = t0 ++ evs /\
    (forall e, l_epoch (locals st) = Some e -> 1 <= e) /\
    match status (epoch_summary (locals st)) with
    | NotStarted =>
        table_state evs = Some Idle /\ l_last_epoch_shown (locals st) = 0
    | Suspended => table_state evs = Some Open
    | Finished => table_state evs = Some Closed
    end.

(** The table is open or closed: a row has been rendered. *)
Definition table_started (t0 : list (Event Tensor M)) (st : State Tensor M)
  : Prop :=
  table_inv t0 st /\ status (epoch_summary (locals st)) <> NotStarted.

Definition table_closed (t0 : list (Event Tensor M)) (st : State Tensor M)
  : Prop :=
  exists evs, trace (world st) = t0 ++ evs /\ table_state evs = Some Closed.

Definition table_legal (t0 : list (Event Tensor M)) (st : State Tensor M)
  : Prop :=
  exists evs, trace (world st) = t0 ++ evs /\ table_state evs <> None.

End Assertions.

(** The error lists of the object since a run started with the lists [a]
    and [b]: entries were appended only, at most [k] training errors, and as
    many validation errors when held-out data is evaluated ([both]), none
    otherwise; [pending] holds between the two [append]s of lines 358 and
    360. *)
Definition grown {Tensor M : Type} (a b : list Num) (both : bool) (k : nat)
           (pending : bool) (st : State Tensor M) : Prop :=
  exists ins outs,
    errors_in (self st) = a ++ ins /\
    errors_out (self st) = b ++ outs /\
    (List.length ins <= k)%nat /\
    List.length outs = ((if both then List.length ins else 0)
                        + (if pending then 1 else 0))%nat.

(** Before the pass for epoch [e] of a run, on a clock that advances, that
    started with [n0] training errors and the trace [t0]: one error was
    appended and one call of [train_epoch] made per earlier epoch, the
    interval is positive, the generator is sound, the last row is of an
    earlier epoch, and the loop variable and the epoch of the object are
    those of the previous pass. *)
Definition before_run_pass {Tensor M : Type} (clock : nat -> Q) (n0 : nat)
           (t0 : list (Event Tensor M)) (e : Z) (st : State Tensor M) : Prop :=
  List.length (errors_in (self st)) = (n0 + Z.to_nat (e - 1))%nat /\
  1 <= l_show_epoch (locals st) /\
  sound_buffer clock (ticks (world st)) (epoch_summary (locals st)) /\
  l_last_epoch_shown (locals st) < e /\
  (1 < e -> l_epoch (locals st) = Some (e - 1) /\ epoch (self st) = Some (e - 1)) /\
  exists evs,
    trace (world st) = t0 ++ evs /\
    count_events is_train_epoch_call evs = Z.to_nat (e - 1) /\
    count_events is_train_end_call evs = 0%nat.

(** Between two passes of the loop: the loop variable, when bound, is at
    least 1 and is the epoch of the object, and the epoch recorded as last
    shown, when there is one, has a row in the table. *)
Definition rows_inv {Tensor M : Type} (t0 : list (Event Tensor M))
           (st : State Tensor M) : Prop :=
  exists evs,
    trace (world st) = t0 ++ evs /\
    (forall e, l_epoch (locals st) = Some e -> 1 <= e /\ epoch (self st) = Some e) /\
    (l_last_epoch_shown (locals st) = 0 \/
     In (l_last_epoch_shown (locals st)) (row_epochs evs)).

(** Inside the pass for epoch [e], after the epoch-start hook. *)
Definition pass_inv {Tensor M : Type} (t0 : list (Event Tensor M)) (e : Z)
           (st : State Tensor M) : Prop :=
  exists evs,
    trace (world st) = t0 ++ evs /\
    l_epoch (locals st) = Some e /\
    epoch (self st) = Some e /\
    (l_last_epoch_shown (locals st) = 0 \/
     In (l_last_epoch_shown (locals st)) (row_epochs evs)).

(** The epoch of the object is [e] and has a row in the table. *)
Definition row_shown {Tensor M : Type} (t0 : list (Event Tensor M)) (e : Z)
           (st : State Tensor M) : Prop :=
  exists evs,
    trace (world st) = t0 ++ evs /\
    epoch (self st) = Some e /\
    In e (row_epochs evs).

(** *** Counting the calls of the methods and callbacks *)

Definition is_prediction_call {Tensor M : Type} (e : Event Tensor M) : bool :=
  match e with CallPredictionError _ => true | _ => false end.

Definition is_epoch_end_call {Tensor M : Type} (e : Event Tensor M) : bool :=
  match e with CallEpochEndSignal _ => true | _ => false end.

(** What is written without calling a method or callback. *)
Definition is_plain_event {Tensor M : Type} (e : Event Tensor M) : bool :=
  match e with
  | CallTrainEpoch _ | CallPredictionError _ | CallEpochEndSignal _
  | CallTrainEndSignal _ => false
  | _ => true
  end.

(** Since the trace [t0]: at most [k] calls of [train_epoch]; the calls of
    [prediction_error] and of [epoch_end_signal] are at most as many, fewer
    by [dp] and [de] while those of the current pass are still to come; and
    [te] calls of [train_end_signal]. *)
Definition calls_inv {Tensor M : Type} (t0 : list (Event Tensor M))
           (k dp de te : nat) (st : State Tensor M) : Prop :=
  exists evs,
    trace (world st) = t0 ++ evs /\
    (count_events is_train_epoch_call evs <= k)%nat /\
    (count_events is_prediction_call evs + dp
     <= count_events is_train_epoch_call evs)%nat /\
    (count_events is_epoch_end_call evs + de
     <= count_events is_train_epoch_call evs)%nat /\
    count_events is_train_end_call evs = te.

(** [compute_error_out], line 291: both test arrays are given. *)
Definition compute_error_out {A : Type} (input_test target_test : option A) : bool :=
  match input_test with
  | Some _ => match target_test with Some _ => true | None => false end
  | None => false
  end.

Definition is_held_out {Tensor M : Type} (held_out : HeldOut Tensor M) : bool :=
  match held_out with Some _ => true | None => false end.

(** A class whose [train_epoch] raises an exception that is not the stop
    signal at epoch [fail_at] and returns the error 1 otherwise. *)
Definition failing_class (fail_at : Z) : NetworkClass unit unit :=
  mkClass (fun _ => (true, true))
          (BaseNetwork_epoch_start_update (M:=unit))
          (fun n _ _ =>
             match epoch n with
             | Some e => if e =? fail_at
                         then (Raise (OtherError 0), tt)
                         else (Ok (Fin 1), tt)
             | None => (Ok (Fin 1), tt)
             end)
          None None (Some (fun _ => (Ok tt, tt))).

(** A class like [stopping_class] that also defines [prediction_error],
    returning the error 2. *)
Definition validating_class (stop_at : Z) : NetworkClass unit unit :=
  mkClass (fun _ => (true, true))
          (BaseNetwork_epoch_start_update (M:=unit))
          (train_epoch (stopping_class stop_at))
          (Some (fun _ _ _ => (Ok (Fin 2), tt)))
          None (Some (fun _ => (Ok tt, tt))).

(** [init_train_updates] as the class of the object resolves it: the base
    composer of [ConstructableNetwork], or the override of
    [SimpleStepMinimization]. *)
Definition init_train_updates {Tensor : Type}
           (init_param_updates : Layer -> SharedVar -> Updates Tensor)
           (algorithm : Algorithm) (g : Graph Tensor) : Updates Tensor :=
  match algorithm with
  | PlainConstructable =>
      ConstructableNetwork_init_train_updates init_param_updates (train_layers g)
  | WithSimpleStepMinimization =>
      SimpleStepMinimization_init_train_updates
        init_param_updates (train_layers g) (first_step g)
        (epochs_step_minimizator g)
  end.

(** An update rule under which the first two parameters of a layer exchange
    their values: each update reads the other parameter. *)
Definition swap_param_updates (l : Layer) (p : SharedVar) : Updates unit :=
  match p with
  | VarParam layer 0 => [(p, EShared (VarParam layer 1))]
  | VarParam layer _ => [(p, EShared (VarParam layer 0))]
  | _ => []
  end.

(** A store in which the two parameters of layer 0 hold 1 and 2 and the
    epoch scalar holds 100. *)
Definition sample_store : Store unit :=
  set_value (set_value (set_value zero_store (VarParam 0 0) (VNum (Fin 1)))
                       (VarParam 0 1) (VNum (Fin 2)))
            VarEpoch (VNum (Fin 100)).

(** The compiled train-epoch function of a graph returns a number. *)
Definition returns_error {Tensor : Type} (backend : GraphBackend Tensor)
           (g : Graph Tensor) : Prop :=
  forall x y s, exists err,
      eval backend (fn_outputs (m_train_epoch (methods g))) x y s = VNum err.

(** A clock that stands still. *)
Definition frozen_clock (i : nat) : Q := 100.

(** * Properties *)

(** ** The cadence parser *)

Section Cadence.

Open Scope string_scope.

Lemma is_digit_cases c :
  is_digit c = true ->
  In c ["0"; "1"; "2"; "3"; "4"; "5"; "6"; "7"; "8"; "9"]%char.
Proof.
  unfold is_digit. rewrite existsb_exists.
  intros [d [Hin Heq]]. apply Ascii.eqb_eq in Heq. now subst.
Qed.

Ltac digit_cases H :=
  apply is_digit_cases in H; simpl in H;
  repeat (destruct H as [H | H]; [subst | ]); try contradiction.

Lemma string_of_uint_digits d : all_digits (NilEmpty.string_of_uint d) = true.
Proof. induction d; simpl; auto. Qed.

Lemma string_of_uint_nonempty d :
  d <> Nil -> NilEmpty.string_of_uint d <> EmptyString.
Proof. destruct d; simpl; congruence. Qed.

Lemma str_index_digits s rest :
  all_digits s = true ->
  str_index "time" (s ++ String " " ("time" ++ rest)) = Ok (S (String.length s)).
Proof.
  induction s as [| c s IH]; intros H.
  - reflexivity.
  - simpl in H. apply andb_prop in H. destruct H as [Hc Hs].
    specialize (IH Hs).
    change ((String c s ++ String " " ("time" ++ rest)))
      with (String c (s ++ String " " ("time" ++ rest))).
    cbn [str_index String.length]. rewrite IH.
    digit_cases Hc; reflexivity.
Qed.

Lemma str_take_app s rest :
  str_take (S (String.length s)) (s ++ String " " rest) = s ++ " ".
Proof.
  induction s as [| c s IH]; simpl.
  - now destruct rest.
  - simpl in IH. now rewrite IH.
Qed.

Lemma lstrip_digits c s :
  all_digits (String c s) = true ->
  lstrip (String c s ++ " ") = String c s ++ " ".
Proof.
  simpl. intros H. apply andb_prop in H. destruct H as [Hc _].
  digit_cases Hc; reflexivity.
Qed.

Lemma rstrip_digits s : all_digits s = true -> rstrip (s ++ " ") = s.
Proof.
  induction s as [| c s IH]; intros H; [reflexivity |].
  simpl in H. apply andb_prop in H. destruct H as [Hc Hs].
  cbn [append rstrip]. rewrite (IH Hs).
  destruct s; digit_cases Hc; reflexivity.
Qed.

Lemma strip_digits s : all_digits s = true -> strip (s ++ " ") = s.
Proof.
  intros H. unfold strip. destruct s as [| c s]; [reflexivity |].
  rewrite (lstrip_digits _ _ H). now apply rstrip_digits.
Qed.

Lemma py_int_decimal (N : positive) :
  py_int (NilEmpty.string_of_uint (Pos.to_uint N)) = Ok (Zpos N).
Proof.
  pose proof (string_of_uint_digits (Pos.to_uint N)) as Hd.
  pose proof (string_of_uint_nonempty (Unsigned.to_uint_nonnil N)) as Hne.
  assert (Hu : py_int_unsigned (NilEmpty.string_of_uint (Pos.to_uint N))
               = Ok (Zpos N)).
  { unfold py_int_unsigned.
    destruct (NilEmpty.string_of_uint (Pos.to_uint N)) eqn:E; [congruence |].
    rewrite <- E, NilEmpty.usu. unfold Z.of_uint.
    now rewrite Unsigned.of_to. }
  destruct (NilEmpty.string_of_uint (Pos.to_uint N)) as [| c s] eqn:E;
    [congruence |].
  simpl in Hd. apply andb_prop in Hd. destruct Hd as [Hc _].
  unfold py_int. digit_cases Hc; exact Hu.
Qed.

Lemma parse_times_string (N : positive) (total_epochs : Z) :
  parse_show_epoch_property (SEStr (times_string N)) total_epochs =
  if (total_epochs <=? Zpos N)%Z then Ok 1%Z
  else Ok (py_round (binary64 (inject_Z total_epochs / inject_Z (Zpos N)))).
Proof.
  unfold parse_show_epoch_property, times_string.
  pose proof (string_of_uint_digits (Pos.to_uint N)) as Hd.
  change " times" with (String " " ("time" ++ "s")).
  rewrite (str_index_digits _ "s" Hd). cbn [bind].
  rewrite str_take_app, (strip_digits _ Hd), py_int_decimal. cbn [bind].
  destruct (total_epochs <=? Zpos N)%Z; reflexivity.
Qed.

End Cadence.

(** Python's [round] returns an integer nearest to its argument. *)
Lemma py_round_nearest (x : Q) :
  (Qabs (inject_Z (py_round x) - x) <= 1 # 2)%Q.
Proof.
  unfold py_round.
  pose proof (Qfloor_le x) as Hlo. pose proof (Qlt_floor x) as Hhi.
  set (f := Qfloor x) in *. clearbody f.
  rewrite inject_Z_plus in Hhi. change (inject_Z 1) with 1%Q in *.
  destruct ((x - inject_Z f) ?= (1 # 2))%Q eqn:E.
  - apply Qeq_alt in E.
    destruct (Z.even f); [| rewrite inject_Z_plus; change (inject_Z 1) with 1%Q];
      apply Qabs_Qle_condition; split; simpl; lra.
  - apply Qlt_alt in E. apply Qabs_Qle_condition; split; simpl; lra.
  - apply Qgt_alt in E. rewrite inject_Z_plus. change (inject_Z 1) with 1%Q.
    apply Qabs_Qle_condition; split; simpl; lra.
Qed.


Lemma py_round_ge (x : Q) (n : Z) : (inject_Z n <= x)%Q -> n <= py_round x.
Proof.
  intros Hx. pose proof (py_round_nearest x) as Hr.
  apply Qabs_Qle_condition in Hr. destruct Hr as [Hr _].
  assert (H : (inject_Z n < inject_Z (py_round x + 1))%Q).
  { rewrite inject_Z_plus. change (inject_Z 1) with 1%Q. lra. }
  rewrite <- Zlt_Qlt in H. lia.
Qed.

(** An integer less than one half away is the one [round] returns. *)
Lemma py_round_unique (x : Q) (k : Z) :
  (inject_Z k - (1 # 2) < x)%Q -> (x < inject_Z k + (1 # 2))%Q -> py_round x = k.
Proof.
  intros Hlo Hhi. pose proof (py_round_nearest x) as Hr.
  apply Qabs_Qle_condition in Hr. destruct Hr as [Hr1 Hr2].
  assert (H1 : (inject_Z (py_round x) < inject_Z (k + 1))%Q).
  { rewrite inject_Z_plus. change (inject_Z 1) with 1%Q. lra. }
  assert (H2 : (inject_Z k < inject_Z (py_round x + 1))%Q).
  { rewrite inject_Z_plus. change (inject_Z 1) with 1%Q. lra. }
  rewrite <- Zlt_Qlt in H1, H2. lia.
Qed.

Lemma py_round_comp (x y : Q) : x == y -> py_round x = py_round y.
Proof.
  intros H. unfold py_round. rewrite (Qfloor_comp _ _ H).
  assert (E : ((x - inject_Z (Qfloor y)) ?= (1 # 2))%Q
              = ((y - inject_Z (Qfloor y)) ?= (1 # 2))%Q).
  { apply Qcompare_comp; [now rewrite H | reflexivity]. }
  now rewrite E.
Qed.

Lemma py_round_inject (z : Z) : py_round (inject_Z z) = z.
Proof. apply py_round_unique; lra. Qed.

(** *** Rounding to binary64 *)

Lemma two_power_inject (z : Z) : 0 <= z -> (2 ^ z == inject_Z (2 ^ z))%Q.
Proof. intros H. symmetry. exact (Zpower_Qpower 2 z H). Qed.

Lemma two_power_pos (z : Z) : (0 < 2 ^ z)%Q.
Proof. apply Qpower_0_lt. reflexivity. Qed.

Lemma two_power_inverse (z : Z) : (2 ^ (- z) * 2 ^ z == 1)%Q.
Proof.
  rewrite <- Qpower_plus by discriminate.
  replace (- z + z) with 0 by lia. reflexivity.
Qed.

Lemma Qnum_positive (q : Q) : (0 < q)%Q -> 0 < Qnum q.
Proof. destruct q as [a b]. unfold Qlt. simpl. lia. Qed.

(** The leading bit is not above the number. *)
Lemma leading_bit_le (q : Q) : (0 < q)%Q -> (2 ^ leading_bit q <= q)%Q.
Proof.
  intros Hq. unfold leading_bit.
  destruct (Qle_bool _ q) eqn:E; [now apply Qle_bool_iff |]. clear E.
  pose proof (Qnum_positive Hq) as Ha. destruct q as [a b]. cbn [Qnum Qden] in *.
  pose proof (Z.log2_spec a Ha) as [Hla _].
  pose proof (Z.log2_spec (Zpos b) eq_refl) as [_ Hlb].
  pose proof (Z.log2_nonneg a) as Hna.
  pose proof (Z.log2_nonneg (Zpos b)) as Hnb.
  set (la := Z.log2 a) in *. set (lb := Z.log2 (Zpos b)) in *.
  replace (la - lb - 1) with (la - Z.succ lb) by lia.
  rewrite Qpower_minus by discriminate.
  rewrite (two_power_inject Hna), (two_power_inject (z := Z.succ lb)) by lia.
  apply Qle_shift_div_r.
  - change 0%Q with (inject_Z 0). rewrite <- Zlt_Qlt. lia.
  - unfold Qle. simpl. rewrite Pos2Z.inj_mul. nia.
Qed.

Lemma binary64_positive (q : Q) : (0 < q)%Q -> binary64 q = round53 q.
Proof.
  intros Hq. apply Qnum_positive in Hq. unfold binary64.
  destruct (Qnum q); [lia | reflexivity | lia].
Qed.

(** Rounding to 53 bits does not cross 1. *)
Lemma round53_ge_1 (q : Q) : (1 <= q)%Q -> (1 <= round53 q)%Q.
Proof.
  intros Hq. unfold round53. set (e := leading_bit q - 52).
  pose proof (two_power_pos (- e)) as Hs.
  destruct (Z_le_gt_dec e 0) as [He | He].
  - assert (Hm : 2 ^ (- e) <= py_round (q * 2 ^ (- e))).
    { apply py_round_ge. rewrite <- two_power_inject by lia.
      rewrite <- (Qmult_1_l (2 ^ (- e))) at 1.
      apply Qmult_le_compat_r; [exact Hq | now apply Qlt_le_weak]. }
    rewrite Zle_Qle, <- two_power_inject in Hm by lia.
    rewrite <- (two_power_inverse e).
    apply Qmult_le_compat_r; [exact Hm |].
    apply Qlt_le_weak, two_power_pos.
  - assert (Hb : (2 ^ leading_bit q <= q)%Q) by (apply leading_bit_le; lra).
    assert (Hm : 2 ^ 52 <= py_round (q * 2 ^ (- e))).
    { apply py_round_ge. rewrite <- two_power_inject by lia.
      replace 52 with (leading_bit q + - e) by lia.
      rewrite Qpower_plus by discriminate.
      apply Qmult_le_compat_r; [exact Hb | now apply Qlt_le_weak]. }
    assert (H1 : (1 <= inject_Z (py_round (q * 2 ^ (- e))))%Q).
    { change 1%Q with (inject_Z 1). rewrite <- Zle_Qle. lia. }
    assert (H2 : (1 <= 2 ^ e)%Q) by (apply Qpower_1_le; [lra | lia]).
    nra.
Qed.

(** [round] of a fraction of integers, in terms of integers. *)
Lemma py_round_frac_unique (a b j : Z) :
  0 < b -> 2 * j * b - b < 2 * a -> 2 * a < 2 * j * b + b ->
  py_round (inject_Z a / inject_Z b) = j.
Proof.
  intros Hb Hlo Hhi.
  assert (HB : (0 < inject_Z b)%Q).
  { change 0%Q with (inject_Z 0). now rewrite <- Zlt_Qlt. }
  assert (Hlo' : 2 * j * b < 2 * a + b) by lia. clear Hlo.
  rewrite Zlt_Qlt in Hlo', Hhi.
  rewrite ?inject_Z_plus, ?inject_Z_mult in Hlo', Hhi.
  change (inject_Z 2) with 2%Q in *.
  apply py_round_unique.
  - apply Qlt_shift_div_l; [exact HB | lra].
  - apply Qlt_shift_div_r; [exact HB | lra].
Qed.

Lemma py_round_frac_bounds (a b : Z) :
  0 < b ->
  2 * a - b <= 2 * py_round (inject_Z a / inject_Z b) * b <= 2 * a + b.
Proof.
  intros Hb.
  assert (HB : (0 < inject_Z b)%Q).
  { change 0%Q with (inject_Z 0). now rewrite <- Zlt_Qlt. }
  pose proof (py_round_nearest (inject_Z a / inject_Z b)) as Hr.
  apply Qabs_Qle_condition in Hr. destruct Hr as [H1 H2].
  set (m := py_round (inject_Z a / inject_Z b)) in *.
  assert (E : (inject_Z a / inject_Z b * inject_Z b == inject_Z a)%Q).
  { field. lra. }
  assert (G1 : ((inject_Z m - inject_Z a / inject_Z b) * inject_Z b
                <= (1 # 2) * inject_Z b)%Q).
  { apply Qmult_le_compat_r; [exact H2 | lra]. }
  assert (G2 : ((- (1 # 2)) * inject_Z b
                <= (inject_Z m - inject_Z a / inject_Z b) * inject_Z b)%Q).
  { apply Qmult_le_compat_r; [exact H1 | lra]. }
  assert (G : 2 * a <= 2 * m * b + b /\ 2 * m * b <= 2 * a + b); [| lia].
  split; rewrite Zle_Qle;
    rewrite ?inject_Z_plus, ?inject_Z_mult;
    change (inject_Z 2) with 2%Q; lra.
Qed.

Lemma Qdiv_inject_eq (a b c d : Z) :
  0 < b -> 0 < d -> a * d = c * b ->
  (inject_Z a / inject_Z b == inject_Z c / inject_Z d)%Q.
Proof.
  intros Hb Hd H.
  assert (HB : (0 < inject_Z b)%Q).
  { change 0%Q with (inject_Z 0). now rewrite <- Zlt_Qlt. }
  assert (HD : (0 < inject_Z d)%Q).
  { change 0%Q with (inject_Z 0). now rewrite <- Zlt_Qlt. }
  assert (E : (inject_Z a * inject_Z d == inject_Z c * inject_Z b)%Q).
  { rewrite <- !inject_Z_mult. now rewrite H. }
  apply (Qmult_inj_r _ _ (inject_Z b * inject_Z d)); [nra |].
  transitivity (inject_Z a * inject_Z d)%Q; [field; lra |].
  rewrite E. field. lra.
Qed.

(** Below [2^52] the quotient of two positive integers and its binary64
    rounding round to the same integer. *)
Lemma round53_exact (n N : Z) :
  0 < N -> N < n -> n < 2 ^ 52 ->
  py_round (round53 (inject_Z n / inject_Z N)) =
  py_round (inject_Z n / inject_Z N).
Proof.
  intros HN Hn Hlt.
  assert (HNq : (0 < inject_Z N)%Q).
  { change 0%Q with (inject_Z 0). now rewrite <- Zlt_Qlt. }
  set (q := (inject_Z n / inject_Z N)%Q).
  assert (Hq1 : (1 <= q)%Q).
  { apply Qle_shift_div_l; [exact HNq |]. rewrite Qmult_1_l, <- Zle_Qle. lia. }
  assert (Hq2 : (q < 2 ^ 52)%Q).
  { apply Qlt_shift_div_r; [exact HNq |].
    rewrite (two_power_inject (z := 52)), <- inject_Z_mult, <- Zlt_Qlt by lia. nia. }
  assert (Hb : (2 ^ leading_bit q <= q)%Q) by (apply leading_bit_le; lra).
  assert (Hl : leading_bit q < 52).
  { apply (Qpower_lt_compat_l_inv 2); [| reflexivity].
    eapply Qle_lt_trans; [exact Hb | exact Hq2]. }
  unfold round53. set (e := leading_bit q - 52).
  set (S := 2 ^ (- e)).
  assert (HS : (2 ^ (- e) == inject_Z S)%Q) by (apply two_power_inject; lia).
  assert (HS' : (2 ^ e == / inject_Z S)%Q).
  { rewrite <- HS. replace e with (- (- e)) at 1 by lia. apply Qpower_opp. }
  assert (HSpos : 0 < S) by (apply Z.pow_pos_nonneg; lia).
  assert (Heven : exists S', S = 2 * S').
  { exists (2 ^ (- e - 1)). unfold S.
    replace (- e) with (Z.succ (- e - 1)) at 1 by lia.
    apply Z.pow_succ_r. lia. }
  destruct Heven as [S' HS2].
  (* the significand *)
  assert (Hx : (q * 2 ^ (- e) == inject_Z (n * S) / inject_Z N)%Q).
  { rewrite HS, inject_Z_mult. unfold q. field. lra. }
  rewrite (py_round_comp Hx).
  pose proof (py_round_frac_bounds (n * S) HN) as Hm.
  set (m := py_round (inject_Z (n * S) / inject_Z N)) in *.
  assert (Hr : (inject_Z m * 2 ^ e == inject_Z m / inject_Z S)%Q).
  { rewrite HS'. reflexivity. }
  rewrite (py_round_comp Hr).
  (* the interval is longer than the denominator *)
  assert (Hbig : 2 ^ 52 * N <= n * S).
  { assert (H : (2 ^ 52 <= q * 2 ^ (- e))%Q).
    { replace 52 with (leading_bit q + - e) at 1 by lia.
      rewrite Qpower_plus by discriminate.
      apply Qmult_le_compat_r; [exact Hb | apply Qlt_le_weak, two_power_pos]. }
    rewrite Hx, (two_power_inject (z := 52)) in H by lia.
    assert (H' : (inject_Z (2 ^ 52) * inject_Z N
                  <= inject_Z (n * S) / inject_Z N * inject_Z N)%Q).
    { apply Qmult_le_compat_r; [exact H | lra]. }
    assert (E : (inject_Z (n * S) / inject_Z N * inject_Z N == inject_Z (n * S))%Q).
    { field. lra. }
    rewrite E, <- inject_Z_mult, <- Zle_Qle in H'. exact H'. }
  assert (HSN : N < S) by nia.
  (* quotient and remainder *)
  pose proof (Z.div_mod n N ltac:(lia)) as Hdm.
  pose proof (Z.mod_pos_bound n N HN) as Hrem.
  set (k := n / N) in *. set (r := n mod N) in *.
  destruct (Z.compare_spec (2 * r) N) as [Heq | Hlow | Hhigh].
  - (* a tie is a float *)
    assert (Em : m = k * S + S' * 1).
    { apply py_round_frac_unique; [exact HN | nia | nia]. }
    apply py_round_comp. apply Qdiv_inject_eq; [lia | lia | nia].
  - transitivity k.
    + apply py_round_frac_unique; [exact HSpos | nia | nia].
    + symmetry. apply py_round_frac_unique; [exact HN | nia | nia].
  - transitivity (k + 1).
    + apply py_round_frac_unique; [exact HSpos | nia | nia].
    + symmetry. apply py_round_frac_unique; [exact HN | nia | nia].
Qed.


(** ** The monad of [_train]: stepping and traces *)

Section MonadFacts.

Variables Tensor M : Type.
Variable env : Env Tensor M.

#[local] Abbreviation State := (State Tensor M).
#[local] Abbreviation Py := (Py Tensor M).
#[local] Abbreviation Event := (Event Tensor M).

Lemma pbind_eq {A B} (p : Py A) (k : A -> Py B) (st : State) :
  pbind p k st = match p st with
                 | (Ok a, st') => k a st'
                 | (Raise e, st') => (Raise e, st')
                 end.
Proof. reflexivity. Qed.

Lemma run_ret {A B} (a : A) (k : A -> Py B) st : pbind (ret a) k st = k a st.
Proof. reflexivity. Qed.

Lemma run_raise {A B} (e : Exn) (k : A -> Py B) st :
  pbind (raise e) k st = (Raise e, st).
Proof. reflexivity. Qed.

Lemma run_get_self {B} (k : _ -> Py B) st : pbind (get_self (M:=M)) k st = k (self st) st.
Proof. reflexivity. Qed.

Lemma run_get_locals {B} (k : _ -> Py B) st :
  pbind (get_locals (M:=M)) k st = k (locals st) st.
Proof. reflexivity. Qed.

Lemma run_modify_self {B} f (k : unit -> Py B) st :
  pbind (modify_self f) k st = k tt (mkState (f (self st)) (world st) (locals st)).
Proof. reflexivity. Qed.

Lemma run_modify_locals {B} f (k : unit -> Py B) st :
  pbind (modify_locals f) k st = k tt (mkState (self st) (world st) (f (locals st))).
Proof. reflexivity. Qed.

Lemma run_emit {B} (e : Event) (k : unit -> Py B) st :
  pbind (emit e) k st =
  k tt (mkState (self st)
                (mkWorld (ticks (world st)) (rng (world st))
                         (trace (world st) ++ [e]))
                (locals st)).
Proof. reflexivity. Qed.

Lemma run_now {B} (k : Q -> Py B) st :
  pbind (now env) k st =
  k (clock env (ticks (world st)))
    (mkState (self st)
             (mkWorld (S (ticks (world st))) (rng (world st)) (trace (world st)))
             (locals st)).
Proof. reflexivity. Qed.

Lemma run_draw {B} (k : nat -> Py B) st :
  pbind (draw (M:=M)) k st =
  k (rng (world st))
    (mkState (self st)
             (mkWorld (ticks (world st)) (S (rng (world st))) (trace (world st)))
             (locals st)).
Proof. reflexivity. Qed.

Lemma run_call {A B} (f : Network Tensor M -> Res A * M) (k : A -> Py B) st :
  pbind (call f) k st =
  match fst (f (self st)) with
  | Ok a => k a (mkState (with_model (snd (f (self st))) (self st))
                         (world st) (locals st))
  | Raise e => (Raise e, mkState (with_model (snd (f (self st))) (self st))
                                 (world st) (locals st))
  end.
Proof. unfold pbind, call. destruct (f (self st)) as [[a | e] m]; reflexivity. Qed.

Lemma pbind_assoc {A B C} (p : Py A) (k : A -> Py B) (h : B -> Py C) st :
  pbind (pbind p k) h st = pbind p (fun a => pbind (k a) h) st.
Proof.
  unfold pbind. destruct (p st) as [[a | e] st']; reflexivity.
Qed.

(** *** Programs only append to the trace *)

Lemma emits_ret {A} f (a : A) : emits f (ret (Tensor:=Tensor) (M:=M) a).
Proof. intros st. exists []. simpl. now rewrite app_nil_r. Qed.

Lemma emits_raise {A} f e : emits f (raise (Tensor:=Tensor) (M:=M) (A:=A) e).
Proof. intros st. exists []. simpl. now rewrite app_nil_r. Qed.

Lemma emits_bind {A B} f (p : Py A) (k : A -> Py B) :
  emits f p -> (forall a, emits f (k a)) -> emits f (pbind p k).
Proof.
  intros Hp Hk st. unfold pbind.
  destruct (Hp st) as [evs [Ht Hf]].
  destruct (p st) as [[a | e] st']; simpl in Ht.
  - destruct (Hk a st') as [evs' [Ht' Hf']].
    exists (evs ++ evs'). split.
    + now rewrite Ht', Ht, app_assoc.
    + now rewrite forallb_app, Hf, Hf'.
  - exists evs. simpl. auto.
Qed.

Lemma emits_emit f (e : Event) : f e = true -> emits f (emit e).
Proof. intros H st. exists [e]. simpl. now rewrite H. Qed.

Lemma emits_emit_all f (es : list Event) :
  forallb f es = true -> emits f (emit_all es).
Proof. intros H st. exists es. simpl. auto. Qed.

Lemma run_emit_all {B} (es : list Event) (k : unit -> Py B) st :
  pbind (emit_all es) k st =
  k tt (mkState (self st)
                (mkWorld (ticks (world st)) (rng (world st))
                         (trace (world st) ++ es))
                (locals st)).
Proof. reflexivity. Qed.

Lemma emits_silent {A} f (p : Py A) :
  (forall st, trace (world (snd (p st))) = trace (world st)) -> emits f p.
Proof. intros H st. exists []. rewrite H. now rewrite app_nil_r. Qed.

Lemma emits_get_self f : emits f (get_self (Tensor:=Tensor) (M:=M)).
Proof. now apply emits_silent. Qed.

Lemma emits_get_locals f : emits f (get_locals (Tensor:=Tensor) (M:=M)).
Proof. now apply emits_silent. Qed.

Lemma emits_modify_self f g : emits f (modify_self (Tensor:=Tensor) (M:=M) g).
Proof. now apply emits_silent. Qed.

Lemma emits_modify_locals f g : emits f (modify_locals (Tensor:=Tensor) (M:=M) g).
Proof. now apply emits_silent. Qed.

Lemma emits_now f : emits f (now env).
Proof. now apply emits_silent. Qed.

Lemma emits_draw f : emits f (draw (Tensor:=Tensor) (M:=M)).
Proof. now apply emits_silent. Qed.

Lemma emits_call {A} f (g : Network Tensor M -> Res A * M) : emits f (call g).
Proof.
  apply emits_silent. intros st. unfold call. now destruct (g (self st)).
Qed.

Lemma emits_weaken {A} (f g : Event -> bool) (p : Py A) :
  (forall e, f e = true -> g e = true) -> emits f p -> emits g p.
Proof.
  intros Hfg Hp st. destruct (Hp st) as [evs [Ht Hf]].
  exists evs. split; [exact Ht |].
  rewrite forallb_forall in *. auto.
Qed.

End MonadFacts.

(** ** What the pieces of [_train] write *)

Ltac emits_step :=
  match goal with
  | |- emits _ (pbind _ _) => apply emits_bind; [| intros]
  | |- emits _ (ret _) => apply emits_ret
  | |- emits _ (raise _) => apply emits_raise
  | |- emits _ (emit _) =>
      apply emits_emit;
      first [ reflexivity
            | match goal with
              | |- context [match ?x with _ => _ end] => destruct x; reflexivity
              end ]
  | |- emits _ (get_self (M:=_)) => apply emits_get_self
  | |- emits _ (get_locals (M:=_)) => apply emits_get_locals
  | |- emits _ (modify_self _) => apply emits_modify_self
  | |- emits _ (modify_locals _) => apply emits_modify_locals
  | |- emits _ (now _) => apply emits_now
  | |- emits _ (draw (M:=_)) => apply emits_draw
  | |- emits _ (call _) => apply emits_call
  | |- emits _ (match ?x with _ => _ end) => destruct x
  end.

Ltac emits_auto := repeat emits_step.

Section TraceFacts.

Variables Tensor M : Type.
Variable env : Env Tensor M.
Variable cls : NetworkClass Tensor M.

Lemma emits_summary_finally : emits is_table_event (summary_finally (Tensor:=Tensor) (M:=M)).
Proof.
  unfold summary_finally. emits_auto. now apply emits_emit_all.
Qed.

(** The generator writes to the progress table only. *)
Lemma step_events_table (n : Network Tensor M) t g :
  forallb is_table_event (fst (fst (show_epoch_summary_step env n t g))) = true.
Proof.
  unfold show_epoch_summary_step.
  destruct (epoch n);
    repeat match goal with
           | |- context [if ?c then _ else _] => destruct c
           end;
    cbn [fst]; rewrite forallb_app; destruct (status g); reflexivity.
Qed.

Lemma emits_next_epoch_summary : emits is_table_event (next_epoch_summary env).
Proof.
  unfold next_epoch_summary. apply emits_bind; [apply emits_get_locals |].
  intros l.
  assert (H : emits is_table_event
                (pbind (now env) (fun time_now =>
                 pbind (get_self (M:=M)) (fun network =>
                 let '(events, result, g) :=
                   show_epoch_summary_step env network time_now (epoch_summary l) in
                 pbind (emit_all events) (fun _ =>
                 pbind (modify_locals (set_summary g)) (fun _ =>
                 match result with
                 | Ok k => ret k
                 | Raise exn => raise exn
                 end)))))).
  { apply emits_bind; [apply emits_now |]. intros t.
    apply emits_bind; [apply emits_get_self |]. intros n.
    pose proof (step_events_table n t (epoch_summary l)) as Hev.
    destruct (show_epoch_summary_step env n t (epoch_summary l)) as [[evs r] g].
    cbn [fst] in Hev.
    apply emits_bind; [now apply emits_emit_all |]. intros _.
    apply emits_bind; [apply emits_modify_locals |]. intros _.
    destruct r; [apply emits_ret | apply emits_raise]. }
  destruct (status (epoch_summary l)); [exact H | exact H | apply emits_raise].
Qed.

Lemma emits_close_epoch_summary :
  emits is_table_event (close_epoch_summary (Tensor:=Tensor) (M:=M)).
Proof.
  unfold close_epoch_summary. emits_auto; apply emits_summary_finally.
Qed.

Lemma table_is_epoch_event (e : Event Tensor M) :
  is_table_event e = true -> is_epoch_event e = true.
Proof. destruct e as [| | | | | m | | | |]; try destruct m; simpl; congruence. Qed.

Lemma epoch_is_run_event (e : Event Tensor M) :
  is_epoch_event e = true -> is_run_event e = true.
Proof. destruct e as [| | | | | m | | | |]; try destruct m; simpl; congruence. Qed.

Lemma emits_next_in_epoch :
  emits is_epoch_event (next_epoch_summary env).
Proof.
  eapply emits_weaken; [apply table_is_epoch_event | apply emits_next_epoch_summary].
Qed.

(** The [try] block calls [train_epoch] first, on the object as it is, and
    never again. *)
Lemma train_attempt_trace held_out e t0 (st : State Tensor M) :
  exists evs,
    trace (world (snd (train_attempt env cls held_out e t0 st))) =
    trace (world st) ++ CallTrainEpoch (self st) :: evs /\
    forallb is_epoch_event evs = true.
Proof.
  unfold train_attempt.
  rewrite run_get_locals, run_get_self, run_emit.
  match goal with
  | |- exists evs, trace (world (snd (?p ?s))) = _ /\ _ =>
      assert (H : emits is_epoch_event p)
  end.
  { emits_auto; try apply emits_next_in_epoch. }
  match goal with
  | |- exists evs, trace (world (snd (_ ?s))) = _ /\ _ =>
      destruct (H s) as [evs [Ht Hf]]
  end.
  exists evs. split; [| exact Hf].
  rewrite Ht. cbn [world trace]. now rewrite <- app_assoc.
Qed.

Lemma catch_stop_trace e (body : Py Tensor M unit) (st : State Tensor M) :
  exists evs,
    trace (world (snd (catch_stop e body st))) =
    trace (world (snd (body st))) ++ evs /\
    forallb is_epoch_event evs = true.
Proof.
  unfold catch_stop. destruct (body st) as [[u | exn] st'].
  - exists []. simpl. now rewrite app_nil_r.
  - destruct exn; try (exists []; simpl; now rewrite app_nil_r).
    exists [Log (MsgEpochStopped e message)]. now simpl.
Qed.

(** One pass of the loop body: one call of [train_epoch], made after
    [epoch_start_update], on an object that differs from its result in the
    stored training arrays at most. *)
Lemma epoch_body_trace flag held_out e (st : State Tensor M) :
  exists n evs,
    trace (world (snd (epoch_body env cls flag held_out e st))) =
    trace (world st) ++ CallTrainEpoch n :: evs /\
    forallb is_epoch_event evs = true /\
    epoch n = epoch (epoch_start_update cls e (self st)) /\
    model n = model (epoch_start_update cls e (self st)).
Proof.
  unfold epoch_body.
  rewrite run_modify_locals, run_now, run_modify_self.
  destruct flag.
  - rewrite pbind_assoc, run_draw. cbv beta.
    rewrite pbind_assoc, run_get_locals. cbv beta.
    cbn [locals self world].
    destruct (shuffle_train_data env _ _ _) as [x y].
    rewrite pbind_assoc, run_modify_locals. cbv beta.
    rewrite run_modify_self. cbn [locals self world ticks rng trace].
    match goal with
    | |- context [catch_stop e ?b ?s] =>
        destruct (catch_stop_trace e b s) as [evs2 [Ht2 Hf2]];
        destruct (train_attempt_trace held_out e
                    (clock env (ticks (world st))) s) as [evs1 [Ht1 Hf1]]
    end.
    eexists. exists (evs1 ++ evs2). split; [| split; [| split]].
    + rewrite Ht2, Ht1. cbn [world trace self]. now rewrite <- app_assoc.
    + now rewrite forallb_app, Hf1, Hf2.
    + reflexivity.
    + reflexivity.
  - rewrite run_ret. cbn [locals self world ticks rng trace].
    match goal with
    | |- context [catch_stop e ?b ?s] =>
        destruct (catch_stop_trace e b s) as [evs2 [Ht2 Hf2]];
        destruct (train_attempt_trace held_out e
                    (clock env (ticks (world st))) s) as [evs1 [Ht1 Hf1]]
    end.
    eexists. exists (evs1 ++ evs2). split; [| split; [| split]].
    + rewrite Ht2, Ht1. cbn [world trace self]. now rewrite <- app_assoc.
    + now rewrite forallb_app, Hf1, Hf2.
    + reflexivity.
    + reflexivity.
Qed.

End TraceFacts.

(** ** The calls of [train_epoch] made by the loop *)

Section LoopFacts.

Variables Tensor M : Type.
Variable env : Env Tensor M.
Variable cls : NetworkClass Tensor M.

Lemma train_calls_app (a b : list (Event Tensor M)) :
  train_calls (a ++ b) = train_calls a ++ train_calls b.
Proof. unfold train_calls. apply flat_map_app. Qed.

Lemma quiet_no_calls (evs : list (Event Tensor M)) :
  forallb is_quiet_event evs = true -> train_calls evs = [].
Proof.
  induction evs as [| e evs IH]; simpl; [reflexivity |].
  intros H. apply andb_prop in H. destruct H as [He Hs].
  destruct e; simpl in *; try discriminate; auto.
Qed.

Lemma epoch_is_quiet_event (e : Event Tensor M) :
  is_epoch_event e = true -> is_quiet_event e = true.
Proof.
  destruct e as [| | | | | m | | | |]; try destruct m;
    unfold is_quiet_event; simpl; congruence.
Qed.

Lemma epoch_events_no_calls (evs : list (Event Tensor M)) :
  forallb is_epoch_event evs = true -> train_calls evs = [].
Proof.
  intros H. apply quiet_no_calls.
  rewrite forallb_forall in *. intros e He. apply epoch_is_quiet_event. auto.
Qed.

Lemma count_events_app f (a b : list (Event Tensor M)) :
  count_events f (a ++ b) = (count_events f a + count_events f b)%nat.
Proof. unfold count_events. now rewrite filter_app, length_app. Qed.

Lemma count_events_none f g (evs : list (Event Tensor M)) :
  (forall e, g e = true -> f e = false) ->
  forallb g evs = true -> count_events f evs = 0%nat.
Proof.
  intros Hgf. induction evs as [| e evs IH]; simpl; [reflexivity |].
  intros H. apply andb_prop in H. destruct H as [He Hs].
  unfold count_events in *. simpl. rewrite (Hgf _ He). auto.
Qed.

Section Numbering.

Variable Qobs : Z -> option Z -> M -> Prop.
Hypothesis Qobs_start :
  forall e n, Qobs e (epoch (epoch_start_update cls e n))
                   (model (epoch_start_update cls e n)).

Lemma numbers_quiet {A} e (p : Py Tensor M A) :
  emits is_quiet_event p -> numbers_calls Qobs e p.
Proof.
  intros H st. destruct (H st) as [evs [Ht Hf]].
  exists evs, 0%nat. split; [exact Ht |].
  rewrite (quiet_no_calls _ Hf). constructor.
Qed.

Lemma numbers_bind_left {A B} e (p : Py Tensor M A) (k : A -> Py Tensor M B) :
  emits is_quiet_event p -> (forall a, numbers_calls Qobs e (k a)) ->
  numbers_calls Qobs e (pbind p k).
Proof.
  intros Hp Hk st. unfold pbind.
  destruct (Hp st) as [evs [Ht Hf]].
  destruct (p st) as [[a | exn] st']; simpl in Ht.
  - destruct (Hk a st') as [evs' [n [Ht' HF]]].
    exists (evs ++ evs'), n. split.
    + now rewrite Ht', Ht, app_assoc.
    + now rewrite train_calls_app, (quiet_no_calls _ Hf).
  - exists evs, 0%nat. simpl. split; [exact Ht |].
    rewrite (quiet_no_calls _ Hf). constructor.
Qed.

Lemma numbers_bind_right {A B} e (p : Py Tensor M A) (k : A -> Py Tensor M B) :
  numbers_calls Qobs e p -> (forall a, emits is_quiet_event (k a)) ->
  numbers_calls Qobs e (pbind p k).
Proof.
  intros Hp Hk st. unfold pbind.
  destruct (Hp st) as [evs [n [Ht HF]]].
  destruct (p st) as [[a | exn] st']; simpl in Ht.
  - destruct (Hk a st') as [evs' [Ht' Hf]].
    exists (evs ++ evs'), n. split.
    + now rewrite Ht', Ht, app_assoc.
    + now rewrite train_calls_app, (quiet_no_calls _ Hf), app_nil_r.
  - exists evs, n. simpl. auto.
Qed.

(** The loop numbers its calls of [train_epoch] consecutively. *)
Lemma for_epochs_numbers flag held_out it n :
  forall e, numbers_calls Qobs e
              (for_epochs env n e it (epoch_body env cls flag held_out)).
Proof.
  induction n as [| n IH]; intros e st.
  - exists [], 0%nat. simpl. split; [now rewrite app_nil_r | constructor].
  - cbn [for_epochs].
    destruct (iter_yields env it (self st)).
    + destruct (epoch_body_trace env cls flag held_out e st)
        as [snap [evs [Ht [Hf [He Hm]]]]].
      assert (HQ : Qobs e (epoch snap) (model snap)).
      { rewrite He, Hm. apply Qobs_start. }
      destruct (epoch_body env cls flag held_out e st) as [[[|] | exn] st'];
        simpl in Ht.
      * destruct (IH (e + 1) st') as [evs' [k [Ht' HF]]].
        exists ((CallTrainEpoch snap :: evs) ++ evs'), (S k). split.
        -- now rewrite Ht', Ht, app_assoc.
        -- rewrite train_calls_app. cbn [train_calls flat_map app].
           fold (train_calls evs). rewrite (epoch_events_no_calls _ Hf).
           cbn [app epochs_from]. constructor; assumption.
      * exists (CallTrainEpoch snap :: evs), 1%nat. split; [exact Ht |].
        cbn [train_calls flat_map app]. fold (train_calls evs).
        rewrite (epoch_events_no_calls _ Hf). repeat constructor. exact HQ.
      * exists (CallTrainEpoch snap :: evs), 1%nat. split; [exact Ht |].
        cbn [train_calls flat_map app]. fold (train_calls evs).
        rewrite (epoch_events_no_calls _ Hf). repeat constructor. exact HQ.
    + exists [], 0%nat. simpl. split; [now rewrite app_nil_r | constructor].
Qed.

End Numbering.

End LoopFacts.

(** ** What a whole run writes *)

Section RunFacts.

Variables Tensor M : Type.
Variable env : Env Tensor M.
Variable cls : NetworkClass Tensor M.

Lemma table_is_quiet_event (e : Event Tensor M) :
  is_table_event e = true -> is_quiet_event e = true.
Proof.
  intros H. apply epoch_is_quiet_event. now apply table_is_epoch_event.
Qed.

Lemma table_is_run_event (e : Event Tensor M) :
  is_table_event e = true -> is_run_event e = true.
Proof.
  intros H. apply epoch_is_run_event. now apply table_is_epoch_event.
Qed.

Lemma call_is_run_event (e : Event Tensor M) :
  is_train_epoch_call e = true -> is_run_event e = true.
Proof. destruct e; simpl; congruence. Qed.

Lemma emits_epoch_body f flag held_out e :
  (forall ev : Event Tensor M, is_train_epoch_call ev = true -> f ev = true) ->
  (forall ev, is_epoch_event ev = true -> f ev = true) ->
  emits f (epoch_body env cls flag held_out e).
Proof.
  intros Hc He st.
  destruct (epoch_body_trace env cls flag held_out e st)
    as [snap [evs [Ht [Hf _]]]].
  exists (CallTrainEpoch snap :: evs). split; [exact Ht |].
  cbn [forallb]. rewrite (Hc (CallTrainEpoch snap) eq_refl). cbn [andb].
  rewrite forallb_forall in *. auto.
Qed.

Lemma emits_for_epochs f flag held_out it n :
  (forall ev : Event Tensor M, is_train_epoch_call ev = true -> f ev = true) ->
  (forall ev, is_epoch_event ev = true -> f ev = true) ->
  forall e, emits f (for_epochs env n e it (epoch_body env cls flag held_out)).
Proof.
  intros Hc He. induction n as [| n IH]; intros e st.
  - exists []. simpl. now rewrite app_nil_r.
  - cbn [for_epochs]. destruct (iter_yields env it (self st)).
    + destruct (emits_epoch_body f flag held_out e Hc He st) as [evs [Ht Hf]].
      destruct (epoch_body env cls flag held_out e st) as [[[|] | exn] st'];
        simpl in Ht.
      * destruct (IH (e + 1) st') as [evs' [Ht' Hf']].
        exists (evs ++ evs'). split.
        -- now rewrite Ht', Ht, app_assoc.
        -- now rewrite forallb_app, Hf, Hf'.
      * exists evs. auto.
      * exists evs. auto.
    + exists []. simpl. now rewrite app_nil_r.
Qed.

Lemma emits_next_quiet : emits is_quiet_event (next_epoch_summary env).
Proof.
  eapply emits_weaken; [apply table_is_quiet_event | apply emits_next_epoch_summary].
Qed.

Lemma emits_close_quiet :
  emits is_quiet_event (close_epoch_summary (Tensor:=Tensor) (M:=M)).
Proof.
  eapply emits_weaken; [apply table_is_quiet_event | apply emits_close_epoch_summary].
Qed.

Lemma emits_next_run : emits is_run_event (next_epoch_summary env).
Proof.
  eapply emits_weaken; [apply table_is_run_event | apply emits_next_epoch_summary].
Qed.

Lemma emits_close_run :
  emits is_run_event (close_epoch_summary (Tensor:=Tensor) (M:=M)).
Proof.
  eapply emits_weaken; [apply table_is_run_event | apply emits_close_epoch_summary].
Qed.

(** Without the warning, a run writes no warning. *)
Lemma emits_train_run input_test target_test epochs epsilon :
  emits is_run_event (train_run env cls input_test target_test epochs epsilon false).
Proof.
  unfold train_run, after_loop.
  repeat first
    [ apply emits_next_run
    | apply emits_close_run
    | apply emits_for_epochs;
      [apply call_is_run_event | apply epoch_is_run_event]
    | emits_step ].
Qed.

(** The calls of [train_epoch] of a run are numbered 1, 2, ... *)
Lemma train_run_numbers Qobs input_test target_test epochs epsilon warn :
  (forall e n, Qobs e (epoch (epoch_start_update cls e n))
                    (model (epoch_start_update cls e n))) ->
  numbers_calls Qobs 1
    (train_run env cls input_test target_test epochs epsilon warn).
Proof.
  intros HQ. unfold train_run.
  repeat (apply numbers_bind_left; [solve [emits_auto] | intros]).
  apply numbers_bind_right.
  - now apply for_epochs_numbers.
  - intros _. unfold after_loop.
    repeat first
      [ apply emits_next_quiet | apply emits_close_quiet | emits_step ].
Qed.

End RunFacts.

(** A validated [show_epoch] always parses, to an interval of at least 1. *)
Lemma validate_parse_ok (value : ShowEpoch) (n_epochs : Z) :
  ShowEpochProperty_validate value = Ok tt ->
  exists k, parse_show_epoch_property value n_epochs = Ok k /\ 1 <= k.
Proof.
  destruct value as [n | s]; simpl.
  - destruct (n <? 1) eqn:E; [discriminate |]. intros _.
    exists n. split; [reflexivity | lia].
  - destruct (str_index "time" s) as [pos | exn]; [| discriminate].
    cbn [bind].
    destruct (negb _ || negb _); [discriminate |].
    destruct (py_int (strip (str_take pos s))) as [N | exn]; [| discriminate].
    cbn [bind]. destruct (N <? 1) eqn:EN; [discriminate |]. intros _.
    apply Z.ltb_ge in EN.
    destruct (n_epochs <=? N) eqn:E.
    + exists 1. split; [reflexivity | lia].
    + apply Z.leb_gt in E. unfold true_div.
      destruct (N =? 0) eqn:E0; [lia |]. cbn [bind].
      eexists. split; [reflexivity |].
      assert (H1 : (1 <= inject_Z n_epochs / inject_Z N)%Q).
      { apply Qle_shift_div_l.
        - change 0%Q with (inject_Z 0). rewrite <- Zlt_Qlt. lia.
        - rewrite Qmult_1_l. rewrite <- Zle_Qle. lia. }
      apply py_round_ge. change (inject_Z 1) with 1%Q.
      rewrite binary64_positive by lra. now apply round53_ge_1.
Qed.

(** ** Claims about the cadence and the entry checks *)

(** C2 (the claim as stated fails): with the cadence ["10 times"] and 14
    epochs the parser returns the interval 1, while [ceil(14 / 10)] is 2. *)
Lemma C2_counterexample :
  parse_show_epoch_property (SEStr (times_string 10)) 14 = Ok 1 /\
  Qceiling (inject_Z 14 / inject_Z 10) = 2 /\
  parse_show_epoch_property (SEStr (times_string 10)) 14 <>
  Ok (Qceiling (inject_Z 14 / inject_Z 10)).
Proof. repeat split; try reflexivity. vm_compute. discriminate. Qed.

(** Above [2^52] the quotient of line 161 is no longer exact: with the
    cadence ["3 times"] and [10^17] epochs the interval is
    33333333333333332, while the exact quotient rounds to
    33333333333333333. *)
Lemma parse_beyond_binary64 :
  parse_show_epoch_property (SEStr "3 times") (10 ^ 17) = Ok 33333333333333332 /\
  py_round (inject_Z (10 ^ 17) / inject_Z 3) = 33333333333333333.
Proof. split; vm_compute; reflexivity. Qed.

(** C2 (amended): for every cadence string ["N times"] with [N] a positive
    integer and every epoch count below [2^52], the parsed interval is 1
    when the epoch count is at most [N], and otherwise Python's [round] of
    [total_epochs / N], an integer within one half of the quotient (a tie
    going to the even neighbour); ["10 times"] gives 10 for 100 epochs and 1
    for 5 epochs.  Below [2^52] the binary64 quotient the code computes and
    the exact quotient round to the same integer. *)
Theorem C2_parse_times_rounds (N : positive) (total_epochs : Z) :
  total_epochs < 2 ^ 52 ->
  parse_show_epoch_property (SEStr (times_string N)) total_epochs =
    Ok (if total_epochs <=? Zpos N then 1
        else py_round (inject_Z total_epochs / inject_Z (Zpos N))) /\
  (Qabs (inject_Z (py_round (inject_Z total_epochs / inject_Z (Zpos N)))
         - inject_Z total_epochs / inject_Z (Zpos N)) <= 1 # 2)%Q /\
  parse_show_epoch_property (SEStr "10 times") 100 = Ok 10 /\
  parse_show_epoch_property (SEStr "10 times") 5 = Ok 1.
Proof.
  intros Hb. split; [| split; [| split]].
  - rewrite parse_times_string.
    destruct (total_epochs <=? Zpos N) eqn:E; [reflexivity |].
    apply Z.leb_gt in E.
    assert (HN : (0 < inject_Z (Zpos N))%Q) by reflexivity.
    assert (H1 : (1 <= inject_Z total_epochs / inject_Z (Zpos N))%Q).
    { apply Qle_shift_div_l; [exact HN |].
      rewrite Qmult_1_l. rewrite <- Zle_Qle. lia. }
    rewrite binary64_positive by lra. now rewrite round53_exact by lia.
  - apply py_round_nearest.
  - vm_compute. reflexivity.
  - reflexivity.
Qed.

Lemma C2_witness :
  14 < 2 ^ 52 /\
  parse_show_epoch_property (SEStr (times_string 10)) 14 =
    Ok (if 14 <=? 10 then 1 else py_round (inject_Z 14 / inject_Z 10)) /\
  (Qabs (inject_Z (py_round (inject_Z 14 / inject_Z 10))
         - inject_Z 14 / inject_Z 10) <= 1 # 2)%Q /\
  parse_show_epoch_property (SEStr "10 times") 100 = Ok 10 /\
  parse_show_epoch_property (SEStr "10 times") 5 = Ok 1.
Proof.
  split; [reflexivity | apply (@C2_parse_times_rounds 10 14); reflexivity].
Defined.

(** C4: with [epsilon] given and [epochs <= 2] the call raises [ValueError]
    and returns the object and the outside world exactly as they were: no
    event is written (so no epoch body runs), no error is appended, and
    neither the parameters, the epoch counter nor the stored training arrays
    change. *)
Theorem C4_epsilon_needs_three_epochs
        (Tensor M : Type) (env : Env Tensor M) (cls : NetworkClass Tensor M)
        (input_train : Tensor) (target_train input_test target_test : option Tensor)
        (epochs : Z) (epsilon : Q) (net : Network Tensor M) (w : World Tensor M) :
  epochs <= 2 ->
  _train env cls input_train target_train input_test target_test
         epochs (Some epsilon) net w = (Raise ValueError, net, w).
Proof.
  intros H. unfold _train. destruct (is_feature1d cls net).
  apply Z.leb_le in H. now rewrite H.
Qed.

Lemma C4_witness :
  2 <= 2 /\
  _train (unit_env second_clock) (stopping_class 7) tt None None None
         2 (Some 0%Q) (fresh_network (SEInt 1)) fresh_world =
  (Raise ValueError, fresh_network (SEInt 1), fresh_world).
Proof.
  split; [lia | apply C4_epsilon_needs_three_epochs; lia].
Defined.

(** C10: without [epsilon] and with [epochs < 1] the range of epochs is empty,
    the loop body never runs (no call of [train_epoch] is made, no error is
    appended, the class-owned state and the epoch counter are untouched), and
    the read of the loop variable after the loop raises [NameError]; the
    object is one the constructor accepts ([show_epoch] validated) and its
    class defines [prediction_error] when held-out data is passed. *)
Theorem C10_no_epochs_name_error
        (Tensor M : Type) (env : Env Tensor M) (cls : NetworkClass Tensor M)
        (input_train : Tensor) (target_train input_test target_test : option Tensor)
        (epochs : Z) (net : Network Tensor M) (w : World Tensor M) :
  epochs < 1 ->
  ShowEpochProperty_validate (show_epoch net) = Ok tt ->
  (input_test = None \/ target_test = None \/ prediction_error cls <> None) ->
  exists net' w',
    _train env cls input_train target_train input_test target_test
           epochs None net w = (Raise NameError, net', w') /\
    errors_in net' = errors_in net /\
    errors_out net' = errors_out net /\
    model net' = model net /\
    epoch net' = epoch net /\
    train_calls (trace w') = train_calls (trace w).
Proof.
  intros Hlt Hval Hpe. unfold _train.
  destruct (is_feature1d cls net) as [f1 f2].
  destruct (validate_parse_ok _ epochs Hval) as [k [Hk _]].
  unfold reporting_cadence. rewrite Hk. cbn [bind].
  assert (Hz : Z.to_nat epochs = 0%nat) by lia.
  unfold train_run, after_loop. rewrite Hz.
  destruct input_test as [xt |], target_test as [yt |];
    try (destruct (prediction_error cls) as [pe |] eqn:Epe;
         [| destruct Hpe as [Hpe | [Hpe | Hpe]]; congruence]);
    cbn; do 2 eexists; (split; [reflexivity |]); cbn;
    repeat split; try reflexivity;
    unfold train_calls; rewrite !flat_map_app; cbn; now rewrite ?app_nil_r.
Qed.

Lemma C10_witness :
  0 < 1 /\
  ShowEpochProperty_validate (SEStr "10 times") = Ok tt /\
  exists net' w',
    _train (unit_env second_clock) (stopping_class 7) tt None None None
           0 None (fresh_network (SEStr "10 times")) fresh_world =
    (Raise NameError, net', w') /\
    errors_in net' = [] /\ errors_out net' = [] /\ model net' = tt /\
    epoch net' = None /\ train_calls (trace w') = [].
Proof.
  split; [lia |]. split; [reflexivity |].
  apply (@C10_no_epochs_name_error unit unit (unit_env second_clock)
           (stopping_class 7) tt None None None 0
           (fresh_network (SEStr "10 times")) fresh_world);
    [lia | reflexivity | now left].
Defined.

(** ** Claims about the run as a whole *)

Section RunClaims.

Variables Tensor M : Type.
Variable env : Env Tensor M.
Variable cls : NetworkClass Tensor M.

Lemma train_run_warn input_test target_test epochs epsilon (st : State Tensor M) :
  train_run env cls input_test target_test epochs epsilon true st =
  train_run env cls input_test target_test epochs epsilon false
            (mkState (self st)
                     (mkWorld (ticks (world st)) (rng (world st))
                              (trace (world st) ++ [Log WarnShowEpochConverging]))
                     (locals st)).
Proof. reflexivity. Qed.

Lemma run_event_not_warning (e : Event Tensor M) :
  is_run_event e = true -> is_warning e = false.
Proof. destruct e as [| | | | | m | | | |]; try destruct m; simpl; congruence. Qed.

(** The calls of [train_epoch] of one call of [_train] are numbered from 1. *)
Lemma _train_numbers Qobs input_train target_train input_test target_test
      epochs epsilon (net : Network Tensor M) (w : World Tensor M) :
  (forall e n, Qobs e (epoch (epoch_start_update cls e n))
                    (model (epoch_start_update cls e n))) ->
  exists evs k,
    trace (snd (_train env cls input_train target_train input_test target_test
                       epochs epsilon net w)) = trace w ++ evs /\
    Forall2 (fun ep snap => Qobs ep (epoch snap) (model snap))
            (epochs_from 1 k) (train_calls evs).
Proof.
  intros HQ. unfold _train. destruct (is_feature1d cls net) as [f1 f2].
  destruct (match epsilon with Some _ => epochs <=? 2 | None => false end).
  { exists [], 0%nat. simpl. split; [now rewrite app_nil_r | constructor]. }
  destruct (reporting_cadence (show_epoch net) epochs epsilon) as [[k warn] | exn].
  2:{ exists [], 0%nat. simpl. split; [now rewrite app_nil_r | constructor]. }
  match goal with
  | |- context [train_run env cls ?xt ?yt epochs epsilon warn ?s] =>
      destruct (train_run_numbers env cls Qobs xt yt epochs epsilon warn HQ s)
        as [evs [n [Ht HF]]];
      destruct (train_run env cls xt yt epochs epsilon warn s) as [r st]
  end.
  exists evs, n. cbn [snd world] in *. auto.
Qed.

End RunClaims.

(** C3 (the claim as stated fails): in convergence mode an integer cadence is
    kept.  With [show_epoch = 5], [epsilon = 0] and ten epochs the loop starts
    with the interval 5, no warning is written, and rows are rendered at the
    epochs 1, 5 and 10. *)
Lemma C3_counterexample :
  let '(_, _, w') :=
    _train (unit_env second_clock) (stopping_class 0) tt None None None
           10 (Some 0%Q) (fresh_network (SEInt 5)) fresh_world in
  reporting_cadence (SEInt 5) 10 (Some 0%Q) = Ok (5, false) /\
  count_events is_warning (trace w') = 0%nat /\
  row_epochs (trace w') = [1; 5; 10].
Proof. vm_compute. repeat split. Qed.

(** C3 (amended): in convergence mode with at least three epochs, a cadence
    given as a string is replaced by the interval 100, with which the loop
    and the progress table start, and the warning is the first thing the call
    writes and is written once; a cadence given as an integer is kept and no
    warning is written. *)
Theorem C3_convergence_cadence
        (Tensor M : Type) (env : Env Tensor M) (cls : NetworkClass Tensor M)
        (input_train : Tensor) (target_train input_test target_test : option Tensor)
        (epochs : Z) (epsilon : Q) (net : Network Tensor M) (w : World Tensor M) :
  2 < epochs ->
  let run := _train env cls input_train target_train input_test target_test
                    epochs (Some epsilon) net w in
  match show_epoch net with
  | SEStr _ =>
      reporting_cadence (show_epoch net) epochs (Some epsilon) = Ok (100, true) /\
      (exists x y xt yt,
          run = let (r, st) :=
                  train_run env cls xt yt epochs (Some epsilon) true
                            (mkState net w
                                     (mkLocals x y 100 0 None
                                               (mkSummary NotStarted 100 None []))) in
                (r, self st, world st)) /\
      exists evs,
        trace (snd run) = trace w ++ Log WarnShowEpochConverging :: evs /\
        count_events is_warning evs = 0%nat
  | SEInt k =>
      reporting_cadence (show_epoch net) epochs (Some epsilon) = Ok (k, false) /\
      exists evs,
        trace (snd run) = trace w ++ evs /\
        count_events is_warning evs = 0%nat
  end.
Proof.
  intros H run. subst run. unfold _train.
  destruct (is_feature1d cls net) as [f1 f2].
  assert (E : (epochs <=? 2) = false) by (apply Z.leb_gt; lia). rewrite E.
  destruct (show_epoch net) as [k | s]; cbn [reporting_cadence].
  - split; [reflexivity |].
    match goal with
    | |- context [train_run env cls ?xt ?yt epochs ?eps false ?s] =>
        destruct (emits_train_run env cls xt yt epochs eps s) as [evs [Ht Hf]];
        destruct (train_run env cls xt yt epochs eps false s) as [r st]
    end.
    exists evs. cbn [snd world trace] in *. split; [exact Ht |].
    eapply count_events_none; [apply run_event_not_warning | exact Hf].
  - split; [reflexivity |]. split.
    + do 4 eexists. reflexivity.
    + rewrite train_run_warn.
      match goal with
      | |- context [train_run env cls ?xt ?yt epochs ?eps false ?s] =>
          destruct (emits_train_run env cls xt yt epochs eps s) as [evs [Ht Hf]];
          destruct (train_run env cls xt yt epochs eps false s) as [r st]
      end.
      exists evs. cbn [snd world trace self locals] in *. split.
      * rewrite Ht. now rewrite <- app_assoc.
      * eapply count_events_none; [apply run_event_not_warning | exact Hf].
Qed.

Lemma C3_witness :
  2 < 3 /\
  exists evs,
    trace (snd (_train (unit_env second_clock) (stopping_class 0) tt None None None
                       3 (Some 0%Q) (fresh_network (SEStr "10 times")) fresh_world))
    = trace fresh_world ++ Log WarnShowEpochConverging :: evs /\
    count_events is_warning evs = 0%nat.
Proof.
  split; [lia |].
  apply (@C3_convergence_cadence unit unit (unit_env second_clock)
           (stopping_class 0) tt None None None 3 0%Q
           (fresh_network (SEStr "10 times")) fresh_world).
  lia.
Defined.

(** ** The pipeline builder *)

Section CleanLayers.

Lemma chain_reversed_app xs ys c :
  chain_reversed (xs ++ ys) c =
  (c' <- chain_reversed xs c ;; chain_reversed ys c').
Proof.
  revert c. induction xs as [| x xs IH]; intros c; simpl; [reflexivity |].
  destruct (new_LayerConnection x c); simpl; auto.
Qed.

(** Chaining the layers [pre] in front of [right], right to left, keeps
    their order. *)
Lemma chain_reversed_layers pre right rl :
  chain_layers right = Ok rl -> pre <> [] ->
  chain_reversed (List.rev (map PyLayer pre)) right =
  Ok (PyConnection (mkConnection (pre ++ rl))).
Proof.
  intros Hr. induction pre as [| a pre IH]; intros Hne; [congruence |].
  cbn [map List.rev]. rewrite chain_reversed_app.
  destruct pre as [| b pre].
  - cbn. unfold new_LayerConnection. cbn. rewrite Hr. reflexivity.
  - rewrite IH by discriminate. cbn. reflexivity.
Qed.

Lemma last_default {A} (l : list A) (a d : A) :
  l <> [] -> last l a = last l d.
Proof.
  induction l as [| x l IH]; intros H; [congruence |].
  destruct l as [| y l]; [reflexivity |].
  change (last (x :: y :: l) a) with (last (y :: l) a).
  change (last (x :: y :: l) d) with (last (y :: l) d).
  apply IH. discriminate.
Qed.

Lemma last_cons_default {A} (rest : list A) (a d : A) :
  last rest a = last (a :: rest) d.
Proof.
  destruct rest as [| b r]; [reflexivity |].
  change (last (a :: b :: r) d) with (last (b :: r) d).
  apply last_default. discriminate.
Qed.

Lemma output_layer_connection c d :
  conn_layers c <> [] ->
  output_layer (PyConnection c) = Ok (last (conn_layers c) d).
Proof.
  unfold output_layer. destruct (conn_layers c) as [| a rest]; [congruence |].
  intros _. f_equal. apply last_cons_default.
Qed.

Lemma output_layer_last ls l :
  output_layer (PyConnection (mkConnection (ls ++ [l]))) = Ok l.
Proof.
  rewrite (output_layer_connection _ l).
  - cbn [conn_layers]. now rewrite last_last.
  - cbn [conn_layers]. now destruct ls.
Qed.

End CleanLayers.

Lemma forallb_is_int_map sizes : forallb is_int (map PyInt sizes) = true.
Proof. induction sizes; simpl; auto. Qed.

Lemma int_value_map sizes : map int_value (map PyInt sizes) = sizes.
Proof. induction sizes; simpl; congruence. Qed.

Lemma forallb_is_int_layers a ls : forallb is_int (map PyLayer (a :: ls)) = false.
Proof. reflexivity. Qed.

(** C6: for every connection of one of the three accepted forms, the builder
    resolves it to a chain of layers and then checks the chain's output
    layer: it returns the chain when that layer derives from [Output] and
    raises [NetworkConnectionError] when it does not.  For a list of
    integers the chain has as many layers as the list has integers and its
    output layer passes the check; a list of layers is chained in its order;
    a chain is passed through. *)
Theorem C6_clean_layers_checks_output (sp : ConnectionSpec) :
  well_formed sp = true ->
  exists layers out,
    output_layer (PyConnection (mkConnection layers)) = Ok out /\
    clean_layers (spec_value sp) =
      (if is_Output out then Ok (PyConnection (mkConnection layers))
       else Raise NetworkConnectionError) /\
    match sp with
    | IntegerSpec _ sizes =>
        List.length layers = List.length sizes /\ is_Output out = true
    | LayerSpec _ ls => layers = ls
    | ChainSpec c => layers = conn_layers c
    end.
Proof.
  destruct sp as [t sizes | t ls | c]; cbn [well_formed spec_value]; intros Hwf.
  - set (pre := map (fun p => mkLayer (fst p) (snd p) false
                                     [VarParam (fst p) 0; VarParam (fst p) 1])
                    (combine (seq 0 (List.length sizes - 1)) (removelast sizes))).
    set (out := mkLayer (List.length sizes - 1) (last sizes 0) true []).
    exists (pre ++ [out]), out.
    assert (Hgen : generate_layers sizes = Ok (mkConnection (pre ++ [out]))).
    { unfold generate_layers. now rewrite Hwf. }
    split; [apply output_layer_last |]. split.
    + unfold clean_layers.
      destruct t; cbn [as_sequence is_list_of_integers bind];
        rewrite forallb_is_int_map; cbn [bind];
        rewrite int_value_map, Hgen; cbn [bind];
        now rewrite output_layer_last.
    + split; [| reflexivity].
      apply andb_prop in Hwf. destruct Hwf as [Hlen _].
      apply Nat.leb_le in Hlen.
      rewrite length_app. subst pre. rewrite length_map, length_combine, length_seq.
      rewrite removelast_firstn_len, length_firstn. simpl. lia.
  - apply Nat.leb_le in Hwf.
    destruct (exists_last (l := ls)) as [pre [l_last Els]].
    { destruct ls; simpl in Hwf; [lia | discriminate]. }
    subst ls. exists (pre ++ [l_last]), l_last.
    split; [apply output_layer_last |]. split; [| reflexivity].
    assert (Hpre : pre <> []).
    { destruct pre; [simpl in Hwf; lia | discriminate]. }
    assert (Hchain :
              chain_reversed
                (List.rev (removelast (map PyLayer (pre ++ [l_last]))))
                (last (map PyLayer (pre ++ [l_last])) PyOther)
              = Ok (PyConnection (mkConnection (pre ++ [l_last])))).
    { rewrite map_app. cbn [map]. rewrite removelast_last, last_last.
      now apply chain_reversed_layers. }
    unfold clean_layers.
    destruct pre as [| a pre]; [congruence |].
    change ((a :: pre) ++ [l_last]) with (a :: (pre ++ [l_last])) in *.
    cbn [map] in *.
    destruct t; cbn [as_sequence is_list_of_integers bind forallb is_int andb];
      rewrite Hchain; cbn [bind];
      change (a :: (pre ++ [l_last])) with ((a :: pre) ++ [l_last]);
      now rewrite (output_layer_last (a :: pre)).
  - destruct c as [layers]. cbn [conn_layers] in *.
    destruct (exists_last (l := layers)) as [pre [l_last Els]].
    { destruct layers; [discriminate | discriminate]. }
    subst layers. exists (pre ++ [l_last]), l_last.
    split; [apply output_layer_last |]. split; [| reflexivity].
    unfold clean_layers. cbn [is_list_of_integers bind].
    now rewrite output_layer_last.
Qed.

Lemma C6_witness :
  well_formed (IntegerSpec false [2; 3; 1]) = true /\
  exists layers out,
    output_layer (PyConnection (mkConnection layers)) = Ok out /\
    clean_layers (PyList [PyInt 2; PyInt 3; PyInt 1]) =
      (if is_Output out then Ok (PyConnection (mkConnection layers))
       else Raise NetworkConnectionError) /\
    List.length layers = 3%nat /\ is_Output out = true.
Proof.
  split; [reflexivity |].
  apply (C6_clean_layers_checks_output (IntegerSpec false [2; 3; 1])).
  reflexivity.
Defined.

(** ** The compiled functions *)

Lemma SharedVar_eqb_eq a b : SharedVar_eqb a b = true <-> a = b.
Proof.
  destruct a, b; simpl; split; intros H; try congruence; try discriminate.
  - apply andb_prop in H. destruct H as [H1 H2].
    apply Nat.eqb_eq in H1. apply Nat.eqb_eq in H2. congruence.
  - inversion H; subst. now rewrite !Nat.eqb_refl.
Qed.

Lemma SharedVar_eqb_refl a : SharedVar_eqb a a = true.
Proof. now apply SharedVar_eqb_eq. Qed.

Lemma SharedVar_eqb_neq a b : a <> b -> SharedVar_eqb a b = false.
Proof.
  intros H. destruct (SharedVar_eqb a b) eqn:E; [| reflexivity].
  apply SharedVar_eqb_eq in E. contradiction.
Qed.

Section Assignment.

Variable Tensor : Type.

Lemma existsb_eqb_in v vs :
  existsb (SharedVar_eqb v) vs = true <-> In v vs.
Proof.
  rewrite existsb_exists. split.
  - intros [x [Hin Heq]]. apply SharedVar_eqb_eq in Heq. now subst.
  - intros H. exists v. split; [exact H | apply SharedVar_eqb_refl].
Qed.

Lemma distinct_NoDup vs : distinct vs = true -> NoDup vs.
Proof.
  induction vs as [| v vs IH]; simpl; intros H; [constructor |].
  apply andb_prop in H. destruct H as [Hv Hs].
  constructor; [| auto].
  intros Hin. apply existsb_eqb_in in Hin. rewrite Hin in Hv. discriminate.
Qed.

(** A variable no assignment names keeps its value. *)
Lemma assign_all_other (news : list (SharedVar * Value Tensor)) s v :
  ~ In v (map fst news) -> assign_all news s v = s v.
Proof.
  revert s. induction news as [| [v0 x0] news IH]; intros s Hin; [reflexivity |].
  cbn [assign_all fold_left fst snd]. fold (assign_all news (set_value s v0 x0)).
  rewrite IH.
  - unfold set_value. rewrite SharedVar_eqb_neq; [reflexivity |].
    intros E. apply Hin. left. exact E.
  - intros H. apply Hin. right. exact H.
Qed.

(** With distinct targets, every assigned variable holds its new value,
    whatever the order of the list. *)
Lemma assign_all_in (news : list (SharedVar * Value Tensor)) s v x :
  NoDup (map fst news) -> In (v, x) news -> assign_all news s v = x.
Proof.
  revert s. induction news as [| [v0 x0] news IH]; intros s Hnd Hin; [contradiction |].
  cbn [map fst] in Hnd. inversion Hnd as [| ? ? Hnotin Hnd']; subst.
  cbn [assign_all fold_left fst snd]. fold (assign_all news (set_value s v0 x0)).
  destruct Hin as [Heq | Hin].
  - inversion Heq; subst. rewrite assign_all_other by exact Hnotin.
    unfold set_value. now rewrite SharedVar_eqb_refl.
  - now apply IH.
Qed.

Variable backend : GraphBackend Tensor.

(** A call reads the shared variables as they are at the call. *)
Lemma call_function_simultaneous (f : Function Tensor) x y s :
  distinct (map fst (fn_updates f)) = true ->
  fst (call_function backend f x y s) = eval backend (fn_outputs f) x y s /\
  (forall v e, In (v, e) (fn_updates f) ->
               snd (call_function backend f x y s) v = eval backend e x y s) /\
  (forall v, ~ In v (map fst (fn_updates f)) ->
             snd (call_function backend f x y s) v = s v).
Proof.
  intros Hd. apply distinct_NoDup in Hd.
  unfold call_function. cbn [fst snd]. split; [reflexivity |]. split.
  - intros v e Hin. apply assign_all_in.
    + now rewrite map_map.
    + apply (in_map (fun p => (fst p, eval backend (snd p) x y s))) in Hin.
      exact Hin.
  - intros v Hin. apply assign_all_other. now rewrite map_map.
Qed.

Lemma theano_function_ok outputs (updates : Updates Tensor) f :
  theano_function outputs updates = Ok f ->
  f = mkFunction outputs updates /\ distinct (map fst updates) = true.
Proof.
  unfold theano_function. destruct (distinct (map fst updates)); [| discriminate].
  intros H. inversion H. auto.
Qed.

Variable init_param_updates : Layer -> SharedVar -> Updates Tensor.

(** What construction leaves in the object. *)
Lemma ConstructableNetwork_init_ok algorithm connection step period initial g :
  ConstructableNetwork_init backend init_param_updates algorithm connection
                            step period initial = Ok g ->
  let updates :=
    match algorithm with
    | PlainConstructable =>
        ConstructableNetwork_init_train_updates init_param_updates (train_layers g)
    | WithSimpleStepMinimization =>
        SimpleStepMinimization_init_train_updates
          init_param_updates (train_layers g) (first_step g)
          (epochs_step_minimizator g)
    end in
  methods g = mkMethods (mkFunction (error_func g) updates)
                        (mkFunction (error_func g) [])
                        (mkFunction (prediction_func g) []) /\
  distinct (map fst updates) = true /\
  first_step g = step /\ epochs_step_minimizator g = period /\
  error_func g =
    EGraph (fun x y s => VNum (error backend y (prediction backend (train_layers g) x s))) /\
  shared g VarStep = VNum (Fin step) /\
  shared g VarEpoch = VNum (Fin 1).
Proof.
  unfold ConstructableNetwork_init.
  destruct (clean_layers connection) as [cleaned | exn]; [| discriminate].
  cbn [bind]. destruct cleaned as [| | c | | |]; try discriminate.
  unfold init_methods.
  match goal with
  | |- context [theano_function ?o ?u] =>
      destruct (theano_function o u) as [f |] eqn:Ef; [| discriminate]
  end.
  apply theano_function_ok in Ef. destruct Ef as [Ef Hd]. subst f.
  cbn [bind theano_function distinct map]. intros H. inversion H; subst; clear H.
  cbn. repeat split; try reflexivity; exact Hd.
Qed.

End Assignment.

(** C9: in an object the constructor has built, the compiled train-epoch
    function has the error expression as its output and exactly the updates
    [init_train_updates] resolves to; a call of [train_epoch] returns the
    error evaluated on the values the shared variables have at the call,
    gives every updated variable the value of its update expression on those
    same values, and leaves every other variable alone.  The compiled
    evaluate-error and predict-raw functions have the error and the
    prediction expression as outputs and no updates, and a call of the
    methods [prediction_error] and [predict_raw] returns the value of the
    expression and leaves every shared variable (parameters, step, epoch) as
    it is. *)
Theorem C9_compiled_units
        (Tensor : Type) (backend : GraphBackend Tensor)
        (init_param_updates : Layer -> SharedVar -> Updates Tensor)
        (algorithm : Algorithm) (given : PyValue) (step : Q) (period : Z)
        (initial : Store Tensor) (g : Graph Tensor) :
  ConstructableNetwork_init backend init_param_updates algorithm given
                            step period initial = Ok g ->
  methods g =
    mkMethods (mkFunction (error_func g)
                          (init_train_updates init_param_updates algorithm g))
              (mkFunction (error_func g) [])
              (mkFunction (prediction_func g) []) /\
  (forall (n : Network Tensor (Graph Tensor)) s x y,
      model n = with_shared s g ->
      exists s',
        ConstructableNetwork_train_epoch backend n x y =
          (as_error (eval backend (error_func g) x y s), with_shared s' g) /\
        (forall v e,
            In (v, e) (init_train_updates init_param_updates algorithm g) ->
            s' v = eval backend e x y s) /\
        (forall v,
            ~ In v (map fst (init_train_updates init_param_updates algorithm g)) ->
            s' v = s v)) /\
  (forall (n : Network Tensor (Graph Tensor)) s x y,
      model n = with_shared s g ->
      ConstructableNetwork_prediction_error backend n x y =
        (as_error (eval backend (error_func g)
                        (graph_format_data backend x true) (Some y) s),
         with_shared s g)) /\
  (forall s x,
      ConstructableNetwork_predict_raw backend (with_shared s g) x =
        (eval backend (prediction_func g) (graph_format_data backend x true) None s,
         with_shared s g)).
Proof.
  intros Hinit.
  destruct (ConstructableNetwork_init_ok _ _ _ _ _ _ _ Hinit) as [Hm [Hd _]].
  fold (init_train_updates init_param_updates algorithm g) in Hm, Hd.
  split; [exact Hm |]. split; [| split].
  - intros n s x y Hn.
    pose proof (call_function_simultaneous backend (m_train_epoch (methods g)) x y s)
      as Hcall.
    rewrite Hm in Hcall. cbn [m_train_epoch fn_updates fn_outputs] in Hcall.
    destruct (Hcall Hd) as [Hout [Hin Hother]].
    unfold ConstructableNetwork_train_epoch. rewrite Hn.
    change (methods (with_shared s g)) with (methods g).
    change (shared (with_shared s g)) with s.
    rewrite Hm. cbn [m_train_epoch].
    destruct (call_function backend _ x y s) as [out s'].
    cbn [fst snd] in Hout, Hin, Hother. subst out.
    exists s'. split; [reflexivity |]. split; assumption.
  - intros n s x y Hn. unfold ConstructableNetwork_prediction_error.
    rewrite Hn.
    change (methods (with_shared s g)) with (methods g).
    change (shared (with_shared s g)) with s.
    rewrite Hm. reflexivity.
  - intros s x. unfold ConstructableNetwork_predict_raw.
    change (methods (with_shared s g)) with (methods g).
    change (shared (with_shared s g)) with s.
    rewrite Hm. reflexivity.
Qed.

Lemma C9_witness :
  exists g s',
    ConstructableNetwork_init unit_backend swap_param_updates
      WithSimpleStepMinimization
      (PyList [PyLayer (mkLayer 0 2 false [VarParam 0 0; VarParam 0 1]);
               PyLayer (mkLayer 1 1 true [])])
      (3 # 10) 50 zero_store = Ok g /\
    fn_updates (m_train_epoch (methods g)) =
      [(VarParam 0 0, EShared (VarParam 0 1));
       (VarParam 0 1, EShared (VarParam 0 0));
       (VarStep, new_step (3 # 10) 50)] /\
    ConstructableNetwork_train_epoch unit_backend
      (graph_network (SEInt 1) (with_shared sample_store g)) tt (Some tt) =
      (Ok (Fin 0), with_shared s' g) /\
    s' (VarParam 0 0) = VNum (Fin 2) /\
    s' (VarParam 0 1) = VNum (Fin 1) /\
    s' VarEpoch = VNum (Fin 100) /\
    ConstructableNetwork_prediction_error unit_backend
      (graph_network (SEInt 1) (with_shared sample_store g)) tt tt =
      (Ok (Fin 0), with_shared sample_store g).
Proof.
  destruct (ConstructableNetwork_init unit_backend swap_param_updates
              WithSimpleStepMinimization
              (PyList [PyLayer (mkLayer 0 2 false [VarParam 0 0; VarParam 0 1]);
                       PyLayer (mkLayer 1 1 true [])])
              (3 # 10) 50 zero_store) as [g | exn] eqn:E;
    [| vm_compute in E; discriminate].
  destruct (@C9_compiled_units unit unit_backend swap_param_updates
              WithSimpleStepMinimization _ (3 # 10) 50 zero_store g E)
    as [Hm [Htrain [Herr _]]].
  destruct (Htrain (graph_network (SEInt 1) (with_shared sample_store g))
                   sample_store tt (Some tt) eq_refl)
    as [s' [Hcall [Hin Hother]]].
  specialize (Herr (graph_network (SEInt 1) (with_shared sample_store g))
                   sample_store tt tt eq_refl).
  assert (Hu : init_train_updates swap_param_updates WithSimpleStepMinimization g =
               [(VarParam 0 0, EShared (VarParam 0 1));
                (VarParam 0 1, EShared (VarParam 0 0));
                (VarStep, new_step (3 # 10) 50)]).
  { vm_compute in E. inversion E. reflexivity. }
  assert (He : error_func g =
               EGraph (fun x y s =>
                         VNum (error unit_backend y
                                     (prediction unit_backend (train_layers g) x s)))).
  { vm_compute in E. inversion E. reflexivity. }
  rewrite Hu in Hin, Hother. rewrite He in Hcall, Herr.
  exists g, s'. split; [reflexivity |].
  split; [rewrite Hm; exact Hu |].
  split; [exact Hcall |].
  split; [apply (Hin _ _ (or_introl eq_refl)) |].
  split; [apply (Hin _ _ (or_intror (or_introl eq_refl))) |].
  split; [| exact Herr].
  rewrite Hother; [reflexivity |].
  cbn. intros [H | [H | [H | []]]]; discriminate.
Defined.

(** ** The progress reporter *)

Lemma deque_append_length (xs : list Q) (x : Q) :
  (List.length xs <= delay_history_length)%nat ->
  (List.length (deque_append delay_history_length xs x) <= delay_history_length)%nat.
Proof.
  unfold deque_append, delay_history_length. intros H.
  destruct (10 <=? List.length xs)%nat eqn:E.
  - apply Nat.leb_le in E. rewrite length_app. destruct xs; simpl in *; lia.
  - apply Nat.leb_gt in E. rewrite length_app. simpl. lia.
Qed.

Lemma pending_delays_length t prev (xs : list Q) :
  (List.length xs <= delay_history_length)%nat ->
  (List.length (pending_delays t prev xs) <= delay_history_length)%nat.
Proof.
  intros H. destruct prev; simpl; [now apply deque_append_length | exact H].
Qed.

(** A mean gap strictly between 0 and 1 gives a multiplier of at least 2. *)
Lemma ceiling_inverse_ge_2 (m : Q) :
  (0 < m)%Q -> (m < 1)%Q -> 2 <= Qceiling (delay_limit / m).
Proof.
  intros Hpos Hlt. unfold delay_limit.
  assert (H1 : (1 < 1 / m)%Q).
  { apply Qlt_shift_div_l; [exact Hpos |]. now rewrite Qmult_1_l. }
  pose proof (Qle_ceiling (1 / m)) as H2.
  assert (H3 : (inject_Z 1 < inject_Z (Qceiling (1 / m)))%Q).
  { eapply Qlt_le_trans; [exact H1 | exact H2]. }
  rewrite <- Zlt_Qlt in H3. lia.
Qed.

Lemma count_advisory_started (Tensor M : Type) (s : GenStatus)
      (rest : list (Event Tensor M)) :
  count_events is_advisory
    (match s with NotStarted => [TableStart] | _ => [] end ++ rest) =
  count_events is_advisory rest.
Proof. destruct s; reflexivity. Qed.

(** C8 (the code misses a case): the claim holds for a positive mean gap,
    and the code has no guard for the others.  With a clock that is set back
    between readings the ten gaps average -1/2, which is below the
    one-second floor: the interval 1 is multiplied by
    [ceil(1 / (-1/2)) = -2] and becomes -2, so it does not increase and the
    multiplier is not at least 2; a run of twelve epochs on that clock
    announces the interval -2.  With a clock that stands still the ten gaps
    average 0: the division gives [inf], [math.ceil] raises
    [OverflowError], and a run of twelve epochs ends with that exception
    after the row of epoch 11, without an advisory. *)
Lemma C8_unguarded_mean_gap :
  let g := mkSummary Suspended 1 (Some (20 # 1))
                     (repeat (- (1 # 2))%Q 9) in
  let '(_, result, g') :=
    show_epoch_summary_step (unit_env backward_clock) (network_at 11) (39 # 2) g in
  let delays := pending_delays (39 # 2) (prev_summary_time g)
                               (terminal_output_delays g) in
  let back :=
    _train (unit_env backward_clock) (stopping_class 0) tt None None None 12 None
           (fresh_network (SEInt 1)) fresh_world in
  let still :=
    _train (unit_env frozen_clock) (stopping_class 0) tt None None None 12 None
           (fresh_network (SEInt 1)) fresh_world in
  List.length delays = 10%nat /\
  (mean delays < 1)%Q /\
  result = Ok (-2) /\
  g_show_epoch g' = -2 /\
  ~ g_show_epoch g < g_show_epoch g' /\
  ~ 2 <= Qceiling (1 / mean delays) /\
  fst (fst back) = Ok tt /\
  advised_intervals (trace (snd back)) = [-2] /\
  fst (fst still) = Raise OverflowError /\
  row_epochs (trace (snd still)) = [1; 2; 3; 4; 5; 6; 7; 8; 9; 10; 11] /\
  advised_intervals (trace (snd still)) = [].
Proof.
  vm_compute. repeat split; try discriminate; intros H;
    first [discriminate H | apply H; reflexivity].
Qed.

(** ** One successful pass of the loop body *)

Section StepFacts.

Variables Tensor M : Type.
Variable env : Env Tensor M.
Variable cls : NetworkClass Tensor M.

(** [next(epoch_summary)] on a generator that has not ended, by its step. *)
Lemma next_epoch_summary_eq (st : State Tensor M) :
  status (epoch_summary (locals st)) <> Finished ->
  next_epoch_summary env st =
  (snd (fst (show_epoch_summary_step env (self st) (clock env (ticks (world st)))
                                     (epoch_summary (locals st)))),
   mkState (self st)
           (mkWorld (S (ticks (world st))) (rng (world st))
                    (trace (world st) ++
                     fst (fst (show_epoch_summary_step
                                 env (self st) (clock env (ticks (world st)))
                                 (epoch_summary (locals st))))))
           (set_summary
              (snd (show_epoch_summary_step env (self st)
                                            (clock env (ticks (world st)))
                                            (epoch_summary (locals st))))
              (locals st))).
Proof.
  intros Hs. unfold next_epoch_summary. rewrite run_get_locals.
  destruct (status (epoch_summary (locals st))) eqn:E; try congruence;
    rewrite run_now, run_get_self; cbn [self world locals ticks rng trace];
    destruct (show_epoch_summary_step env (self st) (clock env (ticks (world st)))
                                      (epoch_summary (locals st)))
      as [[evs r] g];
    rewrite run_emit_all, run_modify_locals; cbn [self world locals ticks rng trace fst snd];
    destruct r; reflexivity.
Qed.

Variable held_out : HeldOut Tensor M.
Variable e : Z.

Hypothesis held_out_ok :
  forall pe xt yt, held_out = Some (pe, xt, yt) ->
                   forall n, exists eo, fst (pe n xt yt) = Ok eo.
Hypothesis signal_ok :
  forall f, epoch_end_signal cls = Some f -> forall n, fst (f n) = Ok tt.

(** What the yield of the generator is required to satisfy. *)
Variable R : Z -> Summary -> Prop.

Lemma train_attempt_ok t0 (st : State Tensor M) err m1 :
  train_epoch cls (self st) (l_input_train (locals st)) (l_target_train (locals st))
    = (Ok err, m1) ->
  epoch (self st) = Some e ->
  l_show_epoch (locals st) <> 0 ->
  status (epoch_summary (locals st)) <> Finished ->
  (forall n, epoch n = Some e ->
             exists evs k g',
               show_epoch_summary_step env n (clock env (S (ticks (world st))))
                                       (epoch_summary (locals st)) = (evs, Ok k, g') /\
               R k g') ->
  exists st',
    train_attempt env cls held_out e t0 st = (Ok tt, st') /\
    errors_in (self st') = errors_in (self st) ++ [err] /\
    epoch (self st') = Some e /\
    (held_out = None -> epoch_end_signal cls = None -> model (self st') = m1) /\
    rng (world st') = rng (world st) /\
    l_input_train (locals st') = l_input_train (locals st) /\
    l_target_train (locals st') = l_target_train (locals st) /\
    l_epoch (locals st') = l_epoch (locals st) /\
    ((ticks (world st') = S (ticks (world st)) /\
      epoch_summary (locals st') = epoch_summary (locals st) /\
      l_show_epoch (locals st') = l_show_epoch (locals st) /\
      l_last_epoch_shown (locals st') = l_last_epoch_shown (locals st))
     \/
     (ticks (world st') = S (S (ticks (world st))) /\
      R (l_show_epoch (locals st')) (epoch_summary (locals st')) /\
      l_last_epoch_shown (locals st') = e)).
Proof.
  intros Htrain Hep Hshow Hstat Hsum.
  unfold train_attempt.
  rewrite run_get_locals, run_get_self, run_emit, run_call.
  cbn [self world locals ticks rng trace].
  rewrite Htrain. cbn [fst snd].
  (* the held-out error *)
  assert (Hheld :
    exists n1,
      (match held_out with
       | Some (prediction_error, input_test, target_test) =>
           pbind (get_self (M:=M)) (fun n =>
           pbind (emit (CallPredictionError n)) (fun _ =>
           pbind (call (fun n => prediction_error n input_test target_test))
                 (fun error_out => modify_self (append_error_out error_out))))
       | None => ret tt
       end)
        (mkState (with_model m1 (self st))
                 (mkWorld (ticks (world st)) (rng (world st))
                          (trace (world st) ++ [CallTrainEpoch (self st)]))
                 (locals st))
      = (Ok tt, n1) /\
      errors_in (self n1) = errors_in (self st) /\
      epoch (self n1) = Some e /\
      (held_out = None -> model (self n1) = m1) /\
      ticks (world n1) = ticks (world st) /\
      rng (world n1) = rng (world st) /\
      locals n1 = locals st).
  { destruct held_out as [[[pe xt] yt] |] eqn:Eho.
    - rewrite run_get_self, run_emit, run_call.
      cbn [self world locals ticks rng trace].
      destruct (held_out_ok eq_refl (with_model m1 (self st))) as [eo Heo].
      rewrite Heo. eexists. split; [reflexivity |].
      cbn. repeat split; try assumption. discriminate.
    - eexists. split; [reflexivity |]. cbn. repeat split; assumption. }
  destruct Hheld as [n1 [Hrun [He1 [Hp1 [Hm1 [Ht1 [Hr1 Hl1]]]]]]].
  rewrite pbind_eq, Hrun.
  rewrite run_modify_self, run_now, run_modify_self, run_get_locals.
  cbn [self world locals ticks rng trace].
  rewrite Hl1.
  destruct (l_show_epoch (locals st) =? 0) eqn:Ez; [apply Z.eqb_eq in Ez; congruence |].
  destruct ((e mod l_show_epoch (locals st) =? 0) || (e =? 1)) eqn:Edue.
  - (* a row is due *)
    rewrite pbind_assoc, pbind_eq.
    rewrite next_epoch_summary_eq
      by (cbn [locals]; exact Hstat).
    cbn [self world locals ticks rng trace].
    rewrite ?Hl1, ?Ht1.
    match goal with
    | |- context [show_epoch_summary_step env ?n ?t ?g] =>
        destruct (Hsum n) as [evs [k [g' [Hstep HR]]]]; [exact Hp1 |];
        rewrite Hstep
    end.
    cbn [fst snd].
    rewrite run_modify_locals. cbn [self world locals ticks rng trace].
    destruct (epoch_end_signal cls) as [f |] eqn:Esig.
    + rewrite run_get_self, run_emit.
      unfold call. cbn [self world locals].
      match goal with
      | |- context [f ?n] =>
          pose proof (signal_ok eq_refl n) as Hf; destruct (f n) as [r m2]
      end.
      cbn [fst] in Hf. subst r.
      eexists. split; [reflexivity |].
      cbn. rewrite ?Hr1, ?Ht1, ?He1.
      repeat split; try discriminate; try exact Hp1.
      right. repeat split. exact HR.
    + eexists. split; [reflexivity |].
      cbn. rewrite ?Hr1, ?Ht1, ?He1.
      repeat split; try exact Hp1; try (intros H _; exact (Hm1 H)).
      right. repeat split. exact HR.
  - (* no row *)
    rewrite run_ret.
    destruct (epoch_end_signal cls) as [f |] eqn:Esig.
    + rewrite run_get_self, run_emit.
      unfold call. cbn [self world locals].
      match goal with
      | |- context [f ?n] =>
          pose proof (signal_ok eq_refl n) as Hf; destruct (f n) as [r m2]
      end.
      cbn [fst] in Hf. subst r.
      eexists. split; [reflexivity |].
      cbn. rewrite ?Hr1, ?Ht1, ?He1, ?Hl1.
      repeat split; try discriminate; try exact Hp1.
      left. repeat split.
    + eexists. split; [reflexivity |].
      cbn. rewrite ?Hr1, ?Ht1, ?He1, ?Hl1.
      repeat split; try exact Hp1; try (intros H _; exact (Hm1 H)).
      left. repeat split.
Qed.

End StepFacts.

(** ** The generator under its two invariants *)

Section GeneratorFacts.

Variables Tensor M : Type.
Variable env : Env Tensor M.

(** Below ten gaps the generator yields its interval unchanged. *)
Lemma step_short_buffer (n : Network Tensor M) t g b e :
  epoch n = Some e -> short_buffer b g -> (b < 9)%nat ->
  exists evs g',
    show_epoch_summary_step env n t g = (evs, Ok (g_show_epoch g), g') /\
    g_show_epoch g' = g_show_epoch g /\
    short_buffer (S b) g'.
Proof.
  intros Hep [Hst Hlen] Hb. unfold show_epoch_summary_step. rewrite Hep.
  assert (Hp : (List.length (pending_delays t (prev_summary_time g)
                                            (terminal_output_delays g)) <= S b)%nat).
  { unfold pending_delays, deque_append, delay_history_length.
    destruct (prev_summary_time g); [| lia].
    destruct (10 <=? List.length (terminal_output_delays g))%nat eqn:E.
    - apply Nat.leb_le in E. lia.
    - rewrite length_app. simpl. lia. }
  destruct (List.length _ =? delay_history_length)%nat eqn:E.
  - apply Nat.eqb_eq in E. unfold delay_history_length in E. lia.
  - do 2 eexists. split; [reflexivity |]. split; [reflexivity |].
    split; [discriminate | exact Hp].
Qed.

Lemma advancing_lt clock i j :
  advancing clock -> (i < j)%nat -> (clock i < clock j)%Q.
Proof.
  intros Ha Hlt. induction Hlt as [| j Hle IH].
  - apply Ha.
  - eapply Qlt_trans; [exact IH | apply Ha].
Qed.

Lemma sum_positive (xs : list Q) :
  Forall (fun d => (0 < d)%Q) xs -> xs <> [] -> (0 < fold_right Qplus 0 xs)%Q.
Proof.
  induction 1 as [| x xs Hx Hxs IH]; intros Hne; [congruence |].
  cbn [fold_right]. destruct xs as [| y ys].
  - cbn [fold_right]. lra.
  - assert (H0 : (0 < fold_right Qplus 0 (y :: ys))%Q) by (apply IH; discriminate).
    lra.
Qed.

Lemma mean_positive (xs : list Q) :
  Forall (fun d => (0 < d)%Q) xs -> xs <> [] -> (0 < mean xs)%Q.
Proof.
  intros Hpos Hne. unfold mean.
  apply Qlt_shift_div_l.
  - change 0%Q with (inject_Z 0). rewrite <- Zlt_Qlt.
    destruct xs; [congruence | simpl; lia].
  - rewrite Qmult_0_l. now apply sum_positive.
Qed.

Lemma pending_delays_positive t T g :
  advancing (clock env) -> sound_buffer (clock env) T g -> (T <= t)%nat ->
  Forall (fun d => (0 < d)%Q)
         (pending_delays (clock env t) (prev_summary_time g)
                         (terminal_output_delays g)).
Proof.
  intros Ha [_ [_ [Hpos Hprev]]] Hle. unfold pending_delays.
  destruct (prev_summary_time g) as [p |]; [| exact Hpos].
  destruct (Hprev p eq_refl) as [i [Hi Hp]]. subst p.
  assert (Hgap : (0 < clock env t - clock env i)%Q).
  { pose proof (advancing_lt (clock:=clock env) Ha (i:=i) (j:=t) ltac:(lia)). lra. }
  unfold deque_append.
  destruct (delay_history_length <=? List.length (terminal_output_delays g))%nat.
  - apply Forall_app. split; [| now constructor].
    destruct (terminal_output_delays g); [constructor |].
    now inversion Hpos.
  - apply Forall_app. split; [exact Hpos | now constructor].
Qed.

(** With an advancing clock the generator always yields, a positive
    interval, and stays sound. *)
Lemma step_sound_buffer (n : Network Tensor M) t T g e :
  advancing (clock env) ->
  epoch n = Some e -> sound_buffer (clock env) T g -> (T <= t)%nat ->
  exists evs k g',
    show_epoch_summary_step env n (clock env t) g = (evs, Ok k, g') /\
    1 <= k /\ g_show_epoch g' = k /\
    sound_buffer (clock env) (S t) g'.
Proof.
  intros Ha Hep Hs Hle.
  pose proof (pending_delays_positive Ha Hs Hle) as Hpos.
  destruct Hs as [Hst [HK [_ _]]].
  unfold show_epoch_summary_step. rewrite Hep.
  set (delays := pending_delays (clock env t) (prev_summary_time g)
                                (terminal_output_delays g)) in *.
  destruct (List.length delays =? delay_history_length)%nat eqn:E.
  - apply Nat.eqb_eq in E.
    assert (Hne : delays <> []).
    { intros H0. rewrite H0 in E. discriminate. }
    pose proof (mean_positive Hpos Hne) as Hm.
    destruct (Qle_bool delay_limit (mean delays)) eqn:Ele; cbn [negb].
    + do 3 eexists. split; [reflexivity |]. split; [exact HK |].
      split; [reflexivity |].
      repeat split; try discriminate; try assumption.
    + assert (Hlt : (mean delays < 1)%Q).
      { apply Qnot_le_lt. intros H1. apply Qle_bool_iff in H1.
        unfold delay_limit in Ele. congruence. }
      assert (E0 : Qeq_bool (mean delays) 0 = false).
      { destruct (Qeq_bool (mean delays) 0) eqn:Eq0; [| reflexivity].
        apply Qeq_bool_iff in Eq0. rewrite Eq0 in Hm.
        exfalso. exact (Qlt_irrefl 0 Hm). }
      rewrite E0.
      pose proof (ceiling_inverse_ge_2 Hm Hlt) as Hc.
      do 3 eexists. split; [reflexivity |].
      split; [nia |]. split; [reflexivity |].
      repeat split; try discriminate; cbn; try nia; try constructor.
  - do 3 eexists. split; [reflexivity |]. split; [exact HK |].
    split; [reflexivity |].
    repeat split; try discriminate; try assumption.
    cbn. intros p Hp. inversion Hp; subst. exists t. split; [lia | reflexivity].
Qed.

Lemma sound_buffer_later clock T T' g :
  sound_buffer clock T g -> (T <= T')%nat -> sound_buffer clock T' g.
Proof.
  intros [H1 [H2 [H3 H4]]] Hle. repeat split; try assumption.
  intros p Hp. destruct (H4 p Hp) as [i [Hi Hpi]]. exists i. split; [lia | exact Hpi].
Qed.

End GeneratorFacts.

(** ** The loop body, pass by pass *)

Section BodyFacts.

Variables Tensor M : Type.
Variable env : Env Tensor M.
Variable cls : NetworkClass Tensor M.
Variable held_out : HeldOut Tensor M.

(** Up to the [try] block: the epoch is stored, the clock is read once, the
    hook runs and the arrays may be shuffled. *)
Lemma epoch_body_eq flag e (st : State Tensor M) :
  exists st1,
    epoch_body env cls flag held_out e st =
    catch_stop e (train_attempt env cls held_out e (clock env (ticks (world st)))) st1 /\
    epoch (self st1) = epoch (epoch_start_update cls e (self st)) /\
    model (self st1) = model (epoch_start_update cls e (self st)) /\
    errors_in (self st1) = errors_in (epoch_start_update cls e (self st)) /\
    ticks (world st1) = S (ticks (world st)) /\
    trace (world st1) = trace (world st) /\
    l_epoch (locals st1) = Some e /\
    l_show_epoch (locals st1) = l_show_epoch (locals st) /\
    l_last_epoch_shown (locals st1) = l_last_epoch_shown (locals st) /\
    epoch_summary (locals st1) = epoch_summary (locals st).
Proof.
  unfold epoch_body.
  rewrite run_modify_locals, run_now, run_modify_self.
  cbn [self world locals ticks rng trace].
  destruct flag.
  - rewrite pbind_assoc, run_draw. cbv beta.
    rewrite pbind_assoc, run_get_locals. cbv beta.
    cbn [self world locals ticks rng trace].
    destruct (shuffle_train_data env _ _ _) as [x y].
    rewrite pbind_assoc, run_modify_locals. cbv beta.
    rewrite run_modify_self. cbn [self world locals ticks rng trace].
    eexists. split; [reflexivity |]. cbn. repeat split.
  - rewrite run_ret.
    eexists. split; [reflexivity |]. cbn. repeat split.
Qed.

(** A stop signal from [train_epoch] leaves the bookkeeping as it is. *)
Lemma train_attempt_stop e t0 (st : State Tensor M) msg m1 :
  train_epoch cls (self st) (l_input_train (locals st)) (l_target_train (locals st))
    = (Raise (StopNetworkTraining msg), m1) ->
  train_attempt env cls held_out e t0 st =
  (Raise (StopNetworkTraining msg),
   mkState (with_model m1 (self st))
           (mkWorld (ticks (world st)) (rng (world st))
                    (trace (world st) ++ [CallTrainEpoch (self st)]))
           (locals st)).
Proof.
  intros H. unfold train_attempt.
  rewrite run_get_locals, run_get_self, run_emit, run_call.
  cbn [self world locals ticks rng trace]. now rewrite H.
Qed.

Hypothesis held_out_ok :
  forall pe xt yt, held_out = Some (pe, xt, yt) ->
                   forall n, exists eo, fst (pe n xt yt) = Ok eo.
Hypothesis signal_ok :
  forall f, epoch_end_signal cls = Some f -> forall n, fst (f n) = Ok tt.

Variable R : Z -> Summary -> Prop.

(** A pass in which [train_epoch] returns an error value. *)
Lemma epoch_body_next flag e (st : State Tensor M) :
  epoch (epoch_start_update cls e (self st)) = Some e ->
  (forall n x y, epoch n = Some e ->
                 model n = model (epoch_start_update cls e (self st)) ->
                 exists err, fst (train_epoch cls n x y) = Ok err) ->
  l_show_epoch (locals st) <> 0 ->
  status (epoch_summary (locals st)) <> Finished ->
  (forall n, epoch n = Some e ->
             exists evs k g',
               show_epoch_summary_step env n (clock env (S (S (ticks (world st)))))
                                       (epoch_summary (locals st)) = (evs, Ok k, g') /\
               R k g') ->
  exists st' n_call x y,
    epoch_body env cls flag held_out e st = (Ok Next, st') /\
    epoch n_call = Some e /\
    model n_call = model (epoch_start_update cls e (self st)) /\
    errors_in (self st') =
      errors_in (epoch_start_update cls e (self st)) ++
      match fst (train_epoch cls n_call x y) with Ok err => [err] | Raise _ => [] end /\
    (exists err, fst (train_epoch cls n_call x y) = Ok err) /\
    epoch (self st') = Some e /\
    (held_out = None -> epoch_end_signal cls = None ->
     model (self st') = snd (train_epoch cls n_call x y)) /\
    l_epoch (locals st') = Some e /\
    ((ticks (world st') = S (S (ticks (world st))) /\
      epoch_summary (locals st') = epoch_summary (locals st) /\
      l_show_epoch (locals st') = l_show_epoch (locals st) /\
      l_last_epoch_shown (locals st') = l_last_epoch_shown (locals st))
     \/
     (ticks (world st') = S (S (S (ticks (world st)))) /\
      R (l_show_epoch (locals st')) (epoch_summary (locals st')) /\
      l_last_epoch_shown (locals st') = e)).
Proof.
  intros Hep Htrain Hshow Hstat Hsum.
  destruct (epoch_body_eq flag e st)
    as [st1 [Heq [He1 [Hm1 [Herr1 [Ht1 [_ [Hl1 [Hs1 [Hls1 Hg1]]]]]]]]]].
  rewrite Heq. unfold catch_stop.
  destruct (Htrain (self st1) (l_input_train (locals st1)) (l_target_train (locals st1)))
    as [err Herr]; [congruence | exact Hm1 |].
  destruct (train_epoch cls (self st1) (l_input_train (locals st1))
                        (l_target_train (locals st1))) as [r m1] eqn:Etr.
  cbn [fst] in Herr. subst r.
  destruct (@train_attempt_ok Tensor M env cls held_out e held_out_ok signal_ok R
              (clock env (ticks (world st))) st1 err m1 Etr) as [st' H].
  - congruence.
  - congruence.
  - congruence.
  - intros n Hn. rewrite Ht1, Hg1. now apply Hsum.
  - destruct H as [Hrun [Herrs [Hepo [Hmod [_ [_ [_ [Hle Hcases]]]]]]]].
    rewrite Hrun.
    exists st', (self st1), (l_input_train (locals st1)), (l_target_train (locals st1)).
    rewrite Etr. cbn [fst snd].
    split; [reflexivity |].
    split; [rewrite He1; exact Hep |].
    split; [exact Hm1 |].
    split; [rewrite Herrs, Herr1; reflexivity |].
    split; [exists err; reflexivity |].
    split; [exact Hepo |].
    split; [exact Hmod |].
    split; [rewrite Hle; exact Hl1 |].
    destruct Hcases as [[Ha [Hb [Hc Hd]]] | [Ha [Hb Hc]]].
    + left. rewrite Ha, Hb, Hc, Hd, Ht1, Hg1, Hs1, Hls1. repeat split.
    + right. rewrite Ha, Hc, Ht1. repeat split. exact Hb.
Qed.

(** A pass in which [train_epoch] raises the stop signal. *)
Lemma epoch_body_break flag e (st : State Tensor M) :
  (forall n x y, epoch n = epoch (epoch_start_update cls e (self st)) ->
                 exists msg, fst (train_epoch cls n x y) =
                             Raise (StopNetworkTraining msg)) ->
  exists st' msg,
    epoch_body env cls flag held_out e st = (Ok Break, st') /\
    errors_in (self st') = errors_in (epoch_start_update cls e (self st)) /\
    epoch (self st') = epoch (epoch_start_update cls e (self st)) /\
    l_epoch (locals st') = Some e /\
    l_show_epoch (locals st') = l_show_epoch (locals st) /\
    l_last_epoch_shown (locals st') = l_last_epoch_shown (locals st) /\
    epoch_summary (locals st') = epoch_summary (locals st) /\
    exists n,
      trace (world st') =
      trace (world st) ++ [CallTrainEpoch n; Log (MsgEpochStopped e msg)].
Proof.
  intros Hstop.
  destruct (epoch_body_eq flag e st)
    as [st1 [Heq [He1 [Hm1 [Herr1 [Ht1 [Htr1 [Hl1 [Hs1 [Hls1 Hg1]]]]]]]]]].
  rewrite Heq. unfold catch_stop.
  destruct (Hstop (self st1) (l_input_train (locals st1)) (l_target_train (locals st1)))
    as [msg Hmsg]; [exact He1 |].
  destruct (train_epoch cls (self st1) (l_input_train (locals st1))
                        (l_target_train (locals st1))) as [r m1] eqn:Etr.
  cbn [fst] in Hmsg. subst r.
  rewrite (@train_attempt_stop e (clock env (ticks (world st))) st1 msg m1 Etr).
  rewrite run_emit. cbn [self world locals ticks rng trace].
  eexists. exists msg. split; [reflexivity |].
  cbn. repeat split; try assumption.
  exists (self st1). rewrite Htr1. now rewrite <- app_assoc.
Qed.

End BodyFacts.

(** ** The loop and what surrounds it *)

Section LoopRule.

Variables Tensor M : Type.
Variable env : Env Tensor M.
Variable cls : NetworkClass Tensor M.

(** An invariant carried through [a] passes that all continue. *)
Lemma for_epochs_prefix (I : Z -> State Tensor M -> Prop)
      (body : Z -> Py Tensor M Flow) (a b : nat) :
  forall e0 st,
    (forall k st, (k < a)%nat -> I (e0 + Z.of_nat k) st ->
                  exists st', body (e0 + Z.of_nat k) st = (Ok Next, st') /\
                              I (e0 + Z.of_nat k + 1) st') ->
    I e0 st ->
    exists st',
      for_epochs env (a + b) e0 RangeIter body st =
      for_epochs env b (e0 + Z.of_nat a) RangeIter body st' /\
      I (e0 + Z.of_nat a) st'.
Proof.
  induction a as [| a IH]; intros e0 st Hstep HI.
  - exists st. cbn [plus Z.of_nat]. rewrite Z.add_0_r. auto.
  - cbn [plus for_epochs iter_yields].
    destruct (Hstep 0%nat st ltac:(lia)) as [st1 [Hb HI1]].
    { cbn [Z.of_nat]. now rewrite Z.add_0_r. }
    cbn [Z.of_nat] in Hb, HI1. rewrite Z.add_0_r in Hb, HI1. rewrite Hb.
    destruct (IH (e0 + 1) st1) as [st' [Hrun HI']].
    + intros k st2 Hk HI2.
      destruct (Hstep (S k) st2 ltac:(lia)) as [st3 [Hb3 HI3]].
      * replace (e0 + Z.of_nat (S k)) with (e0 + 1 + Z.of_nat k) by lia. exact HI2.
      * replace (e0 + Z.of_nat (S k)) with (e0 + 1 + Z.of_nat k) in Hb3, HI3 by lia.
        eauto.
    + exact HI1.
    + exists st'. rewrite Hrun.
      replace (e0 + Z.of_nat (S a)) with (e0 + 1 + Z.of_nat a) by lia. auto.
Qed.

(** A run on a fixed number of epochs, up to its loop. *)
Lemma train_run_range input_test target_test epochs (st : State Tensor M) :
  (input_test = None \/ target_test = None \/ prediction_error cls <> None) ->
  exists st1 held_out,
    train_run env cls input_test target_test epochs None false st =
    pbind (for_epochs env (Z.to_nat epochs) 1 RangeIter
                      (epoch_body env cls (shuffle_data (self st)) held_out))
          (fun _ => after_loop env cls) st1 /\
    (forall pe a b, held_out = Some (pe, a, b) -> prediction_error cls = Some pe) /\
    (input_test = None \/ target_test = None -> held_out = None) /\
    self st1 = with_train_data (Some (l_input_train (locals st)))
                               (l_target_train (locals st)) (self st) /\
    locals st1 = locals st /\
    ticks (world st1) = ticks (world st) /\
    exists evs,
      trace (world st1) = trace (world st) ++ evs /\
      count_events is_train_epoch_call evs = 0%nat /\
      count_events is_train_end_call evs = 0%nat.
Proof.
  intros Hpe. unfold train_run.
  rewrite run_ret, run_get_locals, run_emit, run_emit.
  cbn [self world locals ticks rng trace].
  destruct input_test as [xt |].
  - rewrite run_emit, run_emit, run_emit, run_get_self.
    cbn [self world locals ticks rng trace]. cbv zeta.
    destruct target_test as [yt |].
    + destruct (prediction_error cls) as [pe |] eqn:Epe.
      * rewrite run_ret, run_modify_self.
        cbn [self world locals ticks rng trace].
        do 2 eexists. split; [reflexivity |].
        cbn [self world locals ticks rng trace].
        split; [intros ? ? ? H; inversion H; reflexivity |].
        split; [intros [H | H]; discriminate |].
        repeat split. eexists. rewrite <- !app_assoc. split; [reflexivity |].
        split; reflexivity.
      * destruct Hpe as [H | [H | H]]; congruence.
    + rewrite run_ret, run_modify_self.
      cbn [self world locals ticks rng trace].
      do 2 eexists. split; [reflexivity |].
      cbn [self world locals ticks rng trace].
      split; [intros ? ? ? H; discriminate |].
      split; [reflexivity |].
      repeat split. eexists. rewrite <- !app_assoc. split; [reflexivity |].
      split; reflexivity.
  - rewrite run_ret, run_emit, run_emit, run_get_self.
    cbn [self world locals ticks rng trace]. cbv zeta.
    rewrite run_ret, run_modify_self.
    cbn [self world locals ticks rng trace].
    do 2 eexists. split; [reflexivity |].
    cbn [self world locals ticks rng trace].
    split; [intros ? ? ? H; discriminate |].
    split; [reflexivity |].
    repeat split. eexists. rewrite <- !app_assoc. split; [reflexivity |].
    split; reflexivity.
Qed.

(** What follows a loop that has run, when the generator yields and the
    end-of-training callback returns. *)
Lemma after_loop_ok e (st : State Tensor M) :
  l_epoch (locals st) = Some e ->
  status (epoch_summary (locals st)) <> Finished ->
  (e <> l_last_epoch_shown (locals st) ->
   exists evs k g',
     show_epoch_summary_step env (self st) (clock env (ticks (world st)))
                             (epoch_summary (locals st)) = (evs, Ok k, g')) ->
  (forall f, train_end_signal cls = Some f -> forall n, fst (f n) = Ok tt) ->
  exists st',
    after_loop env cls st = (Ok tt, st') /\
    errors_in (self st') = errors_in (self st) /\
    (train_end_signal cls = None -> model (self st') = model (self st)) /\
    exists evs,
      trace (world st') = trace (world st) ++ evs /\
      count_events is_train_epoch_call evs = 0%nat /\
      count_events is_train_end_call evs =
        match train_end_signal cls with Some _ => 1%nat | None => 0%nat end.
Proof.
  intros Hle Hstat Hsum Hend. unfold after_loop.
  rewrite run_get_locals, Hle.
  assert (Hfirst :
    exists st1,
      (if negb (e =? l_last_epoch_shown (locals st))
       then pbind (next_epoch_summary env) (fun _ => ret tt)
       else ret tt) st = (Ok tt, st1) /\
      self st1 = self st /\
      status (epoch_summary (locals st1)) <> Finished /\
      exists evs,
        trace (world st1) = trace (world st) ++ evs /\
        forallb is_table_event evs = true).
  { destruct (e =? l_last_epoch_shown (locals st)) eqn:E; cbn [negb].
    - exists st. repeat split; try assumption.
      exists []. now rewrite app_nil_r.
    - apply Z.eqb_neq in E. destruct (Hsum E) as [evs [k [g' Hstep]]].
      rewrite pbind_eq, (next_epoch_summary_eq env st Hstat).
      pose proof (step_events_table env (self st) (clock env (ticks (world st)))
                                    (epoch_summary (locals st))) as Hev.
      assert (Hg' : status g' <> Finished).
      { revert Hstep. unfold show_epoch_summary_step.
        destruct (epoch (self st)); [| discriminate].
        repeat match goal with
               | |- context [if ?c then _ else _] => destruct c
               end;
          intros H; inversion H; subst; discriminate. }
      rewrite Hstep in *. cbn [fst snd] in *.
      eexists. split; [reflexivity |]. cbn. repeat split; try assumption.
      exists evs. auto. }
  destruct Hfirst as [st1 [Hrun [Hself [Hstat1 [evs1 [Htr1 Hev1]]]]]].
  rewrite pbind_eq, Hrun.
  assert (Hclose :
    forall st2 : State Tensor M,
      status (epoch_summary (locals st2)) <> Finished ->
      exists st3 evs,
        pbind (close_epoch_summary (Tensor:=Tensor) (M:=M))
              (fun _ => emit (Log MsgEndTrain)) st2 = (Ok tt, st3) /\
        self st3 = self st2 /\
        trace (world st3) = trace (world st2) ++ evs /\
        count_events is_train_epoch_call evs = 0%nat /\
        count_events is_train_end_call evs = 0%nat).
  { intros st2 Hs2. unfold close_epoch_summary.
    rewrite pbind_assoc, run_get_locals.
    destruct (status (epoch_summary (locals st2))); try congruence.
    - rewrite run_modify_locals. do 2 eexists. split; [reflexivity |].
      cbn. repeat split.
    - unfold summary_finally. rewrite pbind_assoc, run_emit_all.
      cbv beta. rewrite run_modify_locals.
      do 2 eexists. split; [reflexivity |].
      cbn. rewrite <- app_assoc. repeat split. }
  destruct (train_end_signal cls) as [f |] eqn:Esig.
  - rewrite pbind_assoc, run_get_self, pbind_assoc, run_emit.
    cbv beta. rewrite run_call. cbn [self world locals ticks rng trace].
    rewrite (Hend f eq_refl).
    match goal with
    | |- exists st', pbind _ _ ?s = _ /\ _ =>
        destruct (Hclose s) as [st3 [evs3 [Hrun3 [Hs3 [Htr3 [Hc3 Hd3]]]]]];
        [exact Hstat1 |]
    end.
    exists st3. split; [exact Hrun3 |].
    rewrite Hs3. cbn [self errors_in with_model].
    split; [now rewrite Hself |]. split; [discriminate |].
    exists (evs1 ++ [CallTrainEndSignal (self st1)] ++ evs3).
    rewrite Htr3. cbn [world trace]. rewrite Htr1.
    rewrite <- !app_assoc. split; [reflexivity |].
    rewrite !count_events_app, Hc3, Hd3.
    rewrite (count_events_none is_train_epoch_call is_table_event evs1);
      [| intros ev; destruct ev; simpl; congruence | exact Hev1].
    rewrite (count_events_none is_train_end_call is_table_event evs1);
      [| intros ev; destruct ev; simpl; congruence | exact Hev1].
    split; reflexivity.
  - rewrite run_ret.
    destruct (Hclose st1 Hstat1) as [st3 [evs3 [Hrun3 [Hs3 [Htr3 [Hc3 Hd3]]]]]].
    exists st3. split; [exact Hrun3 |].
    rewrite Hs3, Hself. split; [reflexivity |]. split; [reflexivity |].
    exists (evs1 ++ evs3). rewrite Htr3, Htr1, <- app_assoc.
    split; [reflexivity |].
    rewrite !count_events_app, Hc3, Hd3.
    rewrite (count_events_none is_train_epoch_call is_table_event evs1);
      [| intros ev; destruct ev; simpl; congruence | exact Hev1].
    rewrite (count_events_none is_train_end_call is_table_event evs1);
      [| intros ev; destruct ev; simpl; congruence | exact Hev1].
    split; reflexivity.
Qed.

End LoopRule.

(** ** Early stop *)

Lemma short_buffer_weaken b b' g :
  short_buffer b g -> (b <= b')%nat -> short_buffer b' g.
Proof. intros [H1 H2] Hle. split; [exact H1 | lia]. Qed.

Section EarlyStop.

Variables Tensor M : Type.
Variable env : Env Tensor M.
Variable cls : NetworkClass Tensor M.

Hypothesis hook_extends_base :
  forall e n, exists m, epoch_start_update cls e n = with_model m (with_epoch e n).

Lemma hook_epoch e n : epoch (epoch_start_update cls e n) = Some e.
Proof. destruct (hook_extends_base e n) as [m H]. now rewrite H. Qed.

Lemma hook_errors_in e n : errors_in (epoch_start_update cls e n) = errors_in n.
Proof. destruct (hook_extends_base e n) as [m H]. now rewrite H. Qed.

Lemma epoch_events_not_calls (evs : list (Event Tensor M)) :
  forallb is_epoch_event evs = true ->
  count_events is_train_epoch_call evs = 0%nat /\
  count_events is_train_end_call evs = 0%nat.
Proof.
  intros H. split; eapply count_events_none; try exact H;
    intros ev; destruct ev as [| | | | | m | | | |]; try destruct m;
    simpl; congruence.
Qed.

Variable held_out : HeldOut Tensor M.
Variable flag : bool.
Variable stop_at : Z.
Variable K0 : Z.
Variable n0 : nat.
Variable t0 : list (Event Tensor M).

Hypothesis K0_positive : 1 <= K0.
Hypothesis stop_at_small : 1 <= stop_at <= 9.
Hypothesis held_out_ok :
  forall pe xt yt, held_out = Some (pe, xt, yt) ->
                   forall n, exists eo, fst (pe n xt yt) = Ok eo.
Hypothesis signal_ok :
  forall f, epoch_end_signal cls = Some f -> forall n, fst (f n) = Ok tt.
Hypothesis train_ok :
  forall n a b e, epoch n = Some e -> 1 <= e < stop_at ->
                  exists err, fst (train_epoch cls n a b) = Ok err.

#[local] Abbreviation before := (before_pass n0 K0 t0).

Lemma early_pass e (st : State Tensor M) :
  1 <= e < stop_at -> before e st ->
  exists st', epoch_body env cls flag held_out e st = (Ok Next, st') /\
              before (e + 1) st'.
Proof.
  intros He [Hlen [Hshow [Hg [Hbuf [Hlast [evs [Htr [Hc1 Hc2]]]]]]]].
  destruct (@epoch_body_next Tensor M env cls held_out held_out_ok signal_ok
              (fun k g' => k = K0 /\ g_show_epoch g' = K0 /\
                           short_buffer (S (Z.to_nat (e - 1))) g')
              flag e st) as [st' [n_call [x [y H]]]].
  - apply hook_epoch.
  - intros n a b Hn _. now apply (train_ok n a b Hn).
  - lia.
  - apply Hbuf.
  - intros n Hn.
    destruct (step_short_buffer env n
                (clock env (S (S (ticks (world st))))) Hn Hbuf)
      as [evs1 [g' [Hstep [Hg' Hb']]]]; [lia |].
    exists evs1, (g_show_epoch (epoch_summary (locals st))), g'.
    split; [exact Hstep |]. rewrite Hg', Hg. auto.
  - destruct H as [Hrun [_ [_ [Herrs [[err Herr] [_ [_ [_ Hcases]]]]]]]].
    rewrite Herr, hook_errors_in in Herrs.
    destruct (epoch_body_trace env cls flag held_out e st)
      as [snap [evs' [Htr' [Hev' _]]]].
    rewrite Hrun in Htr'. cbn [snd] in Htr'.
    destruct (epoch_events_not_calls _ Hev') as [Hn1 Hn2].
    exists st'. split; [exact Hrun |].
    unfold before_pass. replace (e + 1 - 1) with e by lia.
    assert (Hnat : Z.to_nat e = S (Z.to_nat (e - 1))) by lia.
    split.
    { rewrite Herrs, length_app, Hlen. simpl. lia. }
    assert (Htrace :
      exists evs0,
        trace (world st') = t0 ++ evs0 /\
        count_events is_train_epoch_call evs0 = Z.to_nat e /\
        count_events is_train_end_call evs0 = 0%nat).
    { exists (evs ++ CallTrainEpoch snap :: evs').
      rewrite Htr', Htr, <- app_assoc. split; [reflexivity |].
      rewrite !count_events_app, Hc1, Hc2.
      change (CallTrainEpoch snap :: evs') with ([CallTrainEpoch snap] ++ evs').
      rewrite !count_events_app, Hn1, Hn2. cbn. split; lia. }
    destruct Hcases as [[_ [Hs [Hk Hl]]] | [_ [[Hk [Hgk Hb]] Hl]]].
    + rewrite Hs, Hk, Hl. repeat split; try assumption; try lia.
      * apply Hbuf.
      * destruct Hbuf as [_ Hb]. lia.
    + rewrite Hl. repeat split; try assumption; try lia.
      * apply Hb.
      * destruct Hb as [_ Hb]. lia.
Qed.

Hypothesis train_stops :
  forall n a b, epoch n = Some stop_at ->
                exists msg, fst (train_epoch cls n a b) =
                            Raise (StopNetworkTraining msg).
Hypothesis train_end_ok :
  forall f, train_end_signal cls = Some f -> forall n, fst (f n) = Ok tt.

(** The loop and what follows it, from a state in which nothing of the run
    has happened yet. *)
Lemma stopped_run (rest : nat) (st : State Tensor M) :
  before 1 st ->
  exists st' evs msg,
    pbind (for_epochs env (Z.to_nat (stop_at - 1) + S rest) 1 RangeIter
                      (epoch_body env cls flag held_out))
          (fun _ => after_loop env cls) st = (Ok tt, st') /\
    trace (world st') = t0 ++ evs /\
    List.length (errors_in (self st')) = (n0 + Z.to_nat (stop_at - 1))%nat /\
    count_events is_train_epoch_call evs = Z.to_nat stop_at /\
    In (Log (MsgEpochStopped stop_at msg)) evs /\
    count_events is_train_end_call evs =
      match train_end_signal cls with Some _ => 1%nat | None => 0%nat end.
Proof.
  intros Hbefore.
  destruct (@for_epochs_prefix Tensor M env before
              (epoch_body env cls flag held_out)
              (Z.to_nat (stop_at - 1)) (S rest) 1 st) as [st1 [Hrun H1]].
  - intros k st2 Hk Hb. apply early_pass; [lia | exact Hb].
  - exact Hbefore.
  - replace (1 + Z.of_nat (Z.to_nat (stop_at - 1))) with stop_at in * by lia.
    rewrite pbind_eq, Hrun. cbn [for_epochs iter_yields].
    destruct (epoch_body_break env cls held_out flag stop_at st1)
      as [st2 [msg [Hbody [Herrs [Hep [Hle [Hshow [Hlast [Hg [snap Htr]]]]]]]]]].
    { intros n a b Hn. apply train_stops. now rewrite Hn, hook_epoch. }
    rewrite Hbody.
    destruct H1 as [Hlen [_ [_ [Hbuf [Hlt [evs [Htr1 [Hc1 Hc2]]]]]]]].
    rewrite hook_epoch in Hep. rewrite hook_errors_in in Herrs.
    destruct (@after_loop_ok Tensor M env cls stop_at st2) as [st3 H3].
    + exact Hle.
    + rewrite Hg. apply Hbuf.
    + intros _. rewrite Hg.
      destruct (step_short_buffer env (self st2) (clock env (ticks (world st2)))
                  Hep Hbuf) as [evs1 [g' [Hstep _]]]; [lia |].
      eauto.
    + exact train_end_ok.
    + destruct H3 as [Hrun3 [Herr3 [_ [evs3 [Htr3 [Hc3 Hd3]]]]]].
      exists st3, (evs ++ [CallTrainEpoch snap; Log (MsgEpochStopped stop_at msg)] ++ evs3),
             msg.
      split; [exact Hrun3 |].
      split; [rewrite Htr3, Htr, Htr1, <- !app_assoc; reflexivity |].
      split; [rewrite Herr3, Herrs; exact Hlen |].
      rewrite !count_events_app, Hc1, Hc2, Hc3, Hd3. cbn.
      split; [lia |]. split; [| reflexivity].
      apply in_or_app. right. cbn. auto.
Qed.

End EarlyStop.

(** C1 (the claim as stated fails): when [train_epoch] raises the stop signal
    on epoch 7 of a run of 100 epochs, the error of epoch 7 is never
    appended: the run ends with six training errors, not seven.  It made
    seven calls of [train_epoch], rendered rows for the epochs 1 and 7 and
    called [train_end_signal] once. *)
Lemma C1_counterexample :
  let '(r, net', w') :=
    _train (unit_env second_clock) (stopping_class 7) tt None None None
           100 None (fresh_network (SEStr "10 times")) fresh_world in
  r = Ok tt /\
  List.length (errors_in net') = 6%nat /\
  List.length (errors_in net') <> 7%nat /\
  count_events is_train_epoch_call (trace w') = 7%nat /\
  row_epochs (trace w') = [1; 7] /\
  count_events is_train_end_call (trace w') = 1%nat.
Proof. vm_compute. repeat split. discriminate. Qed.

(** C1 (amended): when [train_epoch] returns an error on the epochs 1 to 6
    and raises the stop signal on epoch 7 of a run requested with
    [epochs = 100], the call returns normally, [errors_in] has grown by
    exactly 6 entries (the stopped epoch appends none), exactly 7 calls of
    [train_epoch] were made (no epoch runs after epoch 7), the stop of epoch
    7 is logged, and [train_end_signal], when set, is called exactly once.
    The object is one the constructor accepts, its epoch-start hook extends
    the base one, and the callbacks and [prediction_error] return. *)
Theorem C1_stop_on_epoch_7
        (Tensor M : Type) (env : Env Tensor M) (cls : NetworkClass Tensor M)
        (input_train : Tensor) (target_train input_test target_test : option Tensor)
        (net : Network Tensor M) (w : World Tensor M) :
  ShowEpochProperty_validate (show_epoch net) = Ok tt ->
  (forall e n, exists m, epoch_start_update cls e n = with_model m (with_epoch e n)) ->
  (forall n a b e, epoch n = Some e -> 1 <= e < 7 ->
                   exists err, fst (train_epoch cls n a b) = Ok err) ->
  (forall n a b, epoch n = Some 7 ->
                 exists msg, fst (train_epoch cls n a b) =
                             Raise (StopNetworkTraining msg)) ->
  (input_test = None \/ target_test = None \/
   exists pe, prediction_error cls = Some pe /\
              forall n a b, exists eo, fst (pe n a b) = Ok eo) ->
  (forall f, epoch_end_signal cls = Some f -> forall n, fst (f n) = Ok tt) ->
  (forall f, train_end_signal cls = Some f -> forall n, fst (f n) = Ok tt) ->
  exists net' w' evs msg,
    _train env cls input_train target_train input_test target_test
           100 None net w = (Ok tt, net', w') /\
    trace w' = trace w ++ evs /\
    List.length (errors_in net') = (List.length (errors_in net) + 6)%nat /\
    count_events is_train_epoch_call evs = 7%nat /\
    In (Log (MsgEpochStopped 7 msg)) evs /\
    count_events is_train_end_call evs =
      match train_end_signal cls with Some _ => 1%nat | None => 0%nat end.
Proof.
  intros Hval Hhook Htrain Hstop Hpe Hsig Hend.
  unfold _train. destruct (is_feature1d cls net) as [f1 f2]. cbv iota.
  destruct (validate_parse_ok _ 100 Hval) as [K0 [Hparse HK]].
  unfold reporting_cadence. rewrite Hparse. cbn [bind].
  match goal with
  | |- context [train_run env cls ?xt ?yt 100 None false ?s] =>
      set (st0 := s);
      destruct (@train_run_range Tensor M env cls xt yt 100 st0)
        as [st1 [ho [Hrun [Hho1 [Hho2 [Hself [Hloc [Htk [evs0 [Htr0 [Hc0 Hd0]]]]]]]]]]]
  end.
  { destruct Hpe as [H | [H | [pe [H _]]]].
    - left. now rewrite H.
    - right. left. now rewrite H.
    - right. right. congruence. }
  rewrite Hrun.
  change (Z.to_nat 100) with (Z.to_nat (7 - 1) + S 93)%nat.
  destruct (@stopped_run Tensor M env cls Hhook ho (shuffle_data (self st0)) 7 K0
              (List.length (errors_in net)) (trace w ++ evs0) HK ltac:(lia))
    with (rest := 93%nat) (st := st1)
    as [st' [evs [msg [Hfin [Htr [Hlen [Hc [Hin Hd]]]]]]]].
  - intros pe xt yt Hho n.
    pose proof (Hho1 _ _ _ Hho) as Hcls.
    destruct Hpe as [H | [H | [pe' [H Hok]]]].
    + assert (Hn : ho = None).
      { apply Hho2. left. now rewrite H. }
      congruence.
    + assert (Hn : ho = None).
      { apply Hho2. right. now rewrite H. }
      congruence.
    + assert (pe = pe') by congruence. subst pe'. apply Hok.
  - exact Hsig.
  - exact Htrain.
  - exact Hstop.
  - exact Hend.
  - unfold before_pass. rewrite Hself, Hloc. subst st0.
    cbn [self world locals errors_in with_train_data l_show_epoch
         l_last_epoch_shown epoch_summary g_show_epoch].
    replace (Z.to_nat (1 - 1)) with 0%nat by reflexivity.
    split; [lia |]. split; [reflexivity |]. split; [reflexivity |].
    split; [split; [discriminate | cbn; lia] |]. split; [lia |].
    exists []. rewrite app_nil_r, Htr0. cbn [world trace]. repeat split.
  - rewrite Hfin.
    exists (self st'), (world st'), (evs0 ++ evs), msg.
    split; [reflexivity |].
    split; [rewrite Htr, app_assoc; reflexivity |].
    split; [rewrite Hlen; reflexivity |].
    rewrite !count_events_app, Hc0, Hd0, Hc, Hd.
    split; [reflexivity |]. split; [| reflexivity].
    apply in_or_app. now right.
Qed.

Lemma C1_witness :
  exists net' w' evs msg,
    _train (unit_env second_clock) (stopping_class 7) tt None None None
           100 None (fresh_network (SEStr "10 times")) fresh_world
    = (Ok tt, net', w') /\
    trace w' = trace fresh_world ++ evs /\
    List.length (errors_in net') = 6%nat /\
    count_events is_train_epoch_call evs = 7%nat /\
    In (Log (MsgEpochStopped 7 msg)) evs /\
    count_events is_train_end_call evs = 1%nat.
Proof.
  apply (@C1_stop_on_epoch_7 unit unit (unit_env second_clock) (stopping_class 7)
           tt None None None (fresh_network (SEStr "10 times")) fresh_world).
  - reflexivity.
  - intros e n. exists (model n). now destruct n.
  - intros n a b e Hn He. cbn. rewrite Hn.
    destruct (e =? 7) eqn:E; [apply Z.eqb_eq in E; lia |]. now exists (Fin 1).
  - intros n a b Hn. cbn. rewrite Hn. now exists "stop"%string.
  - now left.
  - intros f Hf. discriminate.
  - intros f Hf n. cbn in Hf. inversion Hf. reflexivity.
Defined.

(** ** Step decay *)

Section StepDecay.

Variable Tensor : Type.
Variable backend : GraphBackend Tensor.
Variable init_param_updates : Layer -> SharedVar -> Updates Tensor.
Variable env : Env Tensor (Graph Tensor).

(** The rule reads the epoch counter and the first step, nothing else. *)
Lemma eval_new_step fs p e x y (s : Store Tensor) :
  s VarEpoch = VNum (Fin (inject_Z e)) -> 1 <= e -> 1 <= p ->
  eval backend (new_step fs p) x y s =
  VNum (Fin (fs / (1 + inject_Z e / inject_Z p))).
Proof.
  intros Hs He Hp. unfold new_step. cbn [eval]. rewrite Hs.
  cbn [value_div value_add num_div num_add].
  assert (Hp0 : Qeq_bool (inject_Z p) 0 = false).
  { destruct (Qeq_bool (inject_Z p) 0) eqn:E; [| reflexivity].
    apply Qeq_bool_iff in E. unfold Qeq in E. simpl in E. lia. }
  rewrite Hp0. cbn [value_add num_add value_div num_div].
  assert (Hpos : (0 < 1 + inject_Z e / inject_Z p)%Q).
  { assert (H0 : (0 <= inject_Z e / inject_Z p)%Q).
    { apply Qle_shift_div_l.
      - change 0%Q with (inject_Z 0). rewrite <- Zlt_Qlt. lia.
      - rewrite Qmult_0_l. change 0%Q with (inject_Z 0). rewrite <- Zle_Qle. lia. }
    lra. }
  assert (Hd0 : Qeq_bool (1 + inject_Z e / inject_Z p) 0 = false).
  { destruct (Qeq_bool (1 + inject_Z e / inject_Z p) 0) eqn:E; [| reflexivity].
    apply Qeq_bool_iff in E. rewrite E in Hpos. exfalso. exact (Qlt_irrefl 0 Hpos). }
  now rewrite Hd0.
Qed.

Variable g0 : Graph Tensor.
Variable connection : PyValue.
Variable fs : Q.
Variable p : Z.
Variable initial : Store Tensor.

Hypothesis built :
  ConstructableNetwork_init backend init_param_updates WithSimpleStepMinimization
                            connection fs p initial = Ok g0.
Hypothesis period_positive : 1 <= p.

Lemma decay_updates :
  fn_updates (m_train_epoch (methods g0)) =
  ConstructableNetwork_init_train_updates init_param_updates (train_layers g0)
  ++ [(VarStep, new_step fs p)].
Proof.
  destruct (ConstructableNetwork_init_ok _ _ _ _ _ _ _ built)
    as [Hm [_ [Hf [Hp _]]]].
  rewrite Hm. cbn [m_train_epoch fn_updates].
  unfold SimpleStepMinimization_init_train_updates. now rewrite Hf, Hp.
Qed.

(** A call of [train_epoch] at epoch [e]: an error comes back and the step
    becomes the first step over [1 + e / p]. *)
Lemma decay_train_epoch (n : Network Tensor (Graph Tensor)) s e x y :
  model n = with_shared s g0 ->
  s VarEpoch = VNum (Fin (inject_Z e)) -> 1 <= e ->
  exists err s',
    ConstructableNetwork_train_epoch backend n x y = (Ok err, with_shared s' g0) /\
    s' VarStep = VNum (Fin (fs / (1 + inject_Z e / inject_Z p))).
Proof.
  intros Hn Hs He.
  destruct (ConstructableNetwork_init_ok _ _ _ _ _ _ _ built)
    as [Hm [Hd [Hf [Hp [Herr _]]]]].
  unfold ConstructableNetwork_train_epoch. rewrite Hn.
  assert (Hmeth : methods (with_shared s g0) = methods g0) by reflexivity.
  assert (Hsh : shared (with_shared s g0) = s) by reflexivity.
  rewrite Hmeth, Hsh.
  pose proof (call_function_simultaneous backend (m_train_epoch (methods g0)) x y s)
    as Hcall.
  rewrite Hm in Hcall |- *. cbn [m_train_epoch fn_updates fn_outputs] in Hcall |- *.
  specialize (Hcall Hd). destruct Hcall as [Hout [Hin _]].
  destruct (call_function backend _ x y s) as [out s'] eqn:Ecall.
  cbn [fst snd] in Hout, Hin.
  rewrite Herr in Hout. cbn [eval] in Hout. rewrite Hout. cbn [as_error].
  do 2 eexists. split.
  - f_equal. now destruct g0.
  - rewrite (Hin VarStep (new_step fs p)).
    + now apply eval_new_step.
    + unfold SimpleStepMinimization_init_train_updates. rewrite Hf, Hp.
      apply in_or_app. right. now left.
Qed.

End StepDecay.

Section DecayRun.

Variable Tensor : Type.
Variable backend : GraphBackend Tensor.
Variable init_param_updates : Layer -> SharedVar -> Updates Tensor.
Variable env : Env Tensor (Graph Tensor).
Variable g0 : Graph Tensor.
Variable connection : PyValue.
Variable fs : Q.
Variable p : Z.
Variable initial : Store Tensor.
Variable n0 : nat.
Variable flag : bool.

Hypothesis built :
  ConstructableNetwork_init backend init_param_updates WithSimpleStepMinimization
                            connection fs p initial = Ok g0.
Hypothesis period_positive : 1 <= p.
Hypothesis clock_advances : advancing (clock env).

#[local] Abbreviation cls := (ConstructableNetwork_class backend None None).
#[local] Abbreviation before := (before_decay_pass (clock env) g0 fs p n0).

Lemma decay_pass e (st : State Tensor (Graph Tensor)) :
  1 <= e -> before e st ->
  exists st', epoch_body env cls flag None e st = (Ok Next, st') /\
              before (e + 1) st'.
Proof.
  intros He [[s [Hmodel _]] [Hshow [Hsound [_ Hlen]]]].
  assert (Hhook : model (epoch_start_update cls e (self st)) =
                  with_shared (set_value s VarEpoch (VNum (Fin (inject_Z e)))) g0).
  { cbn. rewrite Hmodel. reflexivity. }
  destruct (@epoch_body_next Tensor (Graph Tensor) env cls None
              ltac:(discriminate) ltac:(discriminate)
              (fun k g' => 1 <= k /\
                           sound_buffer (clock env) (S (S (S (ticks (world st))))) g')
              flag e st) as [st' [n_call [x [y H]]]].
  - reflexivity.
  - intros n a b Hn Hm. rewrite Hhook in Hm.
    destruct (@decay_train_epoch Tensor backend init_param_updates g0 connection
                fs p initial built period_positive n _ e a b Hm)
      as [err [s' [Hrun _]]].
    + unfold set_value. now rewrite SharedVar_eqb_refl.
    + exact He.
    + exists err.
      change (train_epoch cls n a b)
        with (ConstructableNetwork_train_epoch backend n a b).
      now rewrite Hrun.
  - lia.
  - apply Hsound.
  - intros n Hn.
    destruct (@step_sound_buffer Tensor (Graph Tensor) env n
                (S (S (ticks (world st)))) _ _ e clock_advances Hn Hsound)
      as [evs [k [g' [Hstep [Hk [_ Hs']]]]]];
      [lia |].
    exists evs, k, g'. auto.
  - destruct H as [Hrun [Hcall_epoch [Hcall_model [Herrs [[err Herr]
                     [Hepoch [Hmod [Hle Hcases]]]]]]]].
    rewrite Hhook in Hcall_model.
    destruct (@decay_train_epoch Tensor backend init_param_updates g0 connection
                fs p initial built period_positive n_call _ e x y Hcall_model)
      as [err' [s' [Htrain Hstep]]].
    { unfold set_value. now rewrite SharedVar_eqb_refl. }
    { exact He. }
    specialize (Hmod eq_refl eq_refl).
    change (train_epoch cls n_call x y)
      with (ConstructableNetwork_train_epoch backend n_call x y) in *.
    rewrite Htrain in Hmod, Herrs. cbn [fst snd] in Hmod, Herrs.
    exists st'. split; [exact Hrun |].
    unfold before_decay_pass. replace (e + 1 - 1) with e by lia.
    split; [exists s'; split; [exact Hmod | intros _; exact Hstep] |].
    assert (Hlen' : List.length (errors_in (self st')) = (n0 + Z.to_nat e)%nat).
    { rewrite Herrs, length_app.
      change (errors_in (epoch_start_update cls e (self st)))
        with (errors_in (self st)).
      rewrite Hlen. simpl. lia. }
    destruct Hcases as [[Ht [Hs [Hk Hl]]] | [Ht [[Hk Hs] Hl]]].
    + rewrite Hs, Hk, Ht. split; [exact Hshow |].
      split; [eapply sound_buffer_later; [exact Hsound | lia] |].
      split; [intros _; split; assumption | exact Hlen'].
    + rewrite Ht. split; [exact Hk |]. split; [exact Hs |].
      split; [intros _; split; assumption | exact Hlen'].
Qed.

(** The loop on [epochs] epochs and what follows it. *)
Lemma decay_run epochs (st : State Tensor (Graph Tensor)) :
  1 <= epochs -> before 1 st ->
  exists st' s,
    pbind (for_epochs env (Z.to_nat epochs) 1 RangeIter
                      (epoch_body env cls flag None))
          (fun _ => after_loop env cls) st = (Ok tt, st') /\
    model (self st') = with_shared s g0 /\
    s VarStep = VNum (Fin (fs / (1 + inject_Z epochs / inject_Z p))) /\
    List.length (errors_in (self st')) = (n0 + Z.to_nat epochs)%nat.
Proof.
  intros Hep Hbefore.
  destruct (@for_epochs_prefix Tensor (Graph Tensor) env before
              (epoch_body env cls flag None) (Z.to_nat epochs) 0 1 st)
    as [st1 [Hrun H1]].
  - intros k st2 Hk Hb. apply decay_pass; [lia | exact Hb].
  - exact Hbefore.
  - rewrite Nat.add_0_r in Hrun.
    replace (1 + Z.of_nat (Z.to_nat epochs)) with (epochs + 1) in * by lia.
    rewrite pbind_eq, Hrun. cbn [for_epochs ret].
    destruct H1 as [[s [Hmodel Hstep]] [Hshow [Hsound [Hprev Hlen]]]].
    replace (epochs + 1 - 1) with epochs in * by lia.
    destruct (Hprev ltac:(lia)) as [Hle Hepoch].
    destruct (@after_loop_ok Tensor (Graph Tensor) env cls epochs st1)
      as [st2 [Hfin [Herrs [Hmod _]]]].
    + exact Hle.
    + apply Hsound.
    + intros _.
      destruct (@step_sound_buffer Tensor (Graph Tensor) env (self st1)
                  (ticks (world st1)) _ _ epochs clock_advances Hepoch Hsound)
        as [evs [k [g' [Hstep' _]]]];
        [lia |].
      eauto.
    + discriminate.
    + exists st2, s. split; [exact Hfin |].
      split; [rewrite (Hmod eq_refl); exact Hmodel |].
      split; [apply Hstep; lia |].
      rewrite Herrs. exact Hlen.
Qed.

End DecayRun.

(** C5: the step-decay rule adds exactly one update to those of the base
    composer, the pair of the shared step and
    [first_step / (1 + epoch / epochs_step_minimizator)], where [first_step]
    is the step the constructor was given; its value depends on the epoch
    counter alone, not on the current step.  After a run of [epochs >= 1]
    epochs (no held-out data, no callbacks, a validated [show_epoch], a clock
    that advances between readings) the shared step is
    [first_step / (1 + epochs / period)]; with first step 0.3, period 50 and
    100 epochs that is 0.1. *)
Theorem C5_step_decay
        (Tensor : Type) (backend : GraphBackend Tensor)
        (init_param_updates : Layer -> SharedVar -> Updates Tensor)
        (env : Env Tensor (Graph Tensor))
        (connection : PyValue) (first_step : Q) (period : Z)
        (initial : Store Tensor) (g0 : Graph Tensor)
        (input_train : Tensor) (target_train input_test target_test : option Tensor)
        (epochs : Z) (net : Network Tensor (Graph Tensor))
        (w : World Tensor (Graph Tensor)) :
  ConstructableNetwork_init backend init_param_updates WithSimpleStepMinimization
                            connection first_step period initial = Ok g0 ->
  model net = g0 ->
  1 <= period ->
  1 <= epochs ->
  advancing (clock env) ->
  ShowEpochProperty_validate (show_epoch net) = Ok tt ->
  (input_test = None \/ target_test = None) ->
  fn_updates (m_train_epoch (methods g0)) =
    ConstructableNetwork_init_train_updates init_param_updates (train_layers g0)
    ++ [(VarStep, new_step first_step period)] /\
  (forall x y (s s' : Store Tensor),
      s VarEpoch = s' VarEpoch ->
      eval backend (new_step first_step period) x y s =
      eval backend (new_step first_step period) x y s') /\
  (exists net' w' s,
      _train env (ConstructableNetwork_class backend None None)
             input_train target_train input_test target_test epochs None net w
      = (Ok tt, net', w') /\
      model net' = with_shared s g0 /\
      s VarStep = VNum (Fin (first_step / (1 + inject_Z epochs / inject_Z period))) /\
      List.length (errors_in net') = (List.length (errors_in net) + Z.to_nat epochs)%nat) /\
  ((3 # 10) / (1 + inject_Z 100 / inject_Z 50) == 1 # 10)%Q.
Proof.
  intros Hbuilt Hmodel Hp Hepochs Hclock Hval Hheld.
  split; [exact (@decay_updates Tensor backend init_param_updates g0 connection
                   first_step period initial Hbuilt) |].
  split; [intros x y s s' Hs; unfold new_step; cbn [eval]; now rewrite Hs |].
  split; [| reflexivity].
  unfold _train. destruct (is_feature1d _ net) as [f1 f2]. cbv iota.
  destruct (validate_parse_ok _ epochs Hval) as [K0 [Hparse HK]].
  unfold reporting_cadence. rewrite Hparse. cbn [bind].
  match goal with
  | |- context [train_run env ?cls ?xt ?yt epochs None false ?s] =>
      set (st0 := s);
      destruct (@train_run_range Tensor (Graph Tensor) env cls xt yt epochs st0)
        as [st1 [ho [Hrun [_ [Hho [Hself [Hloc [Htk _]]]]]]]]
  end.
  { destruct Hheld as [H | H]; rewrite H; auto. }
  assert (Hnone : ho = None).
  { apply Hho. destruct Hheld as [H | H]; rewrite H; auto. }
  subst ho. rewrite Hrun.
  destruct (@decay_run Tensor backend init_param_updates env g0 connection
              first_step period initial (List.length (errors_in net))
              (shuffle_data (self st0)) Hbuilt Hp Hclock epochs st1 Hepochs)
    as [st' [s [Hfin [Hm [Hstep Hlen]]]]].
  - unfold before_decay_pass. rewrite Hself, Hloc, Htk. subst st0.
    cbn [self world locals errors_in with_train_data l_show_epoch model
         epoch_summary ticks].
    split.
    { exists (shared g0). split; [rewrite Hmodel; now destruct g0 | lia]. }
    split; [exact HK |].
    split.
    { repeat split; try discriminate; cbn; try assumption; try constructor. }
    split; [lia |]. cbn. lia.
  - rewrite Hfin. exists (self st'), (world st'), s. auto.
Qed.

Lemma second_clock_advances : advancing second_clock.
Proof.
  intros i. unfold second_clock. rewrite <- Zlt_Qlt. lia.
Qed.

Lemma C5_witness :
  exists g0 net' w' s,
    ConstructableNetwork_init unit_backend keep_param_updates
      WithSimpleStepMinimization (PyList [PyInt 2; PyInt 3; PyInt 1])
      (3 # 10) 50 zero_store = Ok g0 /\
    _train (unit_graph_env second_clock)
           (ConstructableNetwork_class unit_backend None None)
           tt (Some tt) None None 100 None
           (graph_network (SEStr "10 times") g0) (mkWorld 0 0 [])
    = (Ok tt, net', w') /\
    model net' = with_shared s g0 /\
    s VarStep = VNum (Fin ((3 # 10) / (1 + inject_Z 100 / inject_Z 50))).
Proof.
  destruct (ConstructableNetwork_init unit_backend keep_param_updates
              WithSimpleStepMinimization (PyList [PyInt 2; PyInt 3; PyInt 1])
              (3 # 10) 50 zero_store) as [g0 | exn] eqn:E;
    [| vm_compute in E; discriminate].
  destruct (@C5_step_decay unit unit_backend keep_param_updates
              (unit_graph_env second_clock)
              (PyList [PyInt 2; PyInt 3; PyInt 1]) (3 # 10) 50 zero_store g0
              tt (Some tt) None None 100
              (graph_network (SEStr "10 times") g0) (mkWorld 0 0 [])
              E eq_refl ltac:(lia) ltac:(lia) second_clock_advances eq_refl
              (or_introl eq_refl))
    as [_ [_ [[net' [w' [s [H1 [H2 [H3 _]]]]]] _]]].
  exists g0, net', w', s. auto.
Defined.

(** * Further properties of the code *)

(** ** The cadence option *)





Section Spellings.

Open Scope string_scope.

Lemma ends_with_app suffix s : ends_with suffix (s ++ suffix) = true.
Proof.
  induction s as [| c s IH].
  - destruct suffix; cbn [append ends_with]; now rewrite String.eqb_refl.
  - cbn [append ends_with]. rewrite IH. apply orb_true_r.
Qed.

Lemma ends_with_app_assoc suffix a b :
  ends_with suffix (a ++ b ++ suffix) = true.
Proof.
  induction a as [| c a IH].
  - apply (ends_with_app suffix b).
  - cbn [append ends_with]. rewrite IH. apply orb_true_r.
Qed.

Lemma isdigit_decimal (N : positive) :
  isdigit (NilEmpty.string_of_uint (Pos.to_uint N)) = true.
Proof.
  pose proof (string_of_uint_digits (Pos.to_uint N)) as Hd.
  pose proof (string_of_uint_nonempty (Unsigned.to_uint_nonnil N)) as Hne.
  unfold isdigit.
  destruct (NilEmpty.string_of_uint (Pos.to_uint N)); [congruence | exact Hd].
Qed.

(** A count followed by [" time"] and any ending: where the number ends
    and what it is. *)
Lemma number_part_decimal (N : positive) rest :
  let value := NilEmpty.string_of_uint (Pos.to_uint N) ++ String " " ("time" ++ rest) in
  exists pos,
    str_index "time" value = Ok pos /\
    strip (str_take pos value) = NilEmpty.string_of_uint (Pos.to_uint N).
Proof.
  pose proof (string_of_uint_digits (Pos.to_uint N)) as Hd.
  cbv zeta. eexists. split; [apply (str_index_digits _ rest Hd) |].
  now rewrite str_take_app, (strip_digits _ Hd).
Qed.

Lemma validate_count (N : positive) rest :
  ends_with "times" (NilEmpty.string_of_uint (Pos.to_uint N)
                     ++ String " " ("time" ++ rest))
  || ends_with "time" (NilEmpty.string_of_uint (Pos.to_uint N)
                       ++ String " " ("time" ++ rest)) = true ->
  ShowEpochProperty_validate
    (SEStr (NilEmpty.string_of_uint (Pos.to_uint N) ++ String " " ("time" ++ rest)))
  = Ok tt.
Proof.
  intros Hend. destruct (number_part_decimal N rest) as [pos [Hpos Hnum]].
  unfold ShowEpochProperty_validate. rewrite Hpos. cbv zeta.
  rewrite Hnum, Hend, isdigit_decimal, py_int_decimal. cbn [negb orb bind].
  destruct (Z.pos N <? 1)%Z eqn:E; [apply Z.ltb_lt in E; lia | reflexivity].
Qed.

Lemma parse_count (N : positive) rest n_epochs :
  parse_show_epoch_property
    (SEStr (NilEmpty.string_of_uint (Pos.to_uint N) ++ String " " ("time" ++ rest)))
    n_epochs =
  if (n_epochs <=? Zpos N)%Z then Ok 1%Z
  else Ok (py_round (binary64 (inject_Z n_epochs / inject_Z (Zpos N)))).
Proof.
  destruct (number_part_decimal N rest) as [pos [Hpos Hnum]].
  unfold parse_show_epoch_property. rewrite Hpos. cbn [bind].
  rewrite Hnum, py_int_decimal. cbn [bind].
  destruct (n_epochs <=? Zpos N)%Z; reflexivity.
Qed.

End Spellings.

(** X2: for every positive count [N] both spellings, ["N times"] and
    ["N time"], pass [ShowEpochProperty.validate], and
    [parse_show_epoch_property] gives them the same interval for every
    number of epochs: the parser reads the number before the first
    occurrence of [time] and ignores what follows it. *)
Theorem X2_both_spellings (N : positive) (n_epochs : Z) :
  ShowEpochProperty_validate (SEStr (times_string N)) = Ok tt /\
  ShowEpochProperty_validate (SEStr (time_string N)) = Ok tt /\
  parse_show_epoch_property (SEStr (time_string N)) n_epochs =
  parse_show_epoch_property (SEStr (times_string N)) n_epochs.
Proof.
  unfold times_string, time_string.
  change " times"%string with (String " " ("time" ++ "s"))%string.
  change " time"%string with (String " " ("time" ++ ""))%string.
  split; [| split].
  - apply validate_count.
    change (String " " ("time" ++ "s"))%string with (" " ++ "times")%string.
    rewrite ends_with_app_assoc. reflexivity.
  - apply validate_count.
    change (String " " ("time" ++ ""))%string with (" " ++ "time")%string.
    rewrite ends_with_app_assoc. apply orb_true_r.
  - now rewrite !parse_count.
Qed.

(** ** The error accessors *)

Lemma nth_last_entry {A} (l : list A) (d : A) :
  l <> [] -> nth (List.length l - 1) l d = last l d.
Proof.
  intros H. destruct (exists_last H) as [l' [a E]]. subst l.
  rewrite length_app, last_last. cbn [List.length].
  replace (List.length l' + 1 - 1)%nat with (List.length l') by lia.
  apply nth_middle.
Qed.

Lemma last_entry_app {A B} (f : A -> B) (l : list A) (a : A) :
  match l ++ [a] with
  | [] => None
  | x :: xs => Some (f (last xs x))
  end = Some (f a).
Proof.
  destruct l as [| x l]; [reflexivity |].
  change ((x :: l) ++ [a]) with (x :: (l ++ [a])). cbv iota.
  now rewrite last_last.
Qed.

(** X3: once an epoch has appended its error, [last_error] returns that
    error, normalised, and [last_validation_error] does the same for the
    validation errors; [previous_error] then returns what [last_error]
    returned before, but only when at least two errors had been recorded
    before: with two errors in the list, and so with a previous one, it
    returns [None]. *)
Theorem X3_error_accessors (Tensor M : Type) (env : Env Tensor M)
        (n : Network Tensor M) (e : Num) :
  last_error env (append_error_in e n) = Some (normalize_error env e) /\
  last_validation_error env (append_error_out e n) = Some (normalize_error env e) /\
  previous_error env (append_error_in e n) =
    (if (2 <=? List.length (errors_in n))%nat then last_error env n else None).
Proof.
  split; [| split].
  - unfold last_error. cbn [errors_in append_error_in]. apply last_entry_app.
  - unfold last_validation_error. cbn [errors_out append_error_out].
    apply last_entry_app.
  - unfold previous_error, last_error. cbn [errors_in append_error_in].
    rewrite length_app. cbn [List.length].
    destruct (2 <=? List.length (errors_in n))%nat eqn:E.
    + apply Nat.leb_le in E.
      assert (E' : (2 <? List.length (errors_in n) + 1)%nat = true)
        by (apply Nat.ltb_lt; lia).
      rewrite E'.
      replace (List.length (errors_in n) + 1 - 2)%nat
        with (List.length (errors_in n) - 1)%nat by lia.
      rewrite app_nth1 by lia.
      destruct (errors_in n) as [| x xs] eqn:El; [simpl in E; lia |].
      rewrite nth_last_entry by discriminate.
      now rewrite <- (last_cons_default xs x NonFinite).
    + apply Nat.leb_gt in E.
      assert (E' : (2 <? List.length (errors_in n) + 1)%nat = false)
        by (apply Nat.ltb_ge; lia).
      now rewrite E'.
Qed.

(** ** The generator once its buffer is full *)

(** X4: when a resume of [show_epoch_summary] finds ten gaps whose mean is
    not below [delay_limit], it keeps its interval, keeps the ten gaps and
    forgets the time of the row (line 63); from then on every resume renders
    its row, yields the same interval and leaves the generator exactly as it
    is: no further gap is measured and the interval is never adapted
    again. *)
Theorem X4_full_buffer_settles (Tensor M : Type) (env : Env Tensor M)
        (n n' : Network Tensor M) (e e' : Z) (t t' : Q) (g : Summary) :
  epoch n = Some e ->
  epoch n' = Some e' ->
  List.length (pending_delays t (prev_summary_time g) (terminal_output_delays g))
    = delay_history_length ->
  Qle_bool delay_limit
           (mean (pending_delays t (prev_summary_time g) (terminal_output_delays g)))
    = true ->
  let g' := snd (show_epoch_summary_step env n t g) in
  snd (fst (show_epoch_summary_step env n t g)) = Ok (g_show_epoch g) /\
  settled g' /\
  show_epoch_summary_step env n' t' g' =
    ([TableRow e' (last_error env n') (or_dash (last_validation_error env n'))
               (train_epoch_time n')],
     Ok (g_show_epoch g), g').
Proof.
  intros He He' Hlen Hmean. cbv zeta.
  set (delays := pending_delays t (prev_summary_time g) (terminal_output_delays g))
    in *.
  assert (Hfull : (List.length delays =? delay_history_length)%nat = true)
    by now apply Nat.eqb_eq.
  assert (Hstep :
    show_epoch_summary_step env n t g =
    (match status g with NotStarted => [TableStart] | _ => [] end
     ++ [TableRow e (last_error env n) (or_dash (last_validation_error env n))
                  (train_epoch_time n)],
     Ok (g_show_epoch g),
     mkSummary Suspended (g_show_epoch g) None delays)).
  { unfold show_epoch_summary_step. rewrite He. fold delays.
    now rewrite Hfull, Hmean. }
  rewrite Hstep. cbn [fst snd].
  split; [reflexivity |]. split.
  - repeat split; assumption.
  - unfold show_epoch_summary_step. rewrite He'.
    cbn [status prev_summary_time terminal_output_delays g_show_epoch
         pending_delays app].
    now rewrite Hfull, Hmean.
Qed.

Lemma X4_witness :
  let g := mkSummary Suspended 3 (Some 0%Q) [1; 1; 1; 1; 1; 1; 1; 1; 1]%Q in
  let g' := snd (show_epoch_summary_step (unit_env second_clock)
                                         (network_at 11) 1%Q g) in
  snd (fst (show_epoch_summary_step (unit_env second_clock) (network_at 11) 1%Q g))
    = Ok 3 /\
  settled g' /\
  show_epoch_summary_step (unit_env second_clock) (network_at 12) (1 # 100)%Q g' =
    ([TableRow 12 (last_error (unit_env second_clock) (network_at 12))
               (or_dash (last_validation_error (unit_env second_clock) (network_at 12)))
               (train_epoch_time (network_at 12))],
     Ok 3, g').
Proof.
  exact (@X4_full_buffer_settles unit unit (unit_env second_clock)
           (network_at 11) (network_at 12) 11 12 1%Q (1 # 100)%Q
           (mkSummary Suspended 3 (Some 0%Q) [1; 1; 1; 1; 1; 1; 1; 1; 1]%Q)
           eq_refl eq_refl eq_refl eq_refl).
Defined.

(** ** The step schedule *)

Lemma schedule_denominator (e p : Z) :
  1 <= e -> 1 <= p ->
  (1 < 1 + inject_Z e / inject_Z p)%Q /\
  (1 + inject_Z e / inject_Z p < 1 + inject_Z (e + 1) / inject_Z p)%Q.
Proof.
  intros He Hp.
  assert (HP : (0 < inject_Z p)%Q).
  { change 0%Q with (inject_Z 0). rewrite <- Zlt_Qlt. lia. }
  assert (HE : (0 < inject_Z e)%Q).
  { change 0%Q with (inject_Z 0). rewrite <- Zlt_Qlt. lia. }
  assert (H1 : (0 < inject_Z e / inject_Z p)%Q).
  { apply Qlt_shift_div_l; [exact HP | lra]. }
  assert (H2 : (inject_Z e / inject_Z p < inject_Z (e + 1) / inject_Z p)%Q).
  { apply Qlt_shift_div_l; [exact HP |].
    unfold Qdiv. rewrite <- Qmult_assoc, (Qmult_comm (/ inject_Z p)).
    rewrite Qmult_inv_r by lra. rewrite Qmult_1_r.
    rewrite <- Zlt_Qlt. lia. }
  split; lra.
Qed.

Lemma quotient_decreases (fs d1 d2 : Q) :
  (0 < fs)%Q -> (1 < d1)%Q -> (d1 < d2)%Q ->
  (0 < fs / d2)%Q /\ (fs / d2 < fs / d1)%Q /\ (fs / d1 < fs)%Q.
Proof.
  intros Hfs H1 H12.
  assert (Hi1 : (0 < / d1)%Q) by (apply Qinv_lt_0_compat; lra).
  assert (Hi2 : (0 < / d2)%Q) by (apply Qinv_lt_0_compat; lra).
  assert (Hlt : (/ d2 < / d1)%Q).
  { apply Qinv_lt_contravar in H12; [exact H12 | lra | lra]. }
  assert (Hone : (/ d1 < 1)%Q).
  { assert (H : (/ d1 < / 1)%Q)
      by (apply -> Qinv_lt_contravar; [exact H1 | lra | lra]).
    exact H. }
  unfold Qdiv. repeat split.
  - apply Qmult_lt_0_compat; assumption.
  - rewrite !(Qmult_comm fs). apply Qmult_lt_compat_r; assumption.
  - rewrite <- (Qmult_1_r fs) at 2. rewrite !(Qmult_comm fs).
    apply Qmult_lt_compat_r; assumption.
Qed.

(** X5: the schedule of [SimpleStepMinimization.init_train_updates] decreases
    monotonically, as its docstring says: for a positive first step and a
    period of at least 1, the step the rule computes at epoch [e + 1] is
    positive and smaller than the one it computes at epoch [e], which is
    itself smaller than the first step. *)
Theorem X5_step_decreases (Tensor : Type) (backend : GraphBackend Tensor)
        (fs : Q) (p e : Z) (x : Tensor) (y : option Tensor) (s s' : Store Tensor) :
  (0 < fs)%Q -> 1 <= p -> 1 <= e ->
  s VarEpoch = VNum (Fin (inject_Z e)) ->
  s' VarEpoch = VNum (Fin (inject_Z (e + 1))) ->
  exists a b,
    eval backend (new_step fs p) x y s = VNum (Fin a) /\
    eval backend (new_step fs p) x y s' = VNum (Fin b) /\
    (0 < b)%Q /\ (b < a)%Q /\ (a < fs)%Q.
Proof.
  intros Hfs Hp He Hs Hs'.
  rewrite (eval_new_step backend fs x y s Hs He Hp).
  rewrite (eval_new_step backend fs x y s' Hs' ltac:(lia) Hp).
  do 2 eexists. split; [reflexivity |]. split; [reflexivity |].
  destruct (schedule_denominator He Hp) as [H1 H2].
  exact (quotient_decreases Hfs H1 H2).
Qed.

Lemma X5_witness :
  exists a b,
    eval unit_backend (new_step (3 # 10) 50) tt None
         (set_value zero_store VarEpoch (VNum (Fin (inject_Z 1)))) = VNum (Fin a) /\
    eval unit_backend (new_step (3 # 10) 50) tt None
         (set_value zero_store VarEpoch (VNum (Fin (inject_Z (1 + 1))))) = VNum (Fin b) /\
    (0 < b)%Q /\ (b < a)%Q /\ (a < 3 # 10)%Q.
Proof.
  apply (@X5_step_decreases unit unit_backend (3 # 10) 50 1 tt None
           (set_value zero_store VarEpoch (VNum (Fin (inject_Z 1))))
           (set_value zero_store VarEpoch (VNum (Fin (inject_Z (1 + 1)))))).
  - reflexivity.
  - lia.
  - lia.
  - reflexivity.
  - reflexivity.
Defined.

(** X6: the schedule restarts with every run.  Whatever values an earlier
    run left in the shared variables of a network built with
    [SimpleStepMinimization] (its step, its epoch counter, its parameters), a
    run of [epochs >= 1] epochs ends with the step
    [first_step / (1 + epochs / period)]: the loop numbers its epochs from 1
    again and the rule reads the first step, not the current one. *)
Theorem X6_schedule_restarts
        (Tensor : Type) (backend : GraphBackend Tensor)
        (init_param_updates : Layer -> SharedVar -> Updates Tensor)
        (env : Env Tensor (Graph Tensor))
        (connection : PyValue) (first_step : Q) (period : Z)
        (initial left_over : Store Tensor) (g0 : Graph Tensor)
        (input_train : Tensor) (target_train input_test target_test : option Tensor)
        (epochs : Z) (net : Network Tensor (Graph Tensor))
        (w : World Tensor (Graph Tensor)) :
  ConstructableNetwork_init backend init_param_updates WithSimpleStepMinimization
                            connection first_step period initial = Ok g0 ->
  model net = with_shared left_over g0 ->
  1 <= period ->
  1 <= epochs ->
  advancing (clock env) ->
  ShowEpochProperty_validate (show_epoch net) = Ok tt ->
  (input_test = None \/ target_test = None) ->
  exists net' w' s,
    _train env (ConstructableNetwork_class backend None None)
           input_train target_train input_test target_test epochs None net w
    = (Ok tt, net', w') /\
    model net' = with_shared s g0 /\
    s VarStep = VNum (Fin (first_step / (1 + inject_Z epochs / inject_Z period))) /\
    List.length (errors_in net') = (List.length (errors_in net) + Z.to_nat epochs)%nat.
Proof.
  intros Hbuilt Hmodel Hp Hepochs Hclock Hval Hheld.
  unfold _train. destruct (is_feature1d _ net) as [f1 f2]. cbv iota.
  destruct (validate_parse_ok _ epochs Hval) as [K0 [Hparse HK]].
  unfold reporting_cadence. rewrite Hparse. cbn [bind].
  match goal with
  | |- context [train_run env ?cls ?xt ?yt epochs None false ?s] =>
      set (st0 := s);
      destruct (@train_run_range Tensor (Graph Tensor) env cls xt yt epochs st0)
        as [st1 [ho [Hrun [_ [Hho [Hself [Hloc [Htk _]]]]]]]]
  end.
  { destruct Hheld as [H | H]; rewrite H; auto. }
  assert (Hnone : ho = None).
  { apply Hho. destruct Hheld as [H | H]; rewrite H; auto. }
  subst ho. rewrite Hrun.
  destruct (@decay_run Tensor backend init_param_updates env g0 connection
              first_step period initial (List.length (errors_in net))
              (shuffle_data (self st0)) Hbuilt Hp Hclock epochs st1 Hepochs)
    as [st' [s [Hfin [Hm [Hstep Hlen]]]]].
  - unfold before_decay_pass. rewrite Hself, Hloc, Htk. subst st0.
    cbn [self world locals errors_in with_train_data l_show_epoch model
         epoch_summary ticks].
    split.
    { exists left_over. split; [exact Hmodel | lia]. }
    split; [exact HK |].
    split.
    { repeat split; try discriminate; cbn; try assumption; try constructor. }
    split; [lia |]. cbn. lia.
  - rewrite Hfin. exists (self st'), (world st'), s. auto.
Qed.

Lemma X6_witness :
  exists g0 net' w' s,
    ConstructableNetwork_init unit_backend keep_param_updates
      WithSimpleStepMinimization (PyList [PyInt 2; PyInt 3; PyInt 1])
      (3 # 10) 50 zero_store = Ok g0 /\
    _train (unit_graph_env second_clock)
           (ConstructableNetwork_class unit_backend None None)
           tt (Some tt) None None 100 None
           (graph_network (SEInt 10)
                          (with_shared (fun _ => VNum (Fin (1 # 1000))) g0))
           (mkWorld 0 0 [])
    = (Ok tt, net', w') /\
    model net' = with_shared s g0 /\
    s VarStep = VNum (Fin ((3 # 10) / (1 + inject_Z 100 / inject_Z 50))).
Proof.
  destruct (ConstructableNetwork_init unit_backend keep_param_updates
              WithSimpleStepMinimization (PyList [PyInt 2; PyInt 3; PyInt 1])
              (3 # 10) 50 zero_store) as [g0 | exn] eqn:E;
    [| vm_compute in E; discriminate].
  destruct (@X6_schedule_restarts unit unit_backend keep_param_updates
              (unit_graph_env second_clock)
              (PyList [PyInt 2; PyInt 3; PyInt 1]) (3 # 10) 50 zero_store
              (fun _ => VNum (Fin (1 # 1000))) g0
              tt (Some tt) None None 100
              (graph_network (SEInt 10)
                             (with_shared (fun _ => VNum (Fin (1 # 1000))) g0))
              (mkWorld 0 0 [])
              E eq_refl ltac:(lia) ltac:(lia) second_clock_advances eq_refl
              (or_introl eq_refl))
    as [net' [w' [s [H1 [H2 [H3 _]]]]]].
  exists g0, net', w', s. auto.
Defined.

(** ** Rules for assertions *)

Section HoareRules.

Variables Tensor M : Type.
Variable env : Env Tensor M.

#[local] Abbreviation State := (State Tensor M).
#[local] Abbreviation Py := (Py Tensor M).
#[local] Abbreviation Event := (Event Tensor M).

Lemma hoare_bind {A B} (P : State -> Prop) (p : Py A) (R : A -> State -> Prop)
      (k : A -> Py B) (Q : B -> State -> Prop) (E : State -> Prop) :
  hoare P p R E -> (forall a, hoare (R a) (k a) Q E) -> hoare P (pbind p k) Q E.
Proof.
  intros Hp Hk st HP. unfold pbind. specialize (Hp st HP).
  destruct (p st) as [[a | exn] st']; [| exact Hp].
  exact (Hk a st' Hp).
Qed.

Lemma hoare_weaken {A} (P P' : State -> Prop) (p : Py A)
      (Q Q' : A -> State -> Prop) (E E' : State -> Prop) :
  hoare P' p Q' E' ->
  (forall st, P st -> P' st) ->
  (forall a st, Q' a st -> Q a st) ->
  (forall st, E' st -> E st) ->
  hoare P p Q E.
Proof.
  intros H HP HQ HE st Hst. specialize (H st (HP st Hst)).
  destruct (p st) as [[a | exn] st']; auto.
Qed.

Section Invariant.

Variable I : State -> Prop.

Lemma keeps_ret {A} (a : A) : keeps I (ret a).
Proof. intros st H. exact H. Qed.

Lemma keeps_raise {A} e : keeps I (raise (A:=A) e).
Proof. intros st H. exact H. Qed.

Lemma keeps_bind {A B} (p : Py A) (k : A -> Py B) :
  keeps I p -> (forall a, keeps I (k a)) -> keeps I (pbind p k).
Proof. intros Hp Hk. apply hoare_bind with (R := fun _ => I); assumption. Qed.

Lemma keeps_get_self : keeps I (get_self (M:=M)).
Proof. intros st H. exact H. Qed.

Lemma keeps_get_locals : keeps I (get_locals (M:=M)).
Proof. intros st H. exact H. Qed.

Lemma keeps_modify_self f :
  (forall st, I st -> I (mkState (f (self st)) (world st) (locals st))) ->
  keeps I (modify_self f).
Proof. intros Hf st H. exact (Hf st H). Qed.

Lemma keeps_modify_locals f :
  (forall st, I st -> I (mkState (self st) (world st) (f (locals st)))) ->
  keeps I (modify_locals f).
Proof. intros Hf st H. exact (Hf st H). Qed.

Lemma keeps_emit_all (es : list Event) :
  (forall st, I st ->
              I (mkState (self st)
                         (mkWorld (ticks (world st)) (rng (world st))
                                  (trace (world st) ++ es))
                         (locals st))) ->
  keeps I (emit_all es).
Proof. intros Hf st H. exact (Hf st H). Qed.

Lemma keeps_emit (e : Event) :
  (forall st, I st ->
              I (mkState (self st)
                         (mkWorld (ticks (world st)) (rng (world st))
                                  (trace (world st) ++ [e]))
                         (locals st))) ->
  keeps I (emit e).
Proof. intros Hf st H. exact (Hf st H). Qed.

(** Reading the clock or the shuffling source. *)
Lemma keeps_now :
  (forall st, I st ->
              I (mkState (self st)
                         (mkWorld (S (ticks (world st))) (rng (world st))
                                  (trace (world st)))
                         (locals st))) ->
  keeps I (now env).
Proof. intros Hf st H. exact (Hf st H). Qed.

Lemma keeps_draw :
  (forall st, I st ->
              I (mkState (self st)
                         (mkWorld (ticks (world st)) (S (rng (world st)))
                                  (trace (world st)))
                         (locals st))) ->
  keeps I (draw (M:=M)).
Proof. intros Hf st H. exact (Hf st H). Qed.

(** A method or callback writes the part of the object its class owns. *)
Hypothesis I_model :
  forall st m,
    I st -> I (mkState (with_model m (self st)) (world st) (locals st)).

Lemma keeps_call {A} (f : Network Tensor M -> Res A * M) : keeps I (call f).
Proof.
  intros st H. unfold call. destruct (f (self st)) as [[a | exn] m];
    apply (I_model _ H).
Qed.

Lemma keeps_catch_stop e (body : Py unit) :
  keeps I body ->
  (forall msg, keeps I (emit (Log (MsgEpochStopped e msg)))) ->
  keeps I (catch_stop e body).
Proof.
  intros Hb Hlog st H. unfold catch_stop. specialize (Hb st H).
  destruct (body st) as [[u | exn] st']; [exact Hb |].
  destruct exn; try exact Hb.
  specialize (Hlog message st' Hb).
  rewrite pbind_eq.
  destruct (emit (Log (MsgEpochStopped e message)) st') as [[u | exn] st2];
    exact Hlog.
Qed.

Lemma keeps_for_epochs it (body : Z -> Py Flow) n :
  forall e0,
    (forall e, e0 <= e -> keeps I (body e)) ->
    keeps I (for_epochs env n e0 it body).
Proof.
  induction n as [| n IH]; intros e0 Hbody st H; [exact H |].
  cbn [for_epochs]. destruct (iter_yields env it (self st)); [| exact H].
  pose proof (Hbody e0 ltac:(lia) st H) as Hb.
  destruct (body e0 st) as [[[|] | exn] st']; try exact Hb.
  apply (IH (e0 + 1)); [| exact Hb].
  intros e He. apply Hbody. lia.
Qed.

End Invariant.

End HoareRules.

Ltac keeps_step :=
  match goal with
  | |- keeps _ (pbind _ _) => apply keeps_bind; [| intros]
  | |- keeps _ (ret _) => apply keeps_ret
  | |- keeps _ (raise _) => apply keeps_raise
  | |- keeps _ (get_self (M:=_)) => apply keeps_get_self
  | |- keeps _ (get_locals (M:=_)) => apply keeps_get_locals
  | |- keeps _ (modify_self _) => apply keeps_modify_self
  | |- keeps _ (modify_locals _) => apply keeps_modify_locals
  | |- keeps _ (emit _) => apply keeps_emit
  | |- keeps _ (emit_all _) => apply keeps_emit_all
  | |- keeps _ (now _) => apply keeps_now
  | |- keeps _ (draw (M:=_)) => apply keeps_draw
  | |- keeps _ (call _) => apply keeps_call
  | |- keeps _ (match ?x with _ => _ end) => destruct x
  end.

(** ** The progress table follows its protocol *)

Section TableProtocol.

Variables Tensor M : Type.
Variable env : Env Tensor M.
Variable cls : NetworkClass Tensor M.
Variable t0 : list (Event Tensor M).

#[local] Abbreviation J := (table_inv t0).

Lemma table_state_app (a b : list (Event Tensor M)) :
  table_state (a ++ b) = fold_left (@table_step Tensor M) b (table_state a).
Proof. unfold table_state. apply fold_left_app. Qed.

(** An event that is not written to the table. *)
Lemma table_inv_neutral (e : Event Tensor M) (st : State Tensor M) :
  (forall s, table_step s e = s) ->
  J st ->
  J (mkState (self st)
             (mkWorld (ticks (world st)) (rng (world st)) (trace (world st) ++ [e]))
             (locals st)).
Proof.
  intros Hn [evs [Ht [He Hs]]]. exists (evs ++ [e]).
  cbn [world trace locals]. split; [now rewrite Ht, app_assoc |].
  split; [exact He |].
  rewrite table_state_app. cbn [fold_left]. now rewrite Hn.
Qed.

Lemma table_inv_counters (st : State Tensor M) t r :
  J st -> J (mkState (self st) (mkWorld t r (trace (world st))) (locals st)).
Proof. intros H. exact H. Qed.

Lemma table_inv_self (st : State Tensor M) n :
  J st -> J (mkState n (world st) (locals st)).
Proof. intros H. exact H. Qed.

Lemma table_inv_model (st : State Tensor M) m :
  J st -> J (mkState (with_model m (self st)) (world st) (locals st)).
Proof. intros H. exact H. Qed.

Lemma table_inv_set_epoch (st : State Tensor M) e :
  1 <= e -> J st ->
  J (mkState (self st) (world st) (set_l_epoch e (locals st))).
Proof.
  intros He [evs [Ht [_ Hs]]]. exists evs. split; [exact Ht |].
  split; [| exact Hs].
  cbn. intros e' H. inversion H. now subst.
Qed.

Lemma table_inv_legal (st : State Tensor M) : J st -> table_legal t0 st.
Proof.
  intros [evs [Ht [_ Hs]]]. exists evs. split; [exact Ht |].
  destruct (status (epoch_summary (locals st))); [destruct Hs as [Hs _] | |];
    rewrite Hs; discriminate.
Qed.

(** One resume of the generator: it starts the table when it has not yet,
    writes to the open table, and finishes it when it ends. *)
Lemma step_protocol (n : Network Tensor M) t g ts :
  match status g with
  | NotStarted => ts = Some Idle
  | Suspended => ts = Some Open
  | Finished => False
  end ->
  match snd (fst (show_epoch_summary_step env n t g)) with
  | Ok _ =>
      status (snd (show_epoch_summary_step env n t g)) = Suspended /\
      fold_left (@table_step Tensor M)
                (fst (fst (show_epoch_summary_step env n t g))) ts = Some Open
  | Raise _ =>
      status (snd (show_epoch_summary_step env n t g)) = Finished /\
      fold_left (@table_step Tensor M)
                (fst (fst (show_epoch_summary_step env n t g))) ts = Some Closed
  end.
Proof.
  unfold show_epoch_summary_step.
  destruct (epoch n);
    repeat match goal with
           | |- context [if ?c then _ else _] =>
               match type of c with bool => destruct c end
           end;
    cbn [fst snd]; destruct (status g); intros H; try contradiction; subst ts;
    split; reflexivity.
Qed.

Lemma next_table :
  hoare J (next_epoch_summary env) (fun _ => table_started t0) J.
Proof.
  intros st HJ.
  destruct (status (epoch_summary (locals st))) eqn:Est.
  3:{ unfold next_epoch_summary. rewrite run_get_locals, Est. exact HJ. }
  all: rewrite next_epoch_summary_eq by congruence;
    destruct HJ as [evs [Ht [He Hs]]]; rewrite Est in Hs;
    pose proof (step_protocol (self st) (clock env (ticks (world st)))
                              (epoch_summary (locals st)) (table_state evs)) as Hp;
    rewrite Est in Hp;
    destruct (show_epoch_summary_step env (self st) (clock env (ticks (world st)))
                                      (epoch_summary (locals st)))
      as [[evs1 r] g'];
    cbn [fst snd] in *;
    destruct r as [k | exn];
    (destruct Hp as [Hg Hf]; [first [exact Hs | exact (proj1 Hs)] |]).
  all: try split.
  all: try (cbn [locals epoch_summary set_summary]; rewrite Hg; discriminate).
  all: exists (evs ++ evs1); cbn [world trace locals epoch_summary set_summary
                                  l_epoch l_last_epoch_shown];
    (split; [now rewrite Ht, app_assoc |]);
    (split; [exact He |]);
    rewrite Hg, table_state_app; exact Hf.
Qed.

Lemma next_shown e :
  keeps J (pbind (next_epoch_summary env) (fun k => modify_locals (set_shown k e))).
Proof.
  apply hoare_bind with (R := fun _ => table_started t0); [apply next_table |].
  intros k st [[evs [Ht [He Hs]]] Hst]. cbn.
  exists evs. split; [exact Ht |]. split; [exact He |].
  cbn. destruct (status (epoch_summary (locals st))); [congruence | exact Hs..].
Qed.

Ltac table_side :=
  first
    [ exact (@table_inv_counters)
    | exact (@table_inv_model)
    | intros ? ? ?; apply table_inv_counters; assumption
    | intros ? ?; apply table_inv_model; assumption
    | intros ? ?; apply table_inv_self; assumption
    | intros ? ?; apply table_inv_neutral; [intros; reflexivity | assumption]
    | intros ? ?; assumption ].

Lemma train_attempt_table held_out e t :
  keeps J (train_attempt env cls held_out e t).
Proof.
  unfold train_attempt.
  repeat first [apply next_shown | keeps_step]; table_side.
Qed.

Lemma epoch_body_table flag held_out e :
  1 <= e -> keeps J (epoch_body env cls flag held_out e).
Proof.
  intros He. unfold epoch_body.
  repeat first
    [ apply keeps_catch_stop; [apply train_attempt_table | intros]
    | keeps_step ];
    try table_side.
  intros st H. now apply table_inv_set_epoch.
Qed.

Lemma for_epochs_table flag held_out it n :
  keeps J (for_epochs env n 1 it (epoch_body env cls flag held_out)).
Proof.
  apply keeps_for_epochs. intros e He. now apply epoch_body_table.
Qed.

Lemma table_started_neutral (e : Event Tensor M) (st : State Tensor M) :
  (forall s, table_step s e = s) ->
  table_started t0 st ->
  table_started t0
    (mkState (self st)
             (mkWorld (ticks (world st)) (rng (world st)) (trace (world st) ++ [e]))
             (locals st)).
Proof.
  intros Hn [HJ Hs]. split; [now apply table_inv_neutral | exact Hs].
Qed.

(** Closing the generator once a row has been rendered. *)
Lemma close_table :
  hoare (table_started t0) (close_epoch_summary (Tensor:=Tensor) (M:=M))
        (fun _ => table_closed t0) (table_legal t0).
Proof.
  intros st [[evs [Ht [He Hs]]] Hst]. unfold close_epoch_summary.
  rewrite run_get_locals.
  destruct (status (epoch_summary (locals st))) eqn:Est; [congruence | |].
  - unfold summary_finally. rewrite run_emit_all. cbn.
    exists (evs ++ summary_finally_events Tensor M). split; [now rewrite Ht, app_assoc |].
    rewrite table_state_app, Hs. reflexivity.
  - cbn. exists evs. auto.
Qed.

Lemma table_closed_neutral (e : Event Tensor M) :
  (forall s, table_step s e = s) ->
  hoare (table_closed t0) (emit e) (fun _ => table_closed t0) (table_legal t0).
Proof.
  intros Hn st [evs [Ht Hs]]. cbn. exists (evs ++ [e]).
  split; [now rewrite Ht, app_assoc |].
  rewrite table_state_app. cbn [fold_left]. now rewrite Hn.
Qed.

(** What follows the loop: a normal end leaves the table closed. *)
Lemma after_loop_table :
  hoare J (after_loop env cls) (fun _ => table_closed t0) (table_legal t0).
Proof.
  intros st HJ. unfold after_loop. rewrite run_get_locals.
  destruct (l_epoch (locals st)) as [e |] eqn:Ele.
  2:{ cbn. now apply table_inv_legal. }
  assert (Hrest :
    hoare (table_started t0)
          (pbind (match train_end_signal cls with
                  | Some signal =>
                      pbind (get_self (M:=M)) (fun n =>
                      pbind (emit (CallTrainEndSignal n)) (fun _ => call signal))
                  | None => ret tt
                  end)
                 (fun _ => pbind (close_epoch_summary (Tensor:=Tensor) (M:=M))
                                 (fun _ => emit (Log MsgEndTrain))))
          (fun _ => table_closed t0) (table_legal t0)).
  { apply hoare_bind with (R := fun _ => table_started t0).
    - apply hoare_weaken
        with (P' := table_started t0) (Q' := fun _ => table_started t0)
             (E' := table_started t0); auto.
      + change (keeps (table_started t0)
                      (match train_end_signal cls with
                       | Some signal =>
                           pbind (get_self (M:=M)) (fun n =>
                           pbind (emit (CallTrainEndSignal n)) (fun _ => call signal))
                       | None => ret tt
                       end)).
        repeat keeps_step.
        * intros s H. apply table_started_neutral; [intros; reflexivity | exact H].
        * intros s m H. exact H.
      + intros s [H _]. now apply table_inv_legal.
    - intros _. apply hoare_bind with (R := fun _ => table_closed t0).
      + apply close_table.
      + intros _. apply table_closed_neutral. intros; reflexivity. }
  pose proof HJ as [evs [Ht [He Hs]]].
  specialize (He e Ele).
  destruct (e =? l_last_epoch_shown (locals st)) eqn:Eshown; cbn [negb].
  - apply Z.eqb_eq in Eshown. rewrite run_ret.
    apply Hrest. split; [exact HJ |].
    intros Hns. rewrite Hns in Hs. destruct Hs as [_ Hs]. lia.
  - rewrite pbind_assoc, pbind_eq.
    pose proof (next_table HJ) as Hn.
    destruct (next_epoch_summary env st) as [[k | exn] st1].
    + rewrite run_ret. now apply Hrest.
    + now apply table_inv_legal.
Qed.

Lemma train_run_table input_test target_test epochs epsilon warn :
  hoare J (train_run env cls input_test target_test epochs epsilon warn)
        (fun _ => table_closed t0) (table_legal t0).
Proof.
  unfold train_run.
  repeat
    match goal with
    | |- hoare _ (pbind (for_epochs _ _ _ _ _) _) _ _ =>
        apply hoare_bind with (R := fun _ => J);
        [ apply hoare_weaken
            with (P' := J) (Q' := fun _ => J) (E' := J);
          [apply for_epochs_table | auto | auto | apply table_inv_legal]
        | intros; apply after_loop_table ]
    | |- hoare _ (pbind _ _) _ _ =>
        apply hoare_bind with (R := fun _ => J);
        [ apply hoare_weaken
            with (P' := J) (Q' := fun _ => J) (E' := J);
          [ | auto | auto | apply table_inv_legal]
        | intros ]
    | |- hoare J ?p (fun _ => J) J => change (keeps J p)
    | |- keeps _ _ => keeps_step
    end;
    table_side.
Qed.

End TableProtocol.

(** X7: in every call of [_train], whatever the class, the callbacks and the
    clock do and however the call ends, the progress table is used by its
    protocol: it is started at most once and before anything is written to
    it, rows, lines and messages are written only while it is open, and it
    is finished at most once, after which nothing is written to it.  When
    the call returns normally the table has been started and finished. *)
Theorem X7_table_protocol
        (Tensor M : Type) (env : Env Tensor M) (cls : NetworkClass Tensor M)
        (input_train : Tensor) (target_train input_test target_test : option Tensor)
        (epochs : Z) (epsilon : option Q) (net : Network Tensor M)
        (w : World Tensor M) :
  exists evs,
    trace (snd (_train env cls input_train target_train input_test target_test
                       epochs epsilon net w)) = trace w ++ evs /\
    table_state evs <> None /\
    (fst (fst (_train env cls input_train target_train input_test target_test
                      epochs epsilon net w)) = Ok tt ->
     table_state evs = Some Closed).
Proof.
  assert (Hnone : exists evs : list (Event Tensor M),
             trace w = trace w ++ evs /\ table_state evs <> None /\
             (Raise ValueError = Ok tt -> table_state evs = Some Closed)).
  { exists []. rewrite app_nil_r. repeat split; discriminate. }
  unfold _train. destruct (is_feature1d cls net) as [f1 f2].
  destruct (match epsilon with Some _ => epochs <=? 2 | None => false end).
  { exact Hnone. }
  destruct (reporting_cadence (show_epoch net) epochs epsilon) as [[k warn] | exn].
  2:{ exists []. cbn. rewrite app_nil_r. repeat split; discriminate. }
  match goal with
  | |- context [train_run env cls ?xt ?yt epochs epsilon warn ?s] =>
      pose proof (@train_run_table Tensor M env cls (trace w) xt yt epochs epsilon
                                   warn s) as H;
      destruct (train_run env cls xt yt epochs epsilon warn s) as [r st]
  end.
  cbn [fst snd].
  assert (H0 : table_inv (trace w)
                 (mkState net w
                    (mkLocals (format_data env input_train f1)
                       (option_map (fun t => format_data env t f2) target_train)
                       k 0 None (mkSummary NotStarted k None [])))).
  { exists []. cbn. rewrite app_nil_r. repeat split. discriminate. }
  specialize (H H0). destruct r as [[] | exn].
  - destruct H as [evs [Ht Hs]]. exists evs. split; [exact Ht |].
    split; [rewrite Hs; discriminate | intros _; exact Hs].
  - destruct H as [evs [Ht Hs]]. exists evs. split; [exact Ht |].
    split; [exact Hs | discriminate].
Qed.

(** ** The two error lists stay aligned *)

Section ErrorLists.

Variables Tensor M : Type.
Variable env : Env Tensor M.
Variable cls : NetworkClass Tensor M.
Variables a b : list Num.

Hypothesis hook_keeps_errors :
  forall e n, errors_in (epoch_start_update cls e n) = errors_in n /\
              errors_out (epoch_start_update cls e n) = errors_out n.

#[local] Abbreviation G := (fun both k => grown (Tensor:=Tensor) (M:=M) a b both k false).

Lemma grown_more both k k' pending (st : State Tensor M) :
  (k <= k')%nat -> grown a b both k pending st -> grown a b both k' pending st.
Proof.
  intros Hle [ins [outs [H1 [H2 [H3 H4]]]]]. exists ins, outs.
  repeat split; try assumption. lia.
Qed.

(** What leaves the two lists as they are keeps the assertion. *)
Lemma grown_same both k pending (st st' : State Tensor M) :
  errors_in (self st') = errors_in (self st) ->
  errors_out (self st') = errors_out (self st) ->
  grown a b both k pending st -> grown a b both k pending st'.
Proof.
  intros Hi Ho [ins [outs [H1 [H2 [H3 H4]]]]]. exists ins, outs.
  rewrite Hi, Ho. auto.
Qed.

Ltac grown_side :=
  first
    [ intros ? ? ? ?; eapply grown_same; [| | eassumption]; reflexivity
    | intros ? ? ?; eapply grown_same; [| | eassumption]; reflexivity
    | intros ? ?; eapply grown_same; [| | eassumption]; reflexivity ].

Lemma next_grown both k pending :
  keeps (grown a b both k pending) (next_epoch_summary env).
Proof.
  unfold next_epoch_summary. repeat keeps_step; grown_side.
Qed.

Lemma close_grown both k pending :
  keeps (grown a b both k pending) (close_epoch_summary (Tensor:=Tensor) (M:=M)).
Proof.
  unfold close_epoch_summary, summary_finally. repeat keeps_step; grown_side.
Qed.

Lemma keeps_hoare {A} (I E : State Tensor M -> Prop) (p : Py Tensor M A) :
  keeps I p -> (forall st, I st -> E st) -> hoare I p (fun _ => I) E.
Proof. intros H HE. eapply hoare_weaken; [exact H | auto..]. Qed.

(** The [try] block: the validation error is appended first, the training
    error right after it, and nothing raises between the two. *)
Lemma train_attempt_grown held_out e t k :
  hoare (G (is_held_out held_out) k) (train_attempt env cls held_out e t)
        (fun _ => G (is_held_out held_out) (S k)) (G (is_held_out held_out) (S k)).
Proof.
  assert (Hup : forall st : State Tensor M,
             G (is_held_out held_out) k st -> G (is_held_out held_out) (S k) st).
  { intros st. apply grown_more. lia. }
  unfold train_attempt.
  apply hoare_bind with (R := fun _ => G (is_held_out held_out) k);
    [apply keeps_hoare; [keeps_step | exact Hup] | intros l].
  apply hoare_bind with (R := fun _ => G (is_held_out held_out) k);
    [apply keeps_hoare; [keeps_step | exact Hup] | intros n].
  apply hoare_bind with (R := fun _ => G (is_held_out held_out) k);
    [apply keeps_hoare; [keeps_step; grown_side | exact Hup] | intros _].
  apply hoare_bind with (R := fun _ => G (is_held_out held_out) k);
    [apply keeps_hoare; [keeps_step; grown_side | exact Hup] | intros error].
  apply hoare_bind
    with (R := fun _ => grown a b (is_held_out held_out) k (is_held_out held_out)).
  { destruct held_out as [[[pe xt] yt] |]; cbn [is_held_out].
    - apply hoare_bind with (R := fun _ => G true k);
        [apply keeps_hoare; [keeps_step | exact Hup] | intros n'].
      apply hoare_bind with (R := fun _ => G true k);
        [apply keeps_hoare; [keeps_step; grown_side | exact Hup] | intros _].
      apply hoare_bind with (R := fun _ => G true k);
        [apply keeps_hoare; [keeps_step; grown_side | exact Hup] | intros eo].
      intros st [ins [outs [H1 [H2 [H3 H4]]]]]. cbn. unfold grown. cbn.
      exists ins, (outs ++ [eo]). rewrite H2, app_assoc, length_app. cbn.
      repeat split; try assumption. lia.
    - intros st H. exact H. }
  intros _.
  apply hoare_bind with (R := fun _ => G (is_held_out held_out) (S k)).
  { intros st [ins [outs [H1 [H2 [H3 H4]]]]]. cbn. unfold grown. cbn.
    exists (ins ++ [error]), outs. rewrite H1, app_assoc, length_app. cbn.
    repeat split; try assumption; [lia |].
    rewrite H4. destruct (is_held_out held_out); lia. }
  intros _.
  match goal with
  | |- hoare ?I ?p _ _ => change (keeps I p)
  end.
  repeat first [apply next_grown | keeps_step]; grown_side.
Qed.

Lemma epoch_body_grown flag held_out e k :
  hoare (G (is_held_out held_out) k) (epoch_body env cls flag held_out e)
        (fun _ => G (is_held_out held_out) (S k)) (G (is_held_out held_out) (S k)).
Proof.
  assert (Hup : forall st : State Tensor M,
             G (is_held_out held_out) k st -> G (is_held_out held_out) (S k) st).
  { intros st. apply grown_more. lia. }
  assert (Hhook : keeps (G (is_held_out held_out) k)
                        (modify_self (epoch_start_update cls e))).
  { apply keeps_modify_self. intros st. apply grown_same; apply hook_keeps_errors. }
  unfold epoch_body.
  apply hoare_bind with (R := fun _ => G (is_held_out held_out) k);
    [apply keeps_hoare; [keeps_step; grown_side | exact Hup] | intros _].
  apply hoare_bind with (R := fun _ => G (is_held_out held_out) k);
    [apply keeps_hoare; [keeps_step; grown_side | exact Hup] | intros t].
  apply hoare_bind with (R := fun _ => G (is_held_out held_out) k);
    [apply keeps_hoare; [exact Hhook | exact Hup] | intros _].
  apply hoare_bind with (R := fun _ => G (is_held_out held_out) k);
    [apply keeps_hoare; [repeat keeps_step; grown_side | exact Hup] | intros _].
  intros st H. unfold catch_stop.
  pose proof (@train_attempt_grown held_out e t k st H) as Hb.
  destruct (train_attempt env cls held_out e t st) as [[u | exn] st']; [exact Hb |].
  destruct exn; exact Hb.
Qed.

Lemma for_epochs_grown flag held_out it n :
  forall k e,
    hoare (G (is_held_out held_out) k)
          (for_epochs env n e it (epoch_body env cls flag held_out))
          (fun _ => G (is_held_out held_out) (k + n)%nat)
          (G (is_held_out held_out) (k + n)%nat).
Proof.
  induction n as [| n IH]; intros k e st H.
  - cbn. now rewrite Nat.add_0_r.
  - cbn [for_epochs].
    destruct (iter_yields env it (self st)).
    + pose proof (@epoch_body_grown flag held_out e k st H) as Hb.
      destruct (epoch_body env cls flag held_out e st) as [[[|] | exn] st'].
      * specialize (IH (S k) (e + 1) st' Hb).
        now replace (k + S n)%nat with (S k + n)%nat by lia.
      * eapply grown_more; [| exact Hb]. lia.
      * eapply grown_more; [| exact Hb]. lia.
    + eapply grown_more; [| exact H]. lia.
Qed.

Lemma after_loop_grown both k : keeps (G both k) (after_loop env cls).
Proof.
  unfold after_loop.
  repeat first [apply next_grown | apply close_grown | keeps_step]; grown_side.
Qed.

Lemma hoare_pure {A} (P : State Tensor M -> Prop) (phi : Prop)
      (p : Py Tensor M A) Q E :
  (phi -> hoare P p Q E) -> hoare (fun st => P st /\ phi) p Q E.
Proof. intros H st [HP Hphi]. exact (H Hphi st HP). Qed.

Lemma train_run_grown input_test target_test epochs epsilon warn :
  hoare (G (compute_error_out input_test target_test) 0%nat)
        (train_run env cls input_test target_test epochs epsilon warn)
        (fun _ => G (compute_error_out input_test target_test) (Z.to_nat epochs))
        (G (compute_error_out input_test target_test) (Z.to_nat epochs)).
Proof.
  set (both := compute_error_out input_test target_test).
  assert (Hboth : both = compute_error_out input_test target_test) by reflexivity.
  clearbody both.
  assert (Hup : forall st : State Tensor M,
             G both 0%nat st -> G both (Z.to_nat epochs) st).
  { intros st. apply grown_more. lia. }
  unfold train_run.
  do 8 (apply hoare_bind with (R := fun _ => G both 0%nat);
        [apply keeps_hoare; [repeat keeps_step; grown_side | exact Hup] | intros]).
  cbv zeta.
  apply hoare_bind
    with (R := fun ho st => G both 0%nat st /\ is_held_out ho = both).
  { intros st H.
    destruct input_test, target_test; try destruct (prediction_error cls);
      cbn in Hboth; subst both; cbn; auto. }
  intros held_out. apply hoare_pure. intros Hho.
  rewrite <- Hho in Hup |- *.
  apply hoare_bind with (R := fun _ => G (is_held_out held_out) 0%nat);
    [apply keeps_hoare; [repeat keeps_step; grown_side | exact Hup] | intros].
  apply hoare_bind with (R := fun _ => G (is_held_out held_out) (Z.to_nat epochs)).
  - apply for_epochs_grown with (k := 0%nat).
  - intros _. apply after_loop_grown.
Qed.

End ErrorLists.

(** X8: a run only appends to the two error lists and keeps them aligned.
    For a class whose epoch-start hook leaves the lists alone (both hooks of
    the sources do), and whatever [train_epoch], [prediction_error], the
    callbacks and the clock do and however the call ends: the earlier
    entries of [errors_in] and [errors_out] are kept, at most [epochs]
    training errors are appended, and exactly as many validation errors as
    training errors when both test arrays are given, none otherwise. *)
Theorem X8_error_lists_aligned
        (Tensor M : Type) (env : Env Tensor M) (cls : NetworkClass Tensor M)
        (input_train : Tensor) (target_train input_test target_test : option Tensor)
        (epochs : Z) (epsilon : option Q) (net : Network Tensor M)
        (w : World Tensor M) :
  (forall e n, errors_in (epoch_start_update cls e n) = errors_in n /\
               errors_out (epoch_start_update cls e n) = errors_out n) ->
  exists ins outs,
    errors_in (snd (fst (_train env cls input_train target_train input_test
                                target_test epochs epsilon net w)))
      = errors_in net ++ ins /\
    errors_out (snd (fst (_train env cls input_train target_train input_test
                                 target_test epochs epsilon net w)))
      = errors_out net ++ outs /\
    (List.length ins <= Z.to_nat epochs)%nat /\
    List.length outs = (if compute_error_out input_test target_test
                        then List.length ins else 0%nat).
Proof.
  intros Hhook.
  assert (Hnone : exists ins outs : list Num,
             errors_in net = errors_in net ++ ins /\
             errors_out net = errors_out net ++ outs /\
             (List.length ins <= Z.to_nat epochs)%nat /\
             List.length outs = (if compute_error_out input_test target_test
                                 then List.length ins else 0%nat)).
  { exists [], []. rewrite !app_nil_r. cbn.
    repeat split; try lia. now destruct (compute_error_out input_test target_test). }
  unfold _train. destruct (is_feature1d cls net) as [f1 f2].
  destruct (match epsilon with Some _ => epochs <=? 2 | None => false end).
  { exact Hnone. }
  destruct (reporting_cadence (show_epoch net) epochs epsilon) as [[k warn] | exn].
  2:{ exact Hnone. }
  match goal with
  | |- context [train_run env cls ?xt ?yt epochs epsilon warn ?s] =>
      pose proof (@train_run_grown Tensor M env cls (errors_in net) (errors_out net)
                    Hhook xt yt epochs epsilon warn s) as H;
      destruct (train_run env cls xt yt epochs epsilon warn s) as [r st]
  end.
  cbn [fst snd].
  assert (H0 : compute_error_out
                 (option_map (fun t => format_data env t f1) input_test)
                 (option_map (fun t => format_data env t f2) target_test)
               = compute_error_out input_test target_test).
  { now destruct input_test, target_test. }
  rewrite H0 in H.
  assert (Hres : grown (errors_in net) (errors_out net)
                       (compute_error_out input_test target_test)
                       (Z.to_nat epochs) false st).
  { destruct r as [u | exn]; apply H;
      exists [], []; cbn; rewrite !app_nil_r;
      repeat split; try lia;
      now destruct (compute_error_out input_test target_test). }
  destruct Hres as [ins [outs [H1 [H2 [H3 H4]]]]].
  exists ins, outs. repeat split; try assumption.
  rewrite H4. destruct (compute_error_out input_test target_test); lia.
Qed.

Lemma X8_witness :
  exists ins outs,
    errors_in (snd (fst (_train (unit_env second_clock) (validating_class 7)
                                tt None (Some tt) (Some tt) 100 None
                                (fresh_network (SEInt 5)) fresh_world)))
      = errors_in (fresh_network (SEInt 5)) ++ ins /\
    errors_out (snd (fst (_train (unit_env second_clock) (validating_class 7)
                                 tt None (Some tt) (Some tt) 100 None
                                 (fresh_network (SEInt 5)) fresh_world)))
      = errors_out (fresh_network (SEInt 5)) ++ outs /\
    (List.length ins <= Z.to_nat 100)%nat /\
    List.length outs = (if compute_error_out (Some tt) (Some tt)
                        then List.length ins else 0%nat).
Proof.
  apply (@X8_error_lists_aligned unit unit (unit_env second_clock) (validating_class 7)
           tt None (Some tt) (Some tt) 100 None (fresh_network (SEInt 5)) fresh_world).
  intros e n. split; reflexivity.
Defined.

(** ** Whole runs on a clock that advances *)

Section SoundRun.

Variables Tensor M : Type.
Variable env : Env Tensor M.
Variable cls : NetworkClass Tensor M.

Hypothesis hook_extends_base :
  forall e n, exists m, epoch_start_update cls e n = with_model m (with_epoch e n).
Hypothesis clock_advances : advancing (clock env).

Variable held_out : HeldOut Tensor M.
Variable flag : bool.
Variable limit : Z.
Variable n0 : nat.
Variable t0 : list (Event Tensor M).

Hypothesis held_out_ok :
  forall pe xt yt, held_out = Some (pe, xt, yt) ->
                   forall n, exists eo, fst (pe n xt yt) = Ok eo.
Hypothesis signal_ok :
  forall f, epoch_end_signal cls = Some f -> forall n, fst (f n) = Ok tt.
Hypothesis train_ok :
  forall n x y e, epoch n = Some e -> 1 <= e < limit ->
                  exists err, fst (train_epoch cls n x y) = Ok err.

#[local] Abbreviation before := (before_run_pass (clock env) n0 t0).

(** A pass in which [train_epoch] returns. *)
Lemma run_pass e (st : State Tensor M) :
  1 <= e < limit -> before e st ->
  exists st', epoch_body env cls flag held_out e st = (Ok Next, st') /\
              before (e + 1) st'.
Proof.
  intros He [Hlen [Hshow [Hsound [Hlast [_ [evs [Htr [Hc1 Hc2]]]]]]]].
  destruct (@epoch_body_next Tensor M env cls held_out held_out_ok signal_ok
              (fun k g' => 1 <= k /\
                           sound_buffer (clock env) (S (S (S (ticks (world st))))) g')
              flag e st) as [st' [n_call [x [y H]]]].
  - apply (hook_epoch cls hook_extends_base).
  - intros n a b Hn _. now apply (train_ok n a b Hn).
  - lia.
  - apply Hsound.
  - intros n Hn.
    destruct (@step_sound_buffer Tensor M env n (S (S (ticks (world st)))) _ _ e
                clock_advances Hn Hsound)
      as [evs1 [k [g' [Hstep [Hk [_ Hs']]]]]]; [lia |].
    exists evs1, k, g'. auto.
  - destruct H as [Hrun [_ [_ [Herrs [[err Herr] [Hepoch [_ [Hle Hcases]]]]]]]].
    rewrite Herr, (hook_errors_in cls hook_extends_base) in Herrs.
    destruct (epoch_body_trace env cls flag held_out e st)
      as [snap [evs' [Htr' [Hev' _]]]].
    rewrite Hrun in Htr'. cbn [snd] in Htr'.
    destruct (epoch_events_not_calls evs' Hev') as [Hn1 Hn2].
    exists st'. split; [exact Hrun |].
    unfold before_run_pass. replace (e + 1 - 1) with e by lia.
    assert (Hnat : Z.to_nat e = S (Z.to_nat (e - 1))) by lia.
    split.
    { rewrite Herrs, length_app, Hlen. simpl. lia. }
    assert (Htrace :
      exists evs0,
        trace (world st') = t0 ++ evs0 /\
        count_events is_train_epoch_call evs0 = Z.to_nat e /\
        count_events is_train_end_call evs0 = 0%nat).
    { exists (evs ++ CallTrainEpoch snap :: evs').
      rewrite Htr', Htr, <- app_assoc. split; [reflexivity |].
      rewrite !count_events_app, Hc1, Hc2.
      change (CallTrainEpoch snap :: evs') with ([CallTrainEpoch snap] ++ evs').
      rewrite !count_events_app, Hn1, Hn2. cbn. split; lia. }
    destruct Hcases as [[Ht [Hs [Hk Hl]]] | [Ht [[Hk Hs] Hl]]].
    + rewrite Hs, Hk, Hl, Ht. split; [exact Hshow |].
      split; [eapply sound_buffer_later; [exact Hsound | lia] |].
      split; [lia |].
      split; [intros _; split; assumption | exact Htrace].
    + rewrite Hl, Ht. split; [exact Hk |]. split; [exact Hs |].
      split; [lia |].
      split; [intros _; split; assumption | exact Htrace].
Qed.

(** The passes before epoch [limit]. *)
Lemma run_prefix (rest : nat) (st : State Tensor M) :
  1 <= limit -> before 1 st ->
  exists st1,
    for_epochs env (Z.to_nat (limit - 1) + rest) 1 RangeIter
               (epoch_body env cls flag held_out) st =
    for_epochs env rest limit RangeIter (epoch_body env cls flag held_out) st1 /\
    before limit st1.
Proof.
  intros Hl Hb.
  destruct (@for_epochs_prefix Tensor M env before
              (epoch_body env cls flag held_out)
              (Z.to_nat (limit - 1)) rest 1 st) as [st1 [Hrun H1]].
  - intros k st2 Hk Hb2. apply run_pass; [lia | exact Hb2].
  - exact Hb.
  - replace (1 + Z.of_nat (Z.to_nat (limit - 1))) with limit in * by lia.
    exists st1. auto.
Qed.

Hypothesis train_end_ok :
  forall f, train_end_signal cls = Some f -> forall n, fst (f n) = Ok tt.

(** The clock is only ever read. *)
Lemma ticks_grow T e :
  keeps (fun s : State Tensor M => (T <= ticks (world s))%nat)
        (epoch_body env cls flag held_out e).
Proof.
  unfold epoch_body, train_attempt, next_epoch_summary.
  repeat first [apply keeps_catch_stop; [| intros] | keeps_step];
    intros; cbn; lia.
Qed.

(** What follows a loop whose last pass was for epoch [e]. *)
Lemma run_end e T (st : State Tensor M) :
  l_epoch (locals st) = Some e -> epoch (self st) = Some e ->
  sound_buffer (clock env) T (epoch_summary (locals st)) ->
  (T <= ticks (world st))%nat ->
  exists st',
    after_loop env cls st = (Ok tt, st') /\
    errors_in (self st') = errors_in (self st) /\
    epoch (self st') = Some e /\
    exists evs,
      trace (world st') = trace (world st) ++ evs /\
      count_events is_train_epoch_call evs = 0%nat /\
      count_events is_train_end_call evs =
        match train_end_signal cls with Some _ => 1%nat | None => 0%nat end.
Proof.
  intros Hle Hepoch Hsound HT.
  assert (Hkeep : keeps (fun s : State Tensor M => epoch (self s) = Some e)
                        (after_loop env cls)).
  { unfold after_loop, next_epoch_summary, close_epoch_summary, summary_finally.
    repeat keeps_step; intros; assumption. }
  specialize (Hkeep st Hepoch).
  destruct (@after_loop_ok Tensor M env cls e st) as [st' [Hfin [Herrs [_ Htr]]]].
  - exact Hle.
  - apply Hsound.
  - intros _.
    destruct (@step_sound_buffer Tensor M env (self st) (ticks (world st)) T _ e
                clock_advances Hepoch Hsound HT)
      as [evs [k [g' [Hstep' _]]]].
    eauto.
  - exact train_end_ok.
  - rewrite Hfin in Hkeep. exists st'. auto.
Qed.

(** A run whose every pass returns. *)
Lemma completed_run epochs (st : State Tensor M) :
  limit = epochs + 1 -> 1 <= epochs -> before 1 st ->
  exists st' evs,
    pbind (for_epochs env (Z.to_nat epochs) 1 RangeIter
                      (epoch_body env cls flag held_out))
          (fun _ => after_loop env cls) st = (Ok tt, st') /\
    trace (world st') = t0 ++ evs /\
    List.length (errors_in (self st')) = (n0 + Z.to_nat epochs)%nat /\
    epoch (self st') = Some epochs /\
    count_events is_train_epoch_call evs = Z.to_nat epochs /\
    count_events is_train_end_call evs =
      match train_end_signal cls with Some _ => 1%nat | None => 0%nat end.
Proof.
  intros Hlim Hep Hb.
  destruct (@run_prefix 0%nat st ltac:(lia) Hb) as [st1 [Hrun H1]].
  rewrite Nat.add_0_r in Hrun.
  replace (limit - 1) with epochs in Hrun by lia.
  rewrite pbind_eq, Hrun. cbn [for_epochs ret].
  destruct H1 as [Hlen [_ [Hsound [_ [Hprev [evs [Htr [Hc1 Hc2]]]]]]]].
  replace (limit - 1) with epochs in * by lia.
  destruct (Hprev ltac:(lia)) as [Hle Hepoch].
  destruct (@run_end epochs _ st1 Hle Hepoch Hsound (Nat.le_refl _))
    as [st2 [Hfin [Herrs [Hep2 [evs2 [Htr2 [Hd1 Hd2]]]]]]].
  exists st2, (evs ++ evs2). split; [exact Hfin |].
  split; [rewrite Htr2, Htr, app_assoc; reflexivity |].
  split; [rewrite Herrs; exact Hlen |].
  split; [exact Hep2 |].
  rewrite !count_events_app, Hc1, Hc2, Hd1, Hd2. split; lia.
Qed.

(** A run in which [train_epoch] raises the stop signal at epoch [limit]. *)
Lemma stopped_at_run (rest : nat) (st : State Tensor M) :
  1 <= limit ->
  (forall n x y, epoch n = Some limit ->
                 exists msg, fst (train_epoch cls n x y) =
                             Raise (StopNetworkTraining msg)) ->
  before 1 st ->
  exists st' evs msg,
    pbind (for_epochs env (Z.to_nat (limit - 1) + S rest) 1 RangeIter
                      (epoch_body env cls flag held_out))
          (fun _ => after_loop env cls) st = (Ok tt, st') /\
    trace (world st') = t0 ++ evs /\
    List.length (errors_in (self st')) = (n0 + Z.to_nat (limit - 1))%nat /\
    epoch (self st') = Some limit /\
    count_events is_train_epoch_call evs = Z.to_nat limit /\
    In (Log (MsgEpochStopped limit msg)) evs /\
    count_events is_train_end_call evs =
      match train_end_signal cls with Some _ => 1%nat | None => 0%nat end.
Proof.
  intros Hl Hstop Hb.
  destruct (@run_prefix (S rest) st Hl Hb) as [st1 [Hrun H1]].
  rewrite pbind_eq, Hrun. cbn [for_epochs iter_yields].
  destruct (epoch_body_break env cls held_out flag limit st1)
    as [st2 [msg [Hbody [Herrs [Hep [Hle [_ [_ [Hg [snap Htr]]]]]]]]]].
  { intros n x y Hn. apply Hstop.
    now rewrite Hn, (hook_epoch cls hook_extends_base). }
  rewrite Hbody.
  destruct H1 as [Hlen [_ [Hsound [_ [_ [evs [Htr1 [Hc1 Hc2]]]]]]]].
  rewrite (hook_epoch cls hook_extends_base) in Hep.
  rewrite (hook_errors_in cls hook_extends_base) in Herrs.
  pose proof (@ticks_grow (ticks (world st1)) limit st1 (Nat.le_refl _)) as Hticks.
  rewrite Hbody in Hticks.
  rewrite <- Hg in Hsound.
  destruct (@run_end limit _ st2 Hle Hep Hsound Hticks)
    as [st3 [Hfin [Herr3 [Hep3 [evs3 [Htr3 [Hd1 Hd2]]]]]]].
  exists st3, (evs ++ [CallTrainEpoch snap; Log (MsgEpochStopped limit msg)] ++ evs3),
         msg.
  split; [exact Hfin |].
  split; [rewrite Htr3, Htr, Htr1, <- !app_assoc; reflexivity |].
  split; [rewrite Herr3, Herrs; exact Hlen |].
  split; [exact Hep3 |].
  rewrite !count_events_app, Hc1, Hc2, Hd1, Hd2. cbn.
  split; [lia |]. split; [| reflexivity].
  apply in_or_app. right. cbn. auto.
Qed.

(** A pass in which [train_epoch] raises an exception that is not the stop
    signal: nothing catches it. *)
Lemma epoch_body_raise e exn (st : State Tensor M) :
  (forall msg, exn <> StopNetworkTraining msg) ->
  (forall n x y, epoch n = Some e -> fst (train_epoch cls n x y) = Raise exn) ->
  exists st' snap,
    epoch_body env cls flag held_out e st = (Raise exn, st') /\
    errors_in (self st') = errors_in (self st) /\
    epoch (self st') = Some e /\
    trace (world st') = trace (world st) ++ [CallTrainEpoch snap].
Proof.
  intros Hns Hraise.
  destruct (epoch_body_eq env cls held_out flag e st)
    as [st1 [Heq [He1 [_ [Herr1 [_ [Htr1 _]]]]]]].
  rewrite (hook_epoch cls hook_extends_base) in He1.
  rewrite (hook_errors_in cls hook_extends_base) in Herr1.
  rewrite Heq. unfold catch_stop, train_attempt.
  rewrite run_get_locals, run_get_self, run_emit, run_call.
  cbn [self world locals ticks rng trace].
  rewrite (Hraise (self st1) _ _ He1).
  exists (mkState (with_model
                     (snd (train_epoch cls (self st1) (l_input_train (locals st1))
                                       (l_target_train (locals st1))))
                     (self st1))
                  (mkWorld (ticks (world st1)) (rng (world st1))
                           (trace (world st1) ++ [CallTrainEpoch (self st1)]))
                  (locals st1)),
         (self st1).
  split.
  - destruct exn; try reflexivity. exfalso. exact (Hns message eq_refl).
  - cbn. rewrite Htr1. auto.
Qed.

(** A run in which [train_epoch] raises such an exception at epoch
    [limit]. *)
Lemma failed_run (rest : nat) exn (st : State Tensor M) :
  1 <= limit ->
  (forall msg, exn <> StopNetworkTraining msg) ->
  (forall n x y, epoch n = Some limit ->
                 fst (train_epoch cls n x y) = Raise exn) ->
  before 1 st ->
  exists st' evs,
    pbind (for_epochs env (Z.to_nat (limit - 1) + S rest) 1 RangeIter
                      (epoch_body env cls flag held_out))
          (fun _ => after_loop env cls) st = (Raise exn, st') /\
    trace (world st') = t0 ++ evs /\
    List.length (errors_in (self st')) = (n0 + Z.to_nat (limit - 1))%nat /\
    epoch (self st') = Some limit /\
    count_events is_train_epoch_call evs = Z.to_nat limit /\
    count_events is_train_end_call evs = 0%nat.
Proof.
  intros Hl Hns Hraise Hb.
  destruct (@run_prefix (S rest) st Hl Hb) as [st1 [Hrun H1]].
  rewrite pbind_eq, Hrun. cbn [for_epochs iter_yields].
  destruct (@epoch_body_raise limit exn st1 Hns Hraise)
    as [st2 [snap [Hbody [Herrs [Hep Htr]]]]].
  rewrite Hbody.
  destruct H1 as [Hlen [_ [_ [_ [_ [evs [Htr1 [Hc1 Hc2]]]]]]]].
  exists st2, (evs ++ [CallTrainEpoch snap]).
  split; [reflexivity |].
  split; [rewrite Htr, Htr1, <- app_assoc; reflexivity |].
  split; [rewrite Herrs; exact Hlen |].
  split; [exact Hep |].
  rewrite !count_events_app, Hc1, Hc2. cbn. split; lia.
Qed.

End SoundRun.

Section RunStart.

Variables Tensor M : Type.
Variable env : Env Tensor M.
Variable cls : NetworkClass Tensor M.

(** A call on a fixed number of epochs with a validated cadence, up to its
    loop. *)
Lemma train_starts input_train target_train input_test target_test epochs
      (net : Network Tensor M) (w : World Tensor M) :
  ShowEpochProperty_validate (show_epoch net) = Ok tt ->
  (input_test = None \/ target_test = None \/
   exists pe, prediction_error cls = Some pe /\
              forall n a b, exists eo, fst (pe n a b) = Ok eo) ->
  exists st1 held_out,
    _train env cls input_train target_train input_test target_test
           epochs None net w =
    (let (r, st) :=
       pbind (for_epochs env (Z.to_nat epochs) 1 RangeIter
                         (epoch_body env cls (shuffle_data net) held_out))
             (fun _ => after_loop env cls) st1 in
     (r, self st, world st)) /\
    (forall pe xt yt, held_out = Some (pe, xt, yt) ->
                      forall n, exists eo, fst (pe n xt yt) = Ok eo) /\
    before_run_pass (clock env) (List.length (errors_in net)) (trace w) 1 st1.
Proof.
  intros Hval Hpe.
  unfold _train. destruct (is_feature1d cls net) as [f1 f2]. cbv iota.
  destruct (validate_parse_ok _ epochs Hval) as [K0 [Hparse HK]].
  unfold reporting_cadence. rewrite Hparse. cbn [bind].
  match goal with
  | |- context [train_run env cls ?xt ?yt epochs None false ?s] =>
      set (st0 := s);
      destruct (@train_run_range Tensor M env cls xt yt epochs st0)
        as [st1 [ho [Hrun [Hho1 [Hho2 [Hself [Hloc [Htk [evs0 [Htr0 [Hc0 Hd0]]]]]]]]]]]
  end.
  { destruct Hpe as [H | [H | [pe [H _]]]].
    - left. now rewrite H.
    - right. left. now rewrite H.
    - right. right. congruence. }
  exists st1, ho. rewrite Hrun. split; [reflexivity |]. split.
  - intros pe xt yt Hho n.
    pose proof (Hho1 _ _ _ Hho) as Hcls.
    destruct Hpe as [H | [H | [pe' [H Hok]]]].
    + assert (Hn : ho = None).
      { apply Hho2. left. now rewrite H. }
      congruence.
    + assert (Hn : ho = None).
      { apply Hho2. right. now rewrite H. }
      congruence.
    + assert (pe = pe') by congruence. subst pe'. apply Hok.
  - unfold before_run_pass. rewrite Hself, Hloc, Htk. subst st0.
    cbn [self world locals errors_in with_train_data l_show_epoch
         l_last_epoch_shown epoch_summary ticks].
    replace (Z.to_nat (1 - 1)) with 0%nat by reflexivity.
    split; [lia |]. split; [exact HK |].
    split.
    { repeat split; try discriminate; cbn; try assumption; try constructor. }
    split; [lia |]. split; [lia |].
    exists evs0. rewrite Htr0. cbn [world trace]. auto.
Qed.

End RunStart.

(** X9: a run on a fixed number of epochs in which every call returns runs
    all its epochs.  For an object the constructor accepts (a validated
    [show_epoch]), a class whose epoch-start hook extends the base one, a
    clock that advances between readings, and [train_epoch],
    [prediction_error] and the callbacks returning: [_train] with
    [epochs >= 1] returns normally, has called [train_epoch] exactly
    [epochs] times and appended exactly [epochs] training errors, leaves the
    epoch attribute at [epochs], and has called [train_end_signal], when
    set, exactly once. *)
Theorem X9_run_completes
        (Tensor M : Type) (env : Env Tensor M) (cls : NetworkClass Tensor M)
        (input_train : Tensor) (target_train input_test target_test : option Tensor)
        (epochs : Z) (net : Network Tensor M) (w : World Tensor M) :
  1 <= epochs ->
  ShowEpochProperty_validate (show_epoch net) = Ok tt ->
  advancing (clock env) ->
  (forall e n, exists m, epoch_start_update cls e n = with_model m (with_epoch e n)) ->
  (forall n a b e, epoch n = Some e -> 1 <= e <= epochs ->
                   exists err, fst (train_epoch cls n a b) = Ok err) ->
  (input_test = None \/ target_test = None \/
   exists pe, prediction_error cls = Some pe /\
              forall n a b, exists eo, fst (pe n a b) = Ok eo) ->
  (forall f, epoch_end_signal cls = Some f -> forall n, fst (f n) = Ok tt) ->
  (forall f, train_end_signal cls = Some f -> forall n, fst (f n) = Ok tt) ->
  exists net' w' evs,
    _train env cls input_train target_train input_test target_test
           epochs None net w = (Ok tt, net', w') /\
    trace w' = trace w ++ evs /\
    List.length (errors_in net') = (List.length (errors_in net) + Z.to_nat epochs)%nat /\
    epoch net' = Some epochs /\
    count_events is_train_epoch_call evs = Z.to_nat epochs /\
    count_events is_train_end_call evs =
      match train_end_signal cls with Some _ => 1%nat | None => 0%nat end.
Proof.
  intros Hep Hval Hclock Hhook Htrain Hpe Hsig Hend.
  destruct (@train_starts Tensor M env cls input_train target_train input_test
              target_test epochs net w Hval Hpe) as [st1 [ho [Hrun [Hho Hb]]]].
  rewrite Hrun.
  destruct (@completed_run Tensor M env cls Hhook Hclock ho (shuffle_data net)
              (epochs + 1) (List.length (errors_in net)) (trace w) Hho Hsig)
    with (epochs := epochs) (st := st1)
    as [st' [evs [Hfin H]]]; try assumption; try reflexivity.
  - intros n a b e Hn He. apply (Htrain n a b e Hn). lia.
  - rewrite Hfin. exists (self st'), (world st'), evs. auto.
Qed.

Lemma X9_witness :
  exists net' w' evs,
    _train (unit_env second_clock) (stopping_class 0) tt None None None
           25 None (fresh_network (SEStr "10 times")) fresh_world
    = (Ok tt, net', w') /\
    trace w' = trace fresh_world ++ evs /\
    List.length (errors_in net') = 25%nat /\
    epoch net' = Some 25 /\
    count_events is_train_epoch_call evs = 25%nat /\
    count_events is_train_end_call evs = 1%nat.
Proof.
  apply (@X9_run_completes unit unit (unit_env second_clock) (stopping_class 0)
           tt None None None 25 (fresh_network (SEStr "10 times")) fresh_world).
  - lia.
  - reflexivity.
  - exact second_clock_advances.
  - intros e n. exists (model n). now destruct n.
  - intros n a b e Hn He. cbn. rewrite Hn.
    destruct (e =? 0) eqn:E; [apply Z.eqb_eq in E; lia |]. now exists (Fin 1).
  - now left.
  - intros f Hf. discriminate.
  - intros f Hf n. cbn in Hf. inversion Hf. reflexivity.
Defined.

(** X10: an exception of [train_epoch] other than the stop signal leaves
    [_train] as it is.  Under the conditions of X9 for the epochs before
    [k], when [train_epoch] raises such an exception on epoch [k] of a run
    requested with [epochs >= k], the call raises that exception; [k] calls
    of [train_epoch] were made and [k - 1] training errors appended, and
    [train_end_signal] was not called. *)
Theorem X10_exception_propagates
        (Tensor M : Type) (env : Env Tensor M) (cls : NetworkClass Tensor M)
        (input_train : Tensor) (target_train input_test target_test : option Tensor)
        (epochs k : Z) (exn : Exn) (net : Network Tensor M) (w : World Tensor M) :
  1 <= k <= epochs ->
  (forall msg, exn <> StopNetworkTraining msg) ->
  ShowEpochProperty_validate (show_epoch net) = Ok tt ->
  advancing (clock env) ->
  (forall e n, exists m, epoch_start_update cls e n = with_model m (with_epoch e n)) ->
  (forall n a b e, epoch n = Some e -> 1 <= e < k ->
                   exists err, fst (train_epoch cls n a b) = Ok err) ->
  (forall n a b, epoch n = Some k -> fst (train_epoch cls n a b) = Raise exn) ->
  (input_test = None \/ target_test = None \/
   exists pe, prediction_error cls = Some pe /\
              forall n a b, exists eo, fst (pe n a b) = Ok eo) ->
  (forall f, epoch_end_signal cls = Some f -> forall n, fst (f n) = Ok tt) ->
  exists net' w' evs,
    _train env cls input_train target_train input_test target_test
           epochs None net w = (Raise exn, net', w') /\
    trace w' = trace w ++ evs /\
    List.length (errors_in net') =
      (List.length (errors_in net) + Z.to_nat (k - 1))%nat /\
    epoch net' = Some k /\
    count_events is_train_epoch_call evs = Z.to_nat k /\
    count_events is_train_end_call evs = 0%nat.
Proof.
  intros Hk Hns Hval Hclock Hhook Htrain Hraise Hpe Hsig.
  destruct (@train_starts Tensor M env cls input_train target_train input_test
              target_test epochs net w Hval Hpe) as [st1 [ho [Hrun [Hho Hb]]]].
  rewrite Hrun.
  replace (Z.to_nat epochs)
    with (Z.to_nat (k - 1) + S (Z.to_nat (epochs - k)))%nat by lia.
  destruct (@failed_run Tensor M env cls Hhook Hclock ho (shuffle_data net)
              k (List.length (errors_in net)) (trace w) Hho Hsig Htrain
              (Z.to_nat (epochs - k)) exn st1)
    as [st' [evs [Hfin H]]]; try assumption; try lia.
  rewrite Hfin. exists (self st'), (world st'), evs. auto.
Qed.

Lemma X10_witness :
  exists net' w' evs,
    _train (unit_env second_clock) (failing_class 12) tt None None None
           100 None (fresh_network (SEStr "10 times")) fresh_world
    = (Raise (OtherError 0), net', w') /\
    trace w' = trace fresh_world ++ evs /\
    List.length (errors_in net') = 11%nat /\
    epoch net' = Some 12 /\
    count_events is_train_epoch_call evs = 12%nat /\
    count_events is_train_end_call evs = 0%nat.
Proof.
  apply (@X10_exception_propagates unit unit (unit_env second_clock)
           (failing_class 12) tt None None None 100 12 (OtherError 0)
           (fresh_network (SEStr "10 times")) fresh_world).
  - lia.
  - discriminate.
  - reflexivity.
  - exact second_clock_advances.
  - intros e n. exists (model n). now destruct n.
  - intros n a b e Hn He. cbn. rewrite Hn.
    destruct (e =? 12) eqn:E; [apply Z.eqb_eq in E; lia |]. now exists (Fin 1).
  - intros n a b Hn. cbn. now rewrite Hn.
  - now left.
  - intros f Hf. discriminate.
Defined.

(** X11: a stop signal ends the run at any epoch.  Under the conditions of
    X9 for the epochs before [k], when [train_epoch] raises
    [StopNetworkTraining] on epoch [k] of a run requested with
    [epochs >= k], the call returns normally: [k] calls of [train_epoch]
    were made and no more, [k - 1] training errors were appended (the
    stopped epoch appends none), the stop of epoch [k] is logged, the epoch
    attribute stays at [k], and [train_end_signal], when set, is called
    exactly once. *)
Theorem X11_stop_at_any_epoch
        (Tensor M : Type) (env : Env Tensor M) (cls : NetworkClass Tensor M)
        (input_train : Tensor) (target_train input_test target_test : option Tensor)
        (epochs k : Z) (net : Network Tensor M) (w : World Tensor M) :
  1 <= k <= epochs ->
  ShowEpochProperty_validate (show_epoch net) = Ok tt ->
  advancing (clock env) ->
  (forall e n, exists m, epoch_start_update cls e n = with_model m (with_epoch e n)) ->
  (forall n a b e, epoch n = Some e -> 1 <= e < k ->
                   exists err, fst (train_epoch cls n a b) = Ok err) ->
  (forall n a b, epoch n = Some k ->
                 exists msg, fst (train_epoch cls n a b) =
                             Raise (StopNetworkTraining msg)) ->
  (input_test = None \/ target_test = None \/
   exists pe, prediction_error cls = Some pe /\
              forall n a b, exists eo, fst (pe n a b) = Ok eo) ->
  (forall f, epoch_end_signal cls = Some f -> forall n, fst (f n) = Ok tt) ->
  (forall f, train_end_signal cls = Some f -> forall n, fst (f n) = Ok tt) ->
  exists net' w' evs msg,
    _train env cls input_train target_train input_test target_test
           epochs None net w = (Ok tt, net', w') /\
    trace w' = trace w ++ evs /\
    List.length (errors_in net') =
      (List.length (errors_in net) + Z.to_nat (k - 1))%nat /\
    epoch net' = Some k /\
    count_events is_train_epoch_call evs = Z.to_nat k /\
    In (Log (MsgEpochStopped k msg)) evs /\
    count_events is_train_end_call evs =
      match train_end_signal cls with Some _ => 1%nat | None => 0%nat end.
Proof.
  intros Hk Hval Hclock Hhook Htrain Hstop Hpe Hsig Hend.
  destruct (@train_starts Tensor M env cls input_train target_train input_test
              target_test epochs net w Hval Hpe) as [st1 [ho [Hrun [Hho Hb]]]].
  rewrite Hrun.
  replace (Z.to_nat epochs)
    with (Z.to_nat (k - 1) + S (Z.to_nat (epochs - k)))%nat by lia.
  destruct (@stopped_at_run Tensor M env cls Hhook Hclock ho (shuffle_data net)
              k (List.length (errors_in net)) (trace w) Hho Hsig Htrain Hend
              (Z.to_nat (epochs - k)) st1)
    as [st' [evs [msg [Hfin H]]]]; try assumption; try lia.
  rewrite Hfin. exists (self st'), (world st'), evs, msg. auto.
Qed.

Lemma X11_witness :
  exists net' w' evs msg,
    _train (unit_env second_clock) (stopping_class 42) tt None None None
           100 None (fresh_network (SEInt 1)) fresh_world
    = (Ok tt, net', w') /\
    trace w' = trace fresh_world ++ evs /\
    List.length (errors_in net') = 41%nat /\
    epoch net' = Some 42 /\
    count_events is_train_epoch_call evs = 42%nat /\
    In (Log (MsgEpochStopped 42 msg)) evs /\
    count_events is_train_end_call evs = 1%nat.
Proof.
  apply (@X11_stop_at_any_epoch unit unit (unit_env second_clock) (stopping_class 42)
           tt None None None 100 42 (fresh_network (SEInt 1)) fresh_world).
  - lia.
  - reflexivity.
  - exact second_clock_advances.
  - intros e n. exists (model n). now destruct n.
  - intros n a b e Hn He. cbn. rewrite Hn.
    destruct (e =? 42) eqn:E; [apply Z.eqb_eq in E; lia |]. now exists (Fin 1).
  - intros n a b Hn. cbn. rewrite Hn. now exists "stop"%string.
  - now left.
  - intros f Hf. discriminate.
  - intros f Hf n. cbn in Hf. inversion Hf. reflexivity.
Defined.

(** ** The last epoch always gets its row *)

Section LastRow.

Variables Tensor M : Type.
Variable env : Env Tensor M.
Variable cls : NetworkClass Tensor M.
Variable t0 : list (Event Tensor M).

Hypothesis hook_extends_base :
  forall e n, exists m, epoch_start_update cls e n = with_model m (with_epoch e n).

Lemma row_epochs_app (a b : list (Event Tensor M)) :
  row_epochs (a ++ b) = row_epochs a ++ row_epochs b.
Proof. unfold row_epochs. apply flat_map_app. Qed.

Lemma rows_inv_step (st st' : State Tensor M) extra :
  trace (world st') = trace (world st) ++ extra ->
  l_epoch (locals st') = l_epoch (locals st) ->
  l_last_epoch_shown (locals st') = l_last_epoch_shown (locals st) ->
  epoch (self st') = epoch (self st) ->
  rows_inv t0 st -> rows_inv t0 st'.
Proof.
  intros Ht Hl Hs He [evs [Htr [Hle Hsh]]]. exists (evs ++ extra).
  rewrite Ht, Htr, Hl, Hs, He, row_epochs_app, <- app_assoc.
  split; [reflexivity |]. split; [exact Hle |].
  destruct Hsh as [H | H]; [now left | right; apply in_or_app; now left].
Qed.

Lemma pass_inv_step e (st st' : State Tensor M) extra :
  trace (world st') = trace (world st) ++ extra ->
  l_epoch (locals st') = l_epoch (locals st) ->
  l_last_epoch_shown (locals st') = l_last_epoch_shown (locals st) ->
  epoch (self st') = epoch (self st) ->
  pass_inv t0 e st -> pass_inv t0 e st'.
Proof.
  intros Ht Hl Hs He [evs [Htr [Hle [Hep Hsh]]]]. exists (evs ++ extra).
  rewrite Ht, Htr, Hl, Hs, He, row_epochs_app, <- app_assoc.
  split; [reflexivity |]. split; [exact Hle |]. split; [exact Hep |].
  destruct Hsh as [H | H]; [now left | right; apply in_or_app; now left].
Qed.

Lemma row_shown_step e (st st' : State Tensor M) extra :
  trace (world st') = trace (world st) ++ extra ->
  epoch (self st') = epoch (self st) ->
  row_shown t0 e st -> row_shown t0 e st'.
Proof.
  intros Ht He [evs [Htr [Hep Hin]]]. exists (evs ++ extra).
  rewrite Ht, Htr, He, row_epochs_app, <- app_assoc.
  split; [reflexivity |]. split; [exact Hep |].
  apply in_or_app. now left.
Qed.

Ltac same_trace := cbn; first [reflexivity | symmetry; apply app_nil_r].

Ltac rows_side :=
  intros;
  first
    [ eapply pass_inv_step; [| | | | eassumption]; same_trace
    | eapply rows_inv_step; [| | | | eassumption]; same_trace
    | eapply row_shown_step; [| | eassumption]; same_trace ].

(** A resume that yields has rendered the row of the object's epoch. *)
Lemma step_row (n : Network Tensor M) t g e :
  epoch n = Some e ->
  match snd (fst (show_epoch_summary_step env n t g)) with
  | Ok _ => In e (row_epochs (fst (fst (show_epoch_summary_step env n t g))))
  | Raise _ => True
  end.
Proof.
  intros He. unfold show_epoch_summary_step. rewrite He.
  repeat match goal with
         | |- context [if ?c then _ else _] =>
             match type of c with bool => destruct c end
         end;
    cbn [fst snd]; try exact I;
    rewrite row_epochs_app; apply in_or_app; right; cbn; auto.
Qed.

Lemma next_rows e :
  hoare (pass_inv t0 e) (next_epoch_summary env)
        (fun _ st => pass_inv t0 e st /\ row_shown t0 e st) (pass_inv t0 e).
Proof.
  intros st HP.
  destruct (status (epoch_summary (locals st))) eqn:Est.
  3:{ unfold next_epoch_summary. rewrite run_get_locals, Est. exact HP. }
  all: rewrite next_epoch_summary_eq by congruence;
    destruct HP as [evs [Ht [Hl [He Hs]]]];
    pose proof (@step_row (self st) (clock env (ticks (world st)))
                          (epoch_summary (locals st)) e He) as Hrow;
    destruct (show_epoch_summary_step env (self st) (clock env (ticks (world st)))
                                      (epoch_summary (locals st)))
      as [[evs1 r] g'];
    cbn [fst snd] in *;
    assert (HP' : pass_inv t0 e
                    (mkState (self st)
                       (mkWorld (S (ticks (world st))) (rng (world st))
                                (trace (world st) ++ evs1))
                       (set_summary g' (locals st))));
    [ exists (evs ++ evs1); cbn; rewrite Ht, row_epochs_app, <- app_assoc;
      repeat split; try assumption;
      destruct Hs as [H | H]; [now left | right; apply in_or_app; now left]
    | destruct r as [k | exn]; [| exact HP'];
      split; [exact HP' |];
      exists (evs ++ evs1); cbn; rewrite Ht, row_epochs_app, <- app_assoc;
      repeat split; try assumption; apply in_or_app; now right ].
Qed.

Lemma next_shown_rows e :
  keeps (pass_inv t0 e)
        (pbind (next_epoch_summary env) (fun k => modify_locals (set_shown k e))).
Proof.
  apply hoare_bind with (R := fun _ st => pass_inv t0 e st /\ row_shown t0 e st);
    [apply next_rows |].
  intros k st [[_ [_ [Hl _]]] [evs [Ht [He Hin]]]]. cbn.
  exists evs. cbn. auto.
Qed.

Lemma train_attempt_rows held_out e t :
  keeps (pass_inv t0 e) (train_attempt env cls held_out e t).
Proof.
  unfold train_attempt.
  repeat first [apply next_shown_rows | keeps_step]; rows_side.
Qed.

Lemma epoch_body_rows flag held_out e :
  1 <= e -> keeps (rows_inv t0) (epoch_body env cls flag held_out e).
Proof.
  intros He st [evs [Ht [_ Hs]]].
  destruct (epoch_body_eq env cls held_out flag e st)
    as [st1 [Heq [He1 [_ [_ [_ [Htr1 [Hl1 [_ [Hls1 _]]]]]]]]]].
  rewrite (hook_epoch cls hook_extends_base) in He1.
  assert (H1 : pass_inv t0 e st1).
  { exists evs. rewrite Htr1, Hls1. auto. }
  assert (Hc : keeps (pass_inv t0 e)
                     (catch_stop e (train_attempt env cls held_out e
                                                  (clock env (ticks (world st)))))).
  { apply keeps_catch_stop; [apply train_attempt_rows |].
    intros msg. keeps_step. rows_side. }
  specialize (Hc st1 H1). rewrite Heq.
  assert (Hweak : forall s : State Tensor M, pass_inv t0 e s -> rows_inv t0 s).
  { intros s [evs' [Ht' [Hl' [He' Hs']]]]. exists evs'.
    split; [exact Ht' |]. split; [| exact Hs'].
    intros e' H. rewrite Hl' in H. inversion H; subst. auto. }
  destruct (catch_stop e _ st1) as [[f | exn] st']; apply Hweak; exact Hc.
Qed.

Lemma for_epochs_rows flag held_out it n :
  keeps (rows_inv t0) (for_epochs env n 1 it (epoch_body env cls flag held_out)).
Proof.
  apply keeps_for_epochs. intros e He. now apply epoch_body_rows.
Qed.

(** What follows the loop renders the row of the last epoch unless it has
    one. *)
Lemma after_loop_rows :
  hoare (rows_inv t0) (after_loop env cls)
        (fun _ st => exists e, 1 <= e /\ row_shown t0 e st) (fun _ => True).
Proof.
  intros st HR. unfold after_loop. rewrite run_get_locals.
  destruct (l_epoch (locals st)) as [e |] eqn:Ele; [| exact I].
  assert (Hrest :
    hoare (row_shown t0 e)
          (pbind (match train_end_signal cls with
                  | Some signal =>
                      pbind (get_self (M:=M)) (fun n =>
                      pbind (emit (CallTrainEndSignal n)) (fun _ => call signal))
                  | None => ret tt
                  end)
                 (fun _ => pbind (close_epoch_summary (Tensor:=Tensor) (M:=M))
                                 (fun _ => emit (Log MsgEndTrain))))
          (fun _ => row_shown t0 e) (fun _ => True)).
  { eapply hoare_weaken
      with (P' := row_shown t0 e) (Q' := fun _ => row_shown t0 e)
           (E' := row_shown t0 e); auto.
    match goal with
    | |- hoare ?I ?p _ _ => change (keeps I p)
    end.
    unfold close_epoch_summary, summary_finally.
    repeat keeps_step; rows_side. }
  destruct HR as [evs [Ht [Hle Hs]]].
  destruct (Hle e Ele) as [He1 Hep].
  destruct (e =? l_last_epoch_shown (locals st)) eqn:Eshown; cbn [negb].
  - apply Z.eqb_eq in Eshown. rewrite run_ret.
    assert (H0 : row_shown t0 e st).
    { exists evs. split; [exact Ht |]. split; [exact Hep |].
      destruct Hs as [H | H]; [lia | now rewrite Eshown]. }
    specialize (Hrest st H0).
    match goal with
    | |- match ?p with _ => _ end => destruct p as [[u | exn] s]
    end; [exists e; auto | exact I].
  - rewrite pbind_assoc, pbind_eq.
    assert (HP : pass_inv t0 e st).
    { exists evs. auto. }
    pose proof (next_rows HP) as Hn.
    destruct (next_epoch_summary env st) as [[k | exn] st1]; [| exact I].
    rewrite run_ret. destruct Hn as [_ Hn].
    specialize (Hrest st1 Hn).
    match goal with
    | |- match ?p with _ => _ end => destruct p as [[u | exn] s]
    end; [exists e; auto | exact I].
Qed.

Lemma train_run_rows input_test target_test epochs epsilon warn :
  hoare (rows_inv t0) (train_run env cls input_test target_test epochs epsilon warn)
        (fun _ st => exists e, 1 <= e /\ row_shown t0 e st) (fun _ => True).
Proof.
  unfold train_run.
  do 8 (apply hoare_bind with (R := fun _ => rows_inv t0);
        [ apply hoare_weaken
            with (P' := rows_inv t0) (Q' := fun _ => rows_inv t0)
                 (E' := rows_inv t0); auto;
          match goal with
          | |- hoare ?I ?p _ _ => change (keeps I p)
          end;
          repeat keeps_step; rows_side
        | intros ]).
  cbv zeta.
  do 2 (apply hoare_bind with (R := fun _ => rows_inv t0);
        [ apply hoare_weaken
            with (P' := rows_inv t0) (Q' := fun _ => rows_inv t0)
                 (E' := rows_inv t0); auto;
          match goal with
          | |- hoare ?I ?p _ _ => change (keeps I p)
          end;
          repeat keeps_step; rows_side
        | intros ]).
  apply hoare_bind with (R := fun _ => rows_inv t0).
  - apply hoare_weaken
      with (P' := rows_inv t0) (Q' := fun _ => rows_inv t0) (E' := rows_inv t0);
      auto.
    apply for_epochs_rows.
  - intros _. apply after_loop_rows.
Qed.

End LastRow.

(** X12: the last epoch is always reported.  For a class whose epoch-start
    hook extends the base one, whenever [_train] returns normally the
    progress table has a row for the last epoch the loop ran, the one left
    in the epoch attribute of the object: lines 378-379 render it when the
    loop has not. *)
Theorem X12_last_epoch_has_row
        (Tensor M : Type) (env : Env Tensor M) (cls : NetworkClass Tensor M)
        (input_train : Tensor) (target_train input_test target_test : option Tensor)
        (epochs : Z) (epsilon : option Q) (net : Network Tensor M)
        (w : World Tensor M) :
  (forall e n, exists m, epoch_start_update cls e n = with_model m (with_epoch e n)) ->
  fst (fst (_train env cls input_train target_train input_test target_test
                   epochs epsilon net w)) = Ok tt ->
  exists e evs,
    trace (snd (_train env cls input_train target_train input_test target_test
                       epochs epsilon net w)) = trace w ++ evs /\
    epoch (snd (fst (_train env cls input_train target_train input_test target_test
                            epochs epsilon net w))) = Some e /\
    1 <= e /\
    In e (row_epochs evs).
Proof.
  intros Hhook. unfold _train. destruct (is_feature1d cls net) as [f1 f2].
  destruct (match epsilon with Some _ => epochs <=? 2 | None => false end).
  { discriminate. }
  destruct (reporting_cadence (show_epoch net) epochs epsilon) as [[k warn] | exn].
  2:{ discriminate. }
  match goal with
  | |- context [train_run env cls ?xt ?yt epochs epsilon warn ?s] =>
      pose proof (@train_run_rows Tensor M env cls (trace w) Hhook xt yt epochs
                                  epsilon warn s) as H;
      destruct (train_run env cls xt yt epochs epsilon warn s) as [r st]
  end.
  cbn [fst snd]. intros Hok. subst r.
  destruct H as [e [He [evs [Ht [Hep Hin]]]]].
  - exists []. cbn. rewrite app_nil_r. split; [reflexivity |].
    split; [discriminate | now left].
  - exists e, evs. auto.
Qed.

Lemma X12_witness :
  exists e evs,
    trace (snd (_train (unit_env second_clock) (stopping_class 7) tt None None None
                       20 None (fresh_network (SEInt 5)) fresh_world))
      = trace fresh_world ++ evs /\
    epoch (snd (fst (_train (unit_env second_clock) (stopping_class 7) tt None None
                            None 20 None (fresh_network (SEInt 5)) fresh_world)))
      = Some e /\
    1 <= e /\
    In e (row_epochs evs).
Proof.
  apply (@X12_last_epoch_has_row unit unit (unit_env second_clock) (stopping_class 7)
           tt None None None 20 None (fresh_network (SEInt 5)) fresh_world).
  - intros e n. exists (model n). now destruct n.
  - reflexivity.
Defined.

(** ** How often the methods and callbacks are called *)

Section CallCounts.

Variables Tensor M : Type.
Variable env : Env Tensor M.
Variable cls : NetworkClass Tensor M.
Variable t0 : list (Event Tensor M).

#[local] Abbreviation C := (calls_inv t0).

Lemma plain_counts (evs : list (Event Tensor M)) :
  forallb is_plain_event evs = true ->
  count_events is_train_epoch_call evs = 0%nat /\
  count_events is_prediction_call evs = 0%nat /\
  count_events is_epoch_end_call evs = 0%nat /\
  count_events is_train_end_call evs = 0%nat.
Proof.
  intros H. repeat split; eapply count_events_none; try exact H;
    intros ev; destruct ev; simpl; congruence.
Qed.

Lemma table_is_plain_event (e : Event Tensor M) :
  is_table_event e = true -> is_plain_event e = true.
Proof. destruct e as [| | | | | m | | | |]; try destruct m; simpl; congruence. Qed.

(** What calls nothing keeps the counts. *)
Lemma keeps_plain {A} k dp de te (p : Py Tensor M A) :
  emits is_plain_event p -> keeps (C k dp de te) p.
Proof.
  intros Hp st [evs [Ht [H1 [H2 [H3 H4]]]]].
  destruct (Hp st) as [evs1 [Ht1 Hf]].
  destruct (plain_counts evs1 Hf) as [P1 [P2 [P3 P4]]].
  assert (H : C k dp de te (snd (p st))).
  { exists (evs ++ evs1). rewrite Ht1, Ht, <- app_assoc.
    split; [reflexivity |].
    rewrite !count_events_app, P1, P2, P3, P4. repeat split; lia. }
  destruct (p st) as [[a | exn] st']; exact H.
Qed.

Lemma emits_next_plain : emits is_plain_event (next_epoch_summary env).
Proof.
  eapply emits_weaken; [apply table_is_plain_event | apply emits_next_epoch_summary].
Qed.

Lemma emits_close_plain :
  emits is_plain_event (close_epoch_summary (Tensor:=Tensor) (M:=M)).
Proof.
  eapply emits_weaken; [apply table_is_plain_event | apply emits_close_epoch_summary].
Qed.

Ltac plain := apply keeps_plain; repeat first [apply emits_next_plain
                                              | apply emits_close_plain
                                              | emits_step].

Lemma calls_weaken k dp de te dp' de' (st : State Tensor M) :
  (dp' <= dp)%nat -> (de' <= de)%nat -> C k dp de te st -> C k dp' de' te st.
Proof.
  intros Hp He [evs [Ht [H1 [H2 [H3 H4]]]]]. exists evs.
  repeat split; try assumption; lia.
Qed.

(** The [try] block calls [train_epoch] once and each of
    [prediction_error] and [epoch_end_signal] at most once. *)
Lemma train_attempt_calls held_out e t k :
  hoare (C k 0 0 0) (train_attempt env cls held_out e t)
        (fun _ => C (S k) 0 0 0) (C (S k) 0 0 0).
Proof.
  assert (W : forall dp de (st : State Tensor M),
             C (S k) dp de 0 st -> C (S k) 0 0 0 st).
  { intros dp de st. apply calls_weaken; lia. }
  unfold train_attempt.
  apply hoare_bind with (R := fun _ => C k 0 0 0).
  { eapply hoare_weaken with (P' := C k 0 0 0) (Q' := fun _ => C k 0 0 0)
                             (E' := C k 0 0 0); auto; [plain |].
    intros st [evs [Ht [H1 [H2 [H3 H4]]]]]. exists evs.
    repeat split; try assumption; lia. }
  intros l.
  apply hoare_bind with (R := fun _ => C k 0 0 0).
  { intros st H. exact H. }
  intros n.
  apply hoare_bind with (R := fun _ => C (S k) 1 1 0).
  { intros st [evs [Ht [H1 [H2 [H3 H4]]]]]. cbn.
    exists (evs ++ [CallTrainEpoch n]). cbn. rewrite Ht, <- app_assoc.
    split; [reflexivity |]. rewrite !count_events_app, H4. cbn.
    repeat split; lia. }
  intros _.
  apply hoare_bind with (R := fun _ => C (S k) 1 1 0).
  { eapply hoare_weaken with (P' := C (S k) 1 1 0) (Q' := fun _ => C (S k) 1 1 0)
                             (E' := C (S k) 1 1 0); auto; [plain | apply W]. }
  intros error.
  apply hoare_bind with (R := fun _ => C (S k) 0 1 0).
  { destruct held_out as [[[pe xt] yt] |].
    - apply hoare_bind with (R := fun _ => C (S k) 1 1 0);
        [intros st H; exact H | intros n'].
      apply hoare_bind with (R := fun _ => C (S k) 0 1 0).
      { intros st [evs [Ht [H1 [H2 [H3 H4]]]]]. cbn.
        exists (evs ++ [CallPredictionError n']). cbn. rewrite Ht, <- app_assoc.
        split; [reflexivity |]. rewrite !count_events_app, H4. cbn.
        repeat split; lia. }
      intros _.
      eapply hoare_weaken with (P' := C (S k) 0 1 0) (Q' := fun _ => C (S k) 0 1 0)
                               (E' := C (S k) 0 1 0); auto; [plain | apply W].
    - intros st H. cbn. revert H. apply calls_weaken; lia. }
  intros _.
  do 5 (apply hoare_bind with (R := fun _ => C (S k) 0 1 0);
        [ eapply hoare_weaken
            with (P' := C (S k) 0 1 0) (Q' := fun _ => C (S k) 0 1 0)
                 (E' := C (S k) 0 1 0); auto; [plain | apply W]
        | intros ]).
  destruct (epoch_end_signal cls) as [signal |].
  - apply hoare_bind with (R := fun _ => C (S k) 0 1 0);
      [intros st H; exact H | intros n'].
    apply hoare_bind with (R := fun _ => C (S k) 0 0 0).
    { intros st [evs [Ht [H1 [H2 [H3 H4]]]]]. cbn.
      exists (evs ++ [CallEpochEndSignal n']). cbn. rewrite Ht, <- app_assoc.
      split; [reflexivity |]. rewrite !count_events_app, H4. cbn.
      repeat split; lia. }
    intros _.
    match goal with
    | |- hoare ?I ?p _ _ => change (keeps I p)
    end.
    plain.
  - intros st H. cbn. revert H. apply W.
Qed.

Lemma epoch_body_calls flag held_out e k :
  hoare (C k 0 0 0) (epoch_body env cls flag held_out e)
        (fun _ => C (S k) 0 0 0) (C (S k) 0 0 0).
Proof.
  assert (W : forall st : State Tensor M, C k 0 0 0 st -> C (S k) 0 0 0 st).
  { intros st [evs [Ht [H1 [H2 [H3 H4]]]]]. exists evs.
    repeat split; try assumption; lia. }
  unfold epoch_body.
  do 4 (apply hoare_bind with (R := fun _ => C k 0 0 0);
        [ eapply hoare_weaken
            with (P' := C k 0 0 0) (Q' := fun _ => C k 0 0 0) (E' := C k 0 0 0);
          auto; plain
        | intros ]).
  intros st H. unfold catch_stop.
  pose proof (@train_attempt_calls held_out e a0 k st H) as Hb.
  destruct (train_attempt env cls held_out e a0 st) as [[u | exn] st']; [exact Hb |].
  destruct exn; try exact Hb.
  assert (Hk : keeps (C (S k) 0 0 0)
                     (pbind (emit (Log (MsgEpochStopped e message)))
                            (fun _ => ret Break))).
  { plain. }
  exact (Hk st' Hb).
Qed.

Lemma for_epochs_calls flag held_out it n :
  forall k e,
    hoare (C k 0 0 0) (for_epochs env n e it (epoch_body env cls flag held_out))
          (fun _ => C (k + n)%nat 0 0 0) (C (k + n)%nat 0 0 0).
Proof.
  assert (W : forall k k' (st : State Tensor M),
             (k <= k')%nat -> C k 0 0 0 st -> C k' 0 0 0 st).
  { intros k k' st Hle [evs [Ht [H1 [H2 [H3 H4]]]]]. exists evs.
    repeat split; try assumption; lia. }
  induction n as [| n IH]; intros k e st H.
  - cbn. now rewrite Nat.add_0_r.
  - cbn [for_epochs].
    destruct (iter_yields env it (self st)).
    + pose proof (@epoch_body_calls flag held_out e k st H) as Hb.
      destruct (epoch_body env cls flag held_out e st) as [[[|] | exn] st'].
      * specialize (IH (S k) (e + 1) st' Hb).
        now replace (k + S n)%nat with (S k + n)%nat by lia.
      * eapply W; [| exact Hb]. lia.
      * eapply W; [| exact Hb]. lia.
    + eapply W; [| exact H]. lia.
Qed.

(** What follows the loop calls [train_end_signal], when set, once. *)
Lemma after_loop_calls k :
  hoare (C k 0 0 0) (after_loop env cls)
        (fun _ => C k 0 0 (match train_end_signal cls with
                           | Some _ => 1%nat
                           | None => 0%nat
                           end))
        (fun st => C k 0 0 0 st \/ C k 0 0 1 st).
Proof.
  unfold after_loop.
  apply hoare_bind with (R := fun _ => C k 0 0 0);
    [intros st H; exact H | intros l].
  destruct (l_epoch l) as [e |]; [| intros st H; cbn; now left].
  apply hoare_bind with (R := fun _ => C k 0 0 0).
  { eapply hoare_weaken
      with (P' := C k 0 0 0) (Q' := fun _ => C k 0 0 0) (E' := C k 0 0 0);
      auto; plain. }
  intros _.
  destruct (train_end_signal cls) as [signal |].
  - apply hoare_bind with (R := fun _ => C k 0 0 1).
    { apply hoare_bind with (R := fun _ => C k 0 0 0);
        [intros st H; exact H | intros n].
      apply hoare_bind with (R := fun _ => C k 0 0 1).
      { intros st [evs [Ht [H1 [H2 [H3 H4]]]]]. cbn.
        exists (evs ++ [CallTrainEndSignal n]). cbn. rewrite Ht, <- app_assoc.
        split; [reflexivity |]. rewrite !count_events_app, H4. cbn.
        repeat split; lia. }
      intros _.
      eapply hoare_weaken
        with (P' := C k 0 0 1) (Q' := fun _ => C k 0 0 1) (E' := C k 0 0 1);
        auto; plain. }
    intros _.
    eapply hoare_weaken
      with (P' := C k 0 0 1) (Q' := fun _ => C k 0 0 1) (E' := C k 0 0 1);
      auto; plain.
  - eapply hoare_weaken
      with (P' := C k 0 0 0) (Q' := fun _ => C k 0 0 0) (E' := C k 0 0 0);
      auto; plain.
Qed.

Lemma train_run_calls input_test target_test epochs epsilon warn :
  hoare (C 0 0 0 0) (train_run env cls input_test target_test epochs epsilon warn)
        (fun _ => C (Z.to_nat epochs) 0 0
                    (match train_end_signal cls with
                     | Some _ => 1%nat
                     | None => 0%nat
                     end))
        (fun st => C (Z.to_nat epochs) 0 0 0 st \/ C (Z.to_nat epochs) 0 0 1 st).
Proof.
  assert (W : forall st : State Tensor M,
             C 0 0 0 0 st ->
             C (Z.to_nat epochs) 0 0 0 st \/ C (Z.to_nat epochs) 0 0 1 st).
  { intros st [evs [Ht [H1 [H2 [H3 H4]]]]]. left. exists evs.
    repeat split; try assumption; lia. }
  unfold train_run.
  do 8 (apply hoare_bind with (R := fun _ => C 0 0 0 0);
        [ eapply hoare_weaken
            with (P' := C 0 0 0 0) (Q' := fun _ => C 0 0 0 0) (E' := C 0 0 0 0);
          auto; plain
        | intros ]).
  cbv zeta.
  do 2 (apply hoare_bind with (R := fun _ => C 0 0 0 0);
        [ eapply hoare_weaken
            with (P' := C 0 0 0 0) (Q' := fun _ => C 0 0 0 0) (E' := C 0 0 0 0);
          auto; plain
        | intros ]).
  apply hoare_bind with (R := fun _ => C (Z.to_nat epochs) 0 0 0).
  - eapply hoare_weaken
      with (P' := C 0 0 0 0) (Q' := fun _ => C (0 + Z.to_nat epochs) 0 0 0)
           (E' := C (0 + Z.to_nat epochs) 0 0 0); auto.
    apply for_epochs_calls.
  - intros _. apply after_loop_calls.
Qed.

End CallCounts.

(** The calls one call of [_train] makes, counted. *)
Lemma _train_counts
        (Tensor M : Type) (env : Env Tensor M) (cls : NetworkClass Tensor M)
        (input_train : Tensor) (target_train input_test target_test : option Tensor)
        (epochs : Z) (epsilon : option Q) (net : Network Tensor M)
        (w : World Tensor M) :
  exists evs,
    trace (snd (_train env cls input_train target_train input_test target_test
                       epochs epsilon net w)) = trace w ++ evs /\
    (count_events is_train_epoch_call evs <= Z.to_nat epochs)%nat /\
    (count_events is_prediction_call evs
     <= count_events is_train_epoch_call evs)%nat /\
    (count_events is_epoch_end_call evs
     <= count_events is_train_epoch_call evs)%nat /\
    (count_events is_train_end_call evs <= 1)%nat /\
    (fst (fst (_train env cls input_train target_train input_test target_test
                      epochs epsilon net w)) = Ok tt ->
     count_events is_train_end_call evs =
       match train_end_signal cls with Some _ => 1%nat | None => 0%nat end).
Proof.
  assert (Hnone : forall exn : Exn,
             exists evs : list (Event Tensor M),
               trace w = trace w ++ evs /\
               (count_events is_train_epoch_call evs <= Z.to_nat epochs)%nat /\
               (count_events is_prediction_call evs
                <= count_events is_train_epoch_call evs)%nat /\
               (count_events is_epoch_end_call evs
                <= count_events is_train_epoch_call evs)%nat /\
               (count_events is_train_end_call evs <= 1)%nat /\
               (Raise exn = Ok tt ->
                count_events is_train_end_call evs =
                  match train_end_signal cls with
                  | Some _ => 1%nat
                  | None => 0%nat
                  end)).
  { intros exn. exists []. rewrite app_nil_r. cbn.
    repeat split; try lia. discriminate. }
  unfold _train. destruct (is_feature1d cls net) as [f1 f2].
  destruct (match epsilon with Some _ => epochs <=? 2 | None => false end).
  { apply Hnone. }
  destruct (reporting_cadence (show_epoch net) epochs epsilon) as [[k warn] | exn].
  2:{ apply Hnone. }
  match goal with
  | |- context [train_run env cls ?xt ?yt epochs epsilon warn ?s] =>
      pose proof (@train_run_calls Tensor M env cls (trace w) xt yt epochs epsilon
                                   warn s) as H;
      destruct (train_run env cls xt yt epochs epsilon warn s) as [r st]
  end.
  cbn [fst snd].
  assert (H0 : calls_inv (trace w) 0 0 0 0
                 (mkState net w
                    (mkLocals (format_data env input_train f1)
                       (option_map (fun t => format_data env t f2) target_train)
                       k 0 None (mkSummary NotStarted k None [])))).
  { exists []. cbn. rewrite app_nil_r. repeat split; lia. }
  specialize (H H0). destruct r as [[] | exn].
  - destruct H as [evs [Ht [H1 [H2 [H3 H4]]]]]. exists evs.
    rewrite H4. repeat split; try assumption; try lia.
    destruct (train_end_signal cls); lia.
  - destruct H as [H | H]; destruct H as [evs [Ht [H1 [H2 [H3 H4]]]]]; exists evs;
      rewrite H4; repeat split; try assumption; try lia; discriminate.
Qed.

(** X13: how often a run calls the methods and callbacks.  In every call of
    [_train], whatever they do and however the call ends: [train_epoch] is
    called at most [epochs] times, [prediction_error] and
    [epoch_end_signal] at most once for each call of [train_epoch], and
    [train_end_signal] at most once; when the call returns normally,
    [train_end_signal], when set, has been called exactly once. *)
Theorem X13_call_counts
        (Tensor M : Type) (env : Env Tensor M) (cls : NetworkClass Tensor M)
        (input_train : Tensor) (target_train input_test target_test : option Tensor)
        (epochs : Z) (epsilon : option Q) (net : Network Tensor M)
        (w : World Tensor M) :
  exists evs,
    trace (snd (_train env cls input_train target_train input_test target_test
                       epochs epsilon net w)) = trace w ++ evs /\
    (count_events is_train_epoch_call evs <= Z.to_nat epochs)%nat /\
    (count_events is_prediction_call evs
     <= count_events is_train_epoch_call evs)%nat /\
    (count_events is_epoch_end_call evs
     <= count_events is_train_epoch_call evs)%nat /\
    (count_events is_train_end_call evs <= 1)%nat /\
    (fst (fst (_train env cls input_train target_train input_test target_test
                      epochs epsilon net w)) = Ok tt ->
     count_events is_train_end_call evs =
       match train_end_signal cls with Some _ => 1%nat | None => 0%nat end).
Proof. apply _train_counts. Qed.


(** ** The pipeline builder and the constructor *)

(** What [clean_layers] returns has passed its last check. *)
Lemma clean_layers_checked (connection cleaned : PyValue) :
  clean_layers connection = Ok cleaned ->
  exists out, output_layer cleaned = Ok out /\ is_Output out = true.
Proof.
  unfold clean_layers.
  destruct (is_list_of_integers connection) as [ints | exn]; [| discriminate].
  cbn [bind].
  match goal with
  | |- bind ?r _ = _ -> _ => destruct r as [c1 | exn]; [| discriminate]
  end.
  cbn [bind]. cbv zeta.
  match goal with
  | |- bind ?r _ = _ -> _ => destruct r as [c2 | exn]; [| discriminate]
  end.
  cbn [bind].
  destruct (output_layer c2) as [out | exn] eqn:Eout; [| discriminate].
  cbn [bind]. destruct (is_Output out) eqn:Eo; [| discriminate].
  intros H. inversion H; subst. eauto.
Qed.

Lemma output_layer_of_connection (v : PyValue) (out : Layer) :
  output_layer v = Ok out ->
  exists c, v = PyConnection c /\ conn_layers c <> [].
Proof.
  destruct v as [| | c | | |]; try discriminate.
  cbn. destruct (conn_layers c) eqn:E; [discriminate |].
  intros _. exists c. split; [reflexivity | congruence].
Qed.

(** X14: [clean_layers] is idempotent.  Whatever it returns is a connection
    whose output layer derives from [Output], and cleaning that connection
    again returns it unchanged, so the [connection] attribute of one network
    can be given to the constructor of another. *)
Theorem X14_clean_layers_idempotent (connection cleaned : PyValue) :
  clean_layers connection = Ok cleaned ->
  (exists c out, cleaned = PyConnection c /\
                 output_layer cleaned = Ok out /\ is_Output out = true) /\
  clean_layers cleaned = Ok cleaned.
Proof.
  intros H. destruct (clean_layers_checked connection H) as [out [Hout Ho]].
  destruct (output_layer_of_connection cleaned Hout) as [c [Hc _]]. subst cleaned.
  split; [exists c, out; auto |].
  unfold clean_layers. cbn [is_list_of_integers bind]. rewrite Hout. cbn [bind].
  now rewrite Ho.
Qed.

Lemma X14_witness :
  (exists c out,
      PyConnection
        (mkConnection [mkLayer 0 2 false []; mkLayer 1 1 true []]) = PyConnection c /\
      output_layer
        (PyConnection (mkConnection [mkLayer 0 2 false []; mkLayer 1 1 true []]))
        = Ok out /\
      is_Output out = true) /\
  clean_layers (PyConnection (mkConnection [mkLayer 0 2 false []; mkLayer 1 1 true []]))
  = Ok (PyConnection (mkConnection [mkLayer 0 2 false []; mkLayer 1 1 true []])).
Proof.
  apply (@X14_clean_layers_idempotent
           (PyTuple [PyLayer (mkLayer 0 2 false []); PyLayer (mkLayer 1 1 true [])])).
  reflexivity.
Defined.

Section Constructed.

Variable Tensor : Type.
Variable backend : GraphBackend Tensor.
Variable init_param_updates : Layer -> SharedVar -> Updates Tensor.

(** The layers of a constructed object. *)
Lemma ConstructableNetwork_init_layers algorithm given step period initial g :
  ConstructableNetwork_init backend init_param_updates algorithm given
                            step period initial = Ok g ->
  clean_layers given = Ok (PyConnection (connection g)) /\
  layers g = conn_layers (connection g) /\
  train_layers g = removelast (layers g) /\
  prediction_func g =
    EGraph (fun x y s => VTensor (prediction backend (train_layers g) x s)).
Proof.
  unfold ConstructableNetwork_init.
  destruct (clean_layers given) as [cleaned | exn]; [| discriminate].
  cbn [bind]. destruct cleaned as [| | c | | |]; try discriminate.
  unfold init_methods.
  match goal with
  | |- context [theano_function ?o ?u] =>
      destruct (theano_function o u) as [f |]; [| discriminate]
  end.
  cbn [bind theano_function distinct map]. intros H. inversion H; subst; clear H.
  cbn. repeat split.
Qed.

End Constructed.

(** X15: what the constructor leaves in a [ConstructableNetwork].  When
    construction succeeds, the layers of the object are those of the cleaned
    connection; the last one derives from [Output] and is the only one left
    out of [train_layers]; the raw prediction is the composition of the
    outputs of the trainable layers, in their order, on the formatted input;
    and the updates of the compiled train-epoch function are those of
    [init_param_updates] for the parameters of the trainable layers, in the
    order of the layers, followed for [SimpleStepMinimization] by the step
    rule, so that no update is made for the output layer. *)
Theorem X15_constructed_network
        (Tensor : Type) (backend : GraphBackend Tensor)
        (init_param_updates : Layer -> SharedVar -> Updates Tensor)
        (algorithm : Algorithm) (given : PyValue) (step : Q) (period : Z)
        (initial : Store Tensor) (g : Graph Tensor) :
  ConstructableNetwork_init backend init_param_updates algorithm given
                            step period initial = Ok g ->
  exists out,
    layers g = train_layers g ++ [out] /\
    is_Output out = true /\
    (forall x,
        fst (ConstructableNetwork_predict_raw backend g x) =
        VTensor (fold_left (fun t layer => layer_output backend layer (shared g) t)
                           (train_layers g) (graph_format_data backend x true))) /\
    fn_updates (m_train_epoch (methods g)) =
      flat_map (fun layer => flat_map (init_param_updates layer) (parameters layer))
               (train_layers g)
      ++ match algorithm with
         | PlainConstructable => []
         | WithSimpleStepMinimization => [(VarStep, new_step step period)]
         end.
Proof.
  intros Hinit.
  destruct (ConstructableNetwork_init_layers _ _ _ _ _ _ _ Hinit)
    as [Hclean [Hlayers [Htrain Hpred]]].
  destruct (ConstructableNetwork_init_ok _ _ _ _ _ _ _ Hinit)
    as [Hm [_ [Hfs [Hp _]]]].
  destruct (clean_layers_checked given Hclean) as [out [Hout Ho]].
  assert (Hne : conn_layers (connection g) <> []).
  { destruct (output_layer_of_connection _ Hout) as [c [Hc Hn]].
    inversion Hc. subst c. exact Hn. }
  rewrite (output_layer_connection _ out Hne) in Hout. inversion Hout as [Hlast].
  exists out. split; [| split; [exact Ho | split]].
  - rewrite Htrain, Hlayers.
    pose proof (app_removelast_last out Hne) as Happ.
    rewrite Hlast in Happ. exact Happ.
  - intros x. unfold ConstructableNetwork_predict_raw. rewrite Hm.
    cbn [m_predict_raw call_function fn_outputs fn_updates map assign_all fold_left
         fst].
    rewrite Hpred. reflexivity.
  - rewrite Hm. cbn [m_train_epoch fn_updates].
    destruct algorithm.
    + unfold ConstructableNetwork_init_train_updates, init_layer_updates.
      now rewrite app_nil_r.
    + unfold SimpleStepMinimization_init_train_updates,
        ConstructableNetwork_init_train_updates, init_layer_updates.
      now rewrite Hfs, Hp.
Qed.

Lemma X15_witness :
  exists g out,
    ConstructableNetwork_init unit_backend keep_param_updates
      WithSimpleStepMinimization (PyList [PyInt 2; PyInt 3; PyInt 1])
      (3 # 10) 50 zero_store = Ok g /\
    layers g = train_layers g ++ [out] /\
    is_Output out = true /\
    List.length (train_layers g) = 2%nat.
Proof.
  destruct (ConstructableNetwork_init unit_backend keep_param_updates
              WithSimpleStepMinimization (PyList [PyInt 2; PyInt 3; PyInt 1])
              (3 # 10) 50 zero_store) as [g | exn] eqn:E;
    [| vm_compute in E; discriminate].
  destruct (@X15_constructed_network unit unit_backend keep_param_updates
              WithSimpleStepMinimization (PyList [PyInt 2; PyInt 3; PyInt 1])
              (3 # 10) 50 zero_store g E) as [out [H1 [H2 _]]].
  exists g, out. repeat split; try assumption.
  vm_compute in E. inversion E. reflexivity.
Defined.

(** * The epoch counter *)

Lemma epochs_from_length (e : Z) (k : nat) : List.length (epochs_from e k) = k.
Proof.
  revert e. induction k as [| k IH]; intros e; [reflexivity |].
  cbn [epochs_from List.length]. now rewrite IH.
Qed.

Lemma train_calls_count (Tensor M : Type) (t : list (Event Tensor M)) :
  List.length (train_calls t) = count_events is_train_epoch_call t.
Proof.
  unfold count_events, train_calls. induction t as [| e t IH]; [reflexivity |].
  destruct e; simpl; auto.
Qed.

Section GraphRun.

Variable Tensor : Type.
Variable backend : GraphBackend Tensor.
Variable env : Env Tensor (Graph Tensor).
Variable train_end_signal :
  option (Network Tensor (Graph Tensor) -> Res unit * Graph Tensor).
Variable g0 : Graph Tensor.
Variable flag : bool.
Variable n0 : nat.
Variable t0 : list (Event Tensor (Graph Tensor)).

Hypothesis clock_advances : advancing (clock env).
Hypothesis scalar : returns_error backend g0.
Hypothesis train_end_ok :
  forall f, train_end_signal = Some f -> forall n, fst (f n) = Ok tt.

#[local] Abbreviation cls :=
  (ConstructableNetwork_class backend None train_end_signal).
#[local] Abbreviation before :=
  (fun e (st : State Tensor (Graph Tensor)) =>
     before_run_pass (clock env) n0 t0 e st /\
     exists s, model (self st) = with_shared s g0).

Lemma graph_hook_extends_base :
  forall e n, exists m, epoch_start_update cls e n = with_model m (with_epoch e n).
Proof. intros e n. eexists. reflexivity. Qed.

(** [train_epoch] on a graph whose train function returns a number. *)
Lemma graph_train_epoch (n : Network Tensor (Graph Tensor)) s x y :
  model n = with_shared s g0 ->
  exists err s',
    ConstructableNetwork_train_epoch backend n x y = (Ok err, with_shared s' g0).
Proof.
  intros Hn. destruct (scalar x y s) as [err Herr].
  unfold ConstructableNetwork_train_epoch, call_function. rewrite Hn.
  change (methods (with_shared s g0)) with (methods g0).
  change (shared (with_shared s g0)) with s.
  rewrite Herr. cbn [as_error]. do 2 eexists. reflexivity.
Qed.

(** A pass of the loop. *)
Lemma graph_pass e (st : State Tensor (Graph Tensor)) :
  1 <= e -> before e st ->
  exists st', epoch_body env cls flag None e st = (Ok Next, st') /\
              before (e + 1) st'.
Proof.
  intros He [[Hlen [Hshow [Hsound [Hlast [_ [evs [Htr [Hc1 Hc2]]]]]]]] [s Hmodel]].
  assert (Hhook : model (epoch_start_update cls e (self st)) =
                  with_shared (set_value s VarEpoch (VNum (Fin (inject_Z e)))) g0).
  { cbn. rewrite Hmodel. reflexivity. }
  destruct (@epoch_body_next Tensor (Graph Tensor) env cls None
              ltac:(discriminate) ltac:(discriminate)
              (fun k g' => 1 <= k /\
                           sound_buffer (clock env) (S (S (S (ticks (world st))))) g')
              flag e st) as [st' [n_call [x [y H]]]].
  - reflexivity.
  - intros n a b Hn Hm. rewrite Hhook in Hm.
    destruct (graph_train_epoch n a b Hm) as [err [s' Hrun]].
    exists err.
    change (train_epoch cls n a b)
      with (ConstructableNetwork_train_epoch backend n a b).
    now rewrite Hrun.
  - lia.
  - apply Hsound.
  - intros n Hn.
    destruct (@step_sound_buffer Tensor (Graph Tensor) env n
                (S (S (ticks (world st)))) _ _ e clock_advances Hn Hsound)
      as [evs1 [k [g' [Hstep [Hk [_ Hs']]]]]]; [lia |].
    exists evs1, k, g'. auto.
  - destruct H as [Hrun [_ [Hcall_model [Herrs [[err Herr]
                     [Hepoch [Hmod [Hle Hcases]]]]]]]].
    rewrite Hhook in Hcall_model.
    destruct (graph_train_epoch n_call x y Hcall_model) as [err' [s' Htrain]].
    specialize (Hmod eq_refl eq_refl).
    change (train_epoch cls n_call x y)
      with (ConstructableNetwork_train_epoch backend n_call x y) in *.
    rewrite Htrain in Hmod, Herrs. cbn [fst snd] in Hmod, Herrs.
    destruct (epoch_body_trace env cls flag None e st)
      as [snap [evs' [Htr' [Hev' _]]]].
    rewrite Hrun in Htr'. cbn [snd] in Htr'.
    destruct (epoch_events_not_calls evs' Hev') as [Hn1 Hn2].
    exists st'. split; [exact Hrun |].
    split; [| exists s'; exact Hmod].
    unfold before_run_pass. replace (e + 1 - 1) with e by lia.
    assert (Hnat : Z.to_nat e = S (Z.to_nat (e - 1))) by lia.
    split.
    { rewrite Herrs, length_app.
      change (errors_in (epoch_start_update cls e (self st)))
        with (errors_in (self st)).
      rewrite Hlen. simpl. lia. }
    assert (Htrace :
      exists evs0,
        trace (world st') = t0 ++ evs0 /\
        count_events is_train_epoch_call evs0 = Z.to_nat e /\
        count_events is_train_end_call evs0 = 0%nat).
    { exists (evs ++ CallTrainEpoch snap :: evs').
      rewrite Htr', Htr, <- app_assoc. split; [reflexivity |].
      rewrite !count_events_app, Hc1, Hc2.
      change (CallTrainEpoch snap :: evs') with ([CallTrainEpoch snap] ++ evs').
      rewrite !count_events_app, Hn1, Hn2. cbn. split; lia. }
    destruct Hcases as [[Ht [Hs [Hk Hl]]] | [Ht [[Hk Hs] Hl]]].
    + rewrite Hs, Hk, Hl, Ht. split; [exact Hshow |].
      split; [eapply sound_buffer_later; [exact Hsound | lia] |].
      split; [lia |].
      split; [intros _; split; assumption | exact Htrace].
    + rewrite Hl, Ht. split; [exact Hk |]. split; [exact Hs |].
      split; [lia |].
      split; [intros _; split; assumption | exact Htrace].
Qed.

(** The loop on [epochs] epochs and what follows it. *)
Lemma graph_run epochs (st : State Tensor (Graph Tensor)) :
  1 <= epochs -> before 1 st ->
  exists st' evs,
    pbind (for_epochs env (Z.to_nat epochs) 1 RangeIter
                      (epoch_body env cls flag None))
          (fun _ => after_loop env cls) st = (Ok tt, st') /\
    trace (world st') = t0 ++ evs /\
    epoch (self st') = Some epochs /\
    count_events is_train_epoch_call evs = Z.to_nat epochs.
Proof.
  intros Hep Hbefore.
  destruct (@for_epochs_prefix Tensor (Graph Tensor) env before
              (epoch_body env cls flag None) (Z.to_nat epochs) 0 1 st)
    as [st1 [Hrun H1]].
  - intros k st2 Hk Hb. apply graph_pass; [lia | exact Hb].
  - exact Hbefore.
  - rewrite Nat.add_0_r in Hrun.
    replace (1 + Z.of_nat (Z.to_nat epochs)) with (epochs + 1) in * by lia.
    rewrite pbind_eq, Hrun. cbn [for_epochs ret].
    destruct H1 as [[_ [_ [Hsound [_ [Hprev [evs [Htr [Hc1 _]]]]]]]] _].
    replace (epochs + 1 - 1) with epochs in * by lia.
    destruct (Hprev ltac:(lia)) as [Hle Hepoch].
    destruct (@run_end Tensor (Graph Tensor) env cls clock_advances train_end_ok
                epochs _ st1 Hle Hepoch Hsound (Nat.le_refl _))
      as [st2 [Hfin [_ [Hep2 [evs2 [Htr2 [Hd1 _]]]]]]].
    exists st2, (evs ++ evs2). split; [exact Hfin |].
    split; [rewrite Htr2, Htr, app_assoc; reflexivity |].
    split; [exact Hep2 |].
    rewrite count_events_app, Hc1, Hd1. lia.
Qed.

(** A call of [_train] on a fixed number of epochs, without held-out data
    and without an epoch-end callback. *)
Lemma graph_train input_train target_train input_test target_test epochs
      (net : Network Tensor (Graph Tensor)) (w : World Tensor (Graph Tensor)) :
  model net = g0 -> n0 = List.length (errors_in net) -> t0 = trace w ->
  flag = shuffle_data net ->
  1 <= epochs ->
  ShowEpochProperty_validate (show_epoch net) = Ok tt ->
  (input_test = None \/ target_test = None) ->
  exists net' w' evs,
    _train env cls input_train target_train input_test target_test
           epochs None net w = (Ok tt, net', w') /\
    trace w' = trace w ++ evs /\
    epoch net' = Some epochs /\
    count_events is_train_epoch_call evs = Z.to_nat epochs.
Proof.
  intros Hmodel Hn0 Ht0 Hflag Hepochs Hval Hheld.
  unfold _train. destruct (is_feature1d _ net) as [f1 f2]. cbv iota.
  destruct (validate_parse_ok _ epochs Hval) as [K0 [Hparse HK]].
  unfold reporting_cadence. rewrite Hparse. cbn [bind].
  match goal with
  | |- context [train_run env ?c ?xt ?yt epochs None false ?s] =>
      set (st0 := s);
      destruct (@train_run_range Tensor (Graph Tensor) env c xt yt epochs st0)
        as [st1 [ho [Hrun [_ [Hho [Hself [Hloc [Htk [evs0 [Htr0 [Hc0 Hd0]]]]]]]]]]]
  end.
  { destruct Hheld as [H | H]; rewrite H; auto. }
  assert (Hnone : ho = None).
  { apply Hho. destruct Hheld as [H | H]; rewrite H; auto. }
  subst ho. rewrite Hrun.
  change (shuffle_data (self st0)) with (shuffle_data net). rewrite <- Hflag.
  destruct (@graph_run epochs st1 Hepochs) as [st' [evs [Hfin [Htr [Hep Hc]]]]].
  - split.
    + unfold before_run_pass. rewrite Hself, Hloc, Htk. subst st0.
      cbn [self world locals errors_in with_train_data l_show_epoch
           l_last_epoch_shown epoch_summary ticks].
      replace (Z.to_nat (1 - 1)) with 0%nat by reflexivity.
      split; [lia |]. split; [exact HK |].
      split.
      { repeat split; try discriminate; cbn; try assumption; try constructor. }
      split; [lia |]. split; [lia |].
      exists evs0. rewrite Htr0, Ht0. cbn [world trace]. auto.
    + exists (shared g0). rewrite Hself. subst st0. cbn [self model with_train_data].
      rewrite Hmodel. now destruct g0.
  - rewrite Hfin. exists (self st'), (world st'), evs.
    rewrite Htr, Ht0. auto.
Qed.

End GraphRun.

(** C7: in every run of a graph-backed network, successful or not, the calls
    of [train_epoch] are made for the epochs 1, 2, 3, ... in this order, one
    more per pass and never more than [epochs] of them, and at the call for
    epoch [e] the epoch-start hook has written [e] to the object and to the
    shared epoch scalar, so an update expression reading that scalar
    evaluates to [e] during the call.  When nothing interrupts the run (a
    fixed number of [epochs >= 1], a validated [show_epoch], a clock that
    advances between readings, no held-out data, no epoch-end callback, a
    train function that returns a number, an end-of-training callback that
    returns) the call returns normally, [train_epoch] has been called for
    every epoch from 1 to [epochs], and the object is left at epoch
    [epochs]. *)
Theorem C7_epoch_counter
        (Tensor : Type) (backend : GraphBackend Tensor)
        (env : Env Tensor (Graph Tensor))
        (epoch_end_signal train_end_signal :
           option (Network Tensor (Graph Tensor) -> Res unit * Graph Tensor))
        (input_train : Tensor) (target_train input_test target_test : option Tensor)
        (epochs : Z) (epsilon : option Q)
        (net : Network Tensor (Graph Tensor)) (w : World Tensor (Graph Tensor)) :
  let run :=
    _train env (ConstructableNetwork_class backend epoch_end_signal train_end_signal)
           input_train target_train input_test target_test epochs epsilon net w in
  exists evs k,
    trace (snd run) = trace w ++ evs /\
    Forall2 (fun e snap =>
               epoch snap = Some e /\
               shared (model snap) VarEpoch = VNum (Fin (inject_Z e)) /\
               forall x y, eval backend (EShared VarEpoch) x y (shared (model snap))
                           = VNum (Fin (inject_Z e)))
            (epochs_from 1 k) (train_calls evs) /\
    (k <= Z.to_nat epochs)%nat /\
    (epsilon = None ->
     epoch_end_signal = None ->
     1 <= epochs ->
     ShowEpochProperty_validate (show_epoch net) = Ok tt ->
     advancing (clock env) ->
     (input_test = None \/ target_test = None) ->
     returns_error backend (model net) ->
     (forall f, train_end_signal = Some f -> forall n, fst (f n) = Ok tt) ->
     fst (fst run) = Ok tt /\
     k = Z.to_nat epochs /\
     epoch (snd (fst run)) = Some epochs).
Proof.
  intros run.
  destruct (_train_numbers env
              (ConstructableNetwork_class backend epoch_end_signal train_end_signal)
              (fun e oe m =>
                 oe = Some e /\
                 shared m VarEpoch = VNum (Fin (inject_Z e)) /\
                 forall x y, eval backend (EShared VarEpoch) x y (shared m)
                             = VNum (Fin (inject_Z e)))
              input_train target_train input_test target_test epochs epsilon net w)
    as [evs [k [Htr HF]]].
  { intros e n. cbn. repeat split. }
  fold run in Htr.
  assert (Hk : k = count_events is_train_epoch_call evs).
  { apply Forall2_length in HF.
    now rewrite epochs_from_length, train_calls_count in HF. }
  exists evs, k. split; [exact Htr |]. split; [exact HF |]. split.
  - destruct (_train_counts env
                (ConstructableNetwork_class backend epoch_end_signal train_end_signal)
                input_train target_train input_test target_test epochs epsilon net w)
      as [evs' [Htr' [Hle _]]].
    fold run in Htr'. rewrite Htr in Htr'. apply app_inv_head in Htr'.
    subst evs'. now rewrite Hk.
  - intros He Hs Hep Hval Hclock Hheld Hscalar Hend.
    destruct (@graph_train Tensor backend env train_end_signal (model net)
                (shuffle_data net)
                (List.length (errors_in net)) (trace w) Hclock Hscalar Hend
                input_train target_train input_test target_test epochs net w
                eq_refl eq_refl eq_refl eq_refl Hep Hval Hheld)
      as [net' [w' [evs' [Hrun [Htr' [Hepoch Hc]]]]]].
    subst epsilon epoch_end_signal. unfold run in *. rewrite Hrun in *.
    cbn [fst snd] in *. rewrite Htr in Htr'. apply app_inv_head in Htr'.
    subst evs'. split; [reflexivity |]. split; [congruence | exact Hepoch].
Qed.

Lemma C7_witness :
  exists g evs,
    ConstructableNetwork_init unit_backend keep_param_updates
      WithSimpleStepMinimization (PyList [PyInt 2; PyInt 3; PyInt 1])
      (3 # 10) 50 zero_store = Ok g /\
    let run :=
      _train (unit_graph_env second_clock)
             (ConstructableNetwork_class unit_backend None None)
             tt (Some tt) None None 3 None
             (graph_network (SEInt 1) g) (mkWorld 0 0 []) in
    trace (snd run) = evs /\
    fst (fst run) = Ok tt /\
    epoch (snd (fst run)) = Some 3 /\
    Forall2 (fun e snap =>
               epoch snap = Some e /\
               shared (model snap) VarEpoch = VNum (Fin (inject_Z e)))
            [1; 2; 3] (train_calls evs).
Proof.
  destruct (ConstructableNetwork_init unit_backend keep_param_updates
              WithSimpleStepMinimization (PyList [PyInt 2; PyInt 3; PyInt 1])
              (3 # 10) 50 zero_store) as [g | exn] eqn:E;
    [| vm_compute in E; discriminate].
  destruct (@C7_epoch_counter unit unit_backend (unit_graph_env second_clock)
              None None tt (Some tt) None None 3 None
              (graph_network (SEInt 1) g) (mkWorld 0 0 []))
    as [evs [k [Htr [HF [_ Hdone]]]]].
  destruct Hdone as [Hok [Hk Hep]]; try reflexivity.
  - lia.
  - exact second_clock_advances.
  - now left.
  - vm_compute in E. inversion E. intros x y s. eexists. reflexivity.
  - discriminate.
  - subst k. exists g, evs. split; [reflexivity |]. cbv zeta.
    split; [exact Htr |]. split; [exact Hok |]. split; [exact Hep |].
    change (epochs_from 1 (Z.to_nat 3)) with [1; 2; 3] in HF.
    eapply Forall2_impl; [| exact HF]. cbn. intros a b [H1 [H2 _]]. auto.
Defined.

(** ** The self-tuning of the progress reporter *)

(** X16: the self-tuning of the reporter for a positive mean gap.  A step of
    the generator appends to its buffer the gap between the reading of the
    clock and the time of the previous row, when it holds one, and keeps at
    most 10 gaps.  When the buffer then holds 10 gaps whose mean is positive
    and below the one-second floor, the interval (positive) is multiplied by
    [ceil(1 / mean)], which is at least 2, so the interval strictly
    increases; the buffer is cleared, the time of the previous row dropped,
    and the advisory naming the new interval written exactly once.  When it
    holds 10 gaps whose mean is at least the floor, the interval and the
    gaps are kept and the time of the previous row is dropped.  With fewer
    than 10 gaps the interval is kept and the reading becomes the time of
    the previous row, so the next step measures a gap. *)
Theorem X16_cadence_adapts
        (Tensor M : Type) (env : Env Tensor M) (network : Network Tensor M)
        (time_now : Q) (g : Summary) (e : Z) :
  epoch network = Some e ->
  (List.length (terminal_output_delays g) <= 10)%nat ->
  0 < g_show_epoch g ->
  let delays :=
    match prev_summary_time g with
    | Some p => deque_append 10 (terminal_output_delays g) (time_now - p)
    | None => terminal_output_delays g
    end in
  (List.length delays = 10%nat -> (mean delays < 1)%Q -> (0 < mean delays)%Q) ->
  let '(events, result, g') := show_epoch_summary_step env network time_now g in
  (List.length delays <= 10)%nat /\
  (List.length (terminal_output_delays g') <= 10)%nat /\
  if (List.length delays =? 10)%nat then
    prev_summary_time g' = None /\
    if negb (Qle_bool 1 (mean delays)) then
      result = Ok (g_show_epoch g * Qceiling (1 / mean delays)) /\
      g_show_epoch g' = g_show_epoch g * Qceiling (1 / mean delays) /\
      2 <= Qceiling (1 / mean delays) /\
      g_show_epoch g < g_show_epoch g' /\
      terminal_output_delays g' = [] /\
      count_events is_advisory events = 1%nat /\
      advised_intervals events = [g_show_epoch g']
    else
      result = Ok (g_show_epoch g) /\
      g_show_epoch g' = g_show_epoch g /\
      terminal_output_delays g' = delays /\
      count_events is_advisory events = 0%nat
  else
    prev_summary_time g' = Some time_now /\
    result = Ok (g_show_epoch g) /\
    g_show_epoch g' = g_show_epoch g /\
    terminal_output_delays g' = delays /\
    count_events is_advisory events = 0%nat.
Proof.
  intros Hep Hlen HK delays Hpos.
  pose proof (pending_delays_length time_now (prev_summary_time g) _ Hlen) as Hd.
  change (pending_delays time_now (prev_summary_time g) (terminal_output_delays g))
    with delays in Hd.
  unfold delay_history_length in Hd.
  unfold show_epoch_summary_step. rewrite Hep.
  change (pending_delays time_now (prev_summary_time g) (terminal_output_delays g))
    with delays.
  unfold delay_history_length, delay_limit.
  destruct (List.length delays =? 10)%nat eqn:E10.
  - apply Nat.eqb_eq in E10.
    destruct (Qle_bool 1 (mean delays)) eqn:Ele; cbn [negb].
    + split; [exact Hd |]. split; [exact Hd |].
      repeat split. apply count_advisory_started.
    + assert (Hlt : (mean delays < 1)%Q).
      { apply Qnot_le_lt. intros Hle. apply Qle_bool_iff in Hle. congruence. }
      specialize (Hpos E10 Hlt).
      assert (Hne : Qeq_bool (mean delays) 0 = false).
      { destruct (Qeq_bool (mean delays) 0) eqn:Eq0; [| reflexivity].
        apply Qeq_bool_iff in Eq0. rewrite Eq0 in Hpos.
        exfalso. exact (Qlt_irrefl 0 Hpos). }
      rewrite Hne.
      pose proof (ceiling_inverse_ge_2 Hpos Hlt) as Hc. unfold delay_limit in Hc.
      split; [exact Hd |]. cbn [terminal_output_delays g_show_epoch List.length
                                prev_summary_time].
      split; [lia |]. repeat split.
      * exact Hc.
      * nia.
      * rewrite count_advisory_started. reflexivity.
      * unfold advised_intervals. rewrite flat_map_app.
        destruct (status g); reflexivity.
  - split; [exact Hd |]. split; [exact Hd |].
    repeat split. apply count_advisory_started.
Qed.

Lemma X16_witness :
  let g := mkSummary Suspended 1 (Some (20 # 1)) (repeat (1 # 2)%Q 9) in
  let '(events, result, g') :=
    show_epoch_summary_step (unit_env second_clock) (network_at 11) (41 # 2) g in
  result = Ok 2 /\ g_show_epoch g' = 2 /\
  terminal_output_delays g' = [] /\
  prev_summary_time g' = None /\
  count_events is_advisory events = 1%nat.
Proof.
  pose proof (@X16_cadence_adapts unit unit (unit_env second_clock)
                (network_at 11) (41 # 2)
                (mkSummary Suspended 1 (Some (20 # 1)) (repeat (1 # 2)%Q 9)) 11
                eq_refl) as H.
  cbn [terminal_output_delays g_show_epoch prev_summary_time] in H.
  specialize (H ltac:(simpl; lia) ltac:(lia) ltac:(intros _ _; reflexivity)).
  cbv zeta.
  destruct (show_epoch_summary_step (unit_env second_clock) (network_at 11)
              (41 # 2) (mkSummary Suspended 1 (Some (20 # 1)) (repeat (1 # 2)%Q 9)))
    as [[events result] g'] eqn:E.
  destruct H as [_ [_ H]].
  change ((List.length
             (deque_append 10 (repeat (1 # 2)%Q 9) ((41 # 2) - (20 # 1))) =? 10)%nat)
    with true in H.
  cbv iota in H. destruct H as [H0 H].
  change (negb (Qle_bool 1
                  (mean (deque_append 10 (repeat (1 # 2)%Q 9)
                                      ((41 # 2) - (20 # 1)))))) with true in H.
  cbv iota in H.
  destruct H as [H1 [H2 [_ [_ [H3 [H4 _]]]]]].
  rewrite H1, H2. repeat split; assumption.
Defined.
